(** * ingress53: the registrator's reconciliation engine

    A shallow embedding of [registrator.go] (handler, update queue,
    batching, prune, dedup and the CNAME resolver) together with the
    properties its specification states about them.

    Layout: the Go standard-library helpers the code calls, the data
    model, the external collaborators (as a type class), the embedded
    functions, the earlier version of the file (module [legacy]), and
    then the theorems. *)

From Stdlib Require Import String Ascii List Bool Arith Lia.
From stdpp Require Import base option list strings gmap.
Import ListNotations.

Local Open Scope string_scope.
Local Open Scope list_scope.

(** ** Go's [strings] package, as far as the registrator uses it *)

Module strings.

(** Membership of a byte in a cutset. *)
Fixpoint inCutset (c : ascii) (cutset : string) : bool :=
  match cutset with
  | EmptyString => false
  | String x rest => if Ascii.eqb c x then true else inCutset c rest
  end.

(** [strings.TrimLeft(s, cutset)] *)
Fixpoint TrimLeft (s cutset : string) : string :=
  match s with
  | EmptyString => EmptyString
  | String c rest => if inCutset c cutset then TrimLeft rest cutset else s
  end.

(** [strings.TrimRight(s, cutset)] *)
Fixpoint TrimRight (s cutset : string) : string :=
  match s with
  | EmptyString => EmptyString
  | String c rest =>
      match TrimRight rest cutset with
      | EmptyString => if inCutset c cutset then EmptyString else String c EmptyString
      | r => String c r
      end
  end.

(** [strings.Trim(s, cutset)]: all leading and all trailing bytes of
    [cutset] are removed. *)
Definition Trim (s cutset : string) : string :=
  TrimRight (TrimLeft s cutset) cutset.

(** [strings.Replace(s, old, new, -1)] for a one-byte [old]. *)
Fixpoint ReplaceByte (s : string) (old : ascii) (new : string) : string :=
  match s with
  | EmptyString => EmptyString
  | String c rest =>
      if Ascii.eqb c old then new ++ ReplaceByte rest old new
      else String c (ReplaceByte rest old new)
  end.

End strings.

(** ** Go's [regexp] package, on the fragment the scope check can build

    [canHandleRecord] compiles the pattern [^[^.]+\.ZONE$] where ZONE is
    the zone apex with every dot escaped.  The model below covers the
    syntax such a pattern is made of: literal bytes, escaped punctuation,
    a negated one-byte class, the postfix operators [+ * ?], and the
    anchors [^] (first) and [$] (last).  It works on bytes, which agrees
    with Go's rune-wise matching for ASCII patterns of this shape.
    Everything else (groups, alternation, classes, counted repetition,
    Perl escapes, non-ASCII bytes) is outside the fragment and [compile]
    answers [None] for it, as it does for a pattern Go rejects. *)

Module regexp.

Inductive atom : Type :=
| Lit (c : ascii)       (* c  or  \c *)
| NotLit (c : ascii).   (* [^c]: any byte but c, newline included *)

Inductive quant : Type := One | ZeroOrOne | ZeroOrMore | OneOrMore.

Inductive token : Type :=
| TAtom (a : atom)
| TQuant (q : quant)
| TBegin
| TEnd.

Record Regexp : Type := mkRegexp {
  beginText : bool;
  items : list (atom * quant);
  endText : bool
}.

Definition isASCII (c : ascii) : bool := Nat.ltb (nat_of_ascii c) 128.

Definition isalnum (c : ascii) : bool :=
  let n := nat_of_ascii c in
  (Nat.leb 48 n && Nat.leb n 57) || (Nat.leb 65 n && Nat.leb n 90)
  || (Nat.leb 97 n && Nat.leb n 122).

(** Bytes with a meaning of their own in the pattern syntax. *)
Definition isMeta (c : ascii) : bool := strings.inCutset c "\.+*?()|[]{}^$".

(** A byte that stands for itself outside a class. *)
Definition isLiteral (c : ascii) : bool := isASCII c && negb (isMeta c).

(** A byte that stands for itself as the only member of a class. *)
Definition isClassLiteral (c : ascii) : bool :=
  isASCII c && negb (strings.inCutset c "\[]^-").

Fixpoint lex (p : string) : option (list token) :=
  match p with
  | EmptyString => Some []
  | String c rest =>
      if Ascii.eqb c "\" then
        match rest with
        | String e rest' =>
            if isASCII e && negb (isalnum e)
            then cons (TAtom (Lit e)) <$> lex rest'
            else None
        | EmptyString => None
        end
      else if Ascii.eqb c "[" then
        match rest with
        | String n (String x (String r rest')) =>
            if Ascii.eqb n "^" && isClassLiteral x && Ascii.eqb r "]"
            then cons (TAtom (NotLit x)) <$> lex rest'
            else None
        | _ => None
        end
      else if Ascii.eqb c "+" then cons (TQuant OneOrMore) <$> lex rest
      else if Ascii.eqb c "*" then cons (TQuant ZeroOrMore) <$> lex rest
      else if Ascii.eqb c "?" then cons (TQuant ZeroOrOne) <$> lex rest
      else if Ascii.eqb c "^" then cons TBegin <$> lex rest
      else if Ascii.eqb c "$" then cons TEnd <$> lex rest
      else if isLiteral c then cons (TAtom (Lit c)) <$> lex rest
      else None
  end.

(** Atoms with their optional postfix operator, then an optional [$]. *)
Fixpoint group (ts : list token) : option (list (atom * quant) * bool) :=
  match ts with
  | [] => Some ([], false)
  | [TEnd] => Some ([], true)
  | TAtom a :: TQuant q :: rest =>
      (fun r : list (atom * quant) * bool => ((a, q) :: fst r, snd r)) <$> group rest
  | TAtom a :: rest =>
      (fun r : list (atom * quant) * bool => ((a, One) :: fst r, snd r)) <$> group rest
  | _ => None
  end.

Definition compile (p : string) : option Regexp :=
  match lex p with
  | Some (TBegin :: ts) => (fun r => mkRegexp true (fst r) (snd r)) <$> group ts
  | Some ts => (fun r => mkRegexp false (fst r) (snd r)) <$> group ts
  | None => None
  end.

Definition matchAtom (a : atom) (c : ascii) : bool :=
  match a with
  | Lit x => Ascii.eqb c x
  | NotLit x => negb (Ascii.eqb c x)
  end.

(** One byte matched by [a], then [k] on the rest. *)
Definition matchOne (a : atom) (k : string -> bool) (s : string) : bool :=
  match s with
  | String c s' => matchAtom a c && k s'
  | EmptyString => false
  end.

(** Any number of bytes matched by [a], then [k] on the rest. *)
Fixpoint matchStar (a : atom) (k : string -> bool) (s : string) : bool :=
  k s
  || match s with
     | String c s' => matchAtom a c && matchStar a k s'
     | EmptyString => false
     end.

(** Does some match of [its] start at the head of the text?  With
    [atEnd] the match has to reach the end of the text. *)
Fixpoint matchItems (atEnd : bool) (its : list (atom * quant)) : string -> bool :=
  match its with
  | [] => fun s => if atEnd then match s with EmptyString => true | _ => false end
                   else true
  | (a, q) :: rest =>
      let k := matchItems atEnd rest in
      match q with
      | One => matchOne a k
      | ZeroOrOne => fun s => k s || matchOne a k s
      | ZeroOrMore => matchStar a k
      | OneOrMore => matchOne a (matchStar a k)
      end
  end.

(** Without [^] a match may start anywhere in the text. *)
Fixpoint search (atEnd : bool) (its : list (atom * quant)) (s : string) : bool :=
  matchItems atEnd its s
  || match s with
     | String _ s' => search atEnd its s'
     | EmptyString => false
     end.

(** [regexp.MatchString(pattern, s)]; [None] is the error result. *)
Definition MatchString (pattern s : string) : option bool :=
  match compile pattern with
  | Some re =>
      Some (if beginText re then matchItems (endText re) (items re) s
            else search (endText re) (items re) s)
  | None => None
  end.

End regexp.

(** ** Data model *)

Module route53.
Definition ChangeActionUpsert : string := "UPSERT".
Definition ChangeActionDelete : string := "DELETE".
End route53.

Module watch.
Definition Added : string := "ADDED".
Definition Modified : string := "MODIFIED".
Definition Deleted : string := "DELETED".
End watch.

Module dns.
(** A resource record of an answer section: a CNAME, or a record of
    any other type (kept by its type code). *)
Inductive RR : Type :=
| CNAME (Target : string)
| OtherRR (Rrtype : N).

Record Msg : Type := mkMsg { Answer : list RR }.
End dns.

(** Go [error] values the registrator can hold: its own two sentinels
    and errors made by a library (which are never one of the sentinels). *)
Inductive error : Type :=
| errRegistratorMissingOption
| errDNSEmptyAnswer
| errLibrary (msg : string).

Definition error_eqb (a b : error) : bool :=
  match a, b with
  | errRegistratorMissingOption, errRegistratorMissingOption => true
  | errDNSEmptyAnswer, errDNSEmptyAnswer => true
  | errLibrary x, errLibrary y => String.eqb x y
  | _, _ => false
  end.

(** Result of a library call that returns [(value, error)]. *)
Inductive result (A : Type) : Type :=
| Ok (a : A)
| Failed (msg : string).
Arguments Ok {A} a.
Arguments Failed {A} msg.

(** A call either returns or panics. *)
Inductive outcome (A : Type) : Type :=
| Returned (a : A)
| Panicked.
Arguments Returned {A} a.
Arguments Panicked {A}.

Record cnameRecord : Type := mkRecord {
  Hostname : string;
  Target : string
}.

(** [Record_] is the Go field [Record]. *)
Record cnameChange : Type := mkChange {
  Action : string;
  Record_ : cnameRecord
}.

Record IngressRule : Type := mkRule { Host : string }.
Record IngressSpec : Type := mkSpec { Rules : list IngressRule }.
Record Ingress : Type := mkIngress {
  Name : string;
  Labels : gmap string string;
  Spec : IngressSpec
}.

(** A Go map read [m[k]]: the zero value when the key is absent. *)
Definition labelValue (m : gmap string string) (k : string) : string :=
  default EmptyString (m !! k).

Definition defaultResyncPeriod : Z := (15 * 60 * 1000000000)%Z.

(** ** External collaborators

    What the registrator reaches through interfaces, other packages and
    the embedded ingress watcher.  [World] is whatever lies outside the
    process as the reconciler sees it during one flush: the zone, its
    nameservers' answers and the ownership index.  Reads do not change
    it; the two mutator calls do. *)
Class Env : Type := {
  World : Type;
  (* interface dnsZone *)
  UpsertCnames : list cnameRecord -> World -> option error * World;
  DeleteCnames : list cnameRecord -> World -> option error * World;
  Domain : string;
  ListNameservers : list string;
  (* dnsClient.Exchange(&m, nameserver), m a CNAME question for the name *)
  Exchange : string -> string -> World -> result dns.Msg;
  (* HostnameOwners, a method of the embedded ingressWatcher, whose source
     file is not at hand; by the specification it answers with the live
     ingresses that list the hostname (the ownership index) *)
  HostnameOwners : string -> World -> list string;
  (* regexp.MatchString; None is its error *)
  MatchString : string -> string -> option bool;
  (* k8s labels: labels.Selector, labels.Parse, Selector.Matches *)
  Selector : Type;
  Parse : string -> result Selector;
  Matches : Selector -> gmap string string -> bool;
  (* rest.Config, rest.InClusterConfig, session.Options *)
  RestConfig : Type;
  InClusterConfig : result RestConfig;
  SessionOptions : Type;
  emptySessionOptions : SessionOptions;
  (* the -dry-run flag *)
  dryRun : bool
}.

Record selectorAndTarget `{Env} : Type := mkSat {
  sat_Selector : Selector;
  sat_Target : string
}.

Record registratorOptions `{Env} : Type := mkOptions {
  AWSSessionOptions : option SessionOptions;
  KubernetesConfig : option RestConfig;
  Targets : list string;
  TargetLabelName : string;
  Route53ZoneID : string;
  ResyncPeriod : Z
}.

Record registrator `{Env} : Type := mkRegistrator {
  options : registratorOptions;
  sats : list selectorAndTarget
}.

(** A call of the zone mutator, as the zone sees it. *)
Inductive mutatorCall : Type :=
| CallUpsertCnames (records : list cnameRecord)
| CallDeleteCnames (records : list cnameRecord).

(** State threaded through the reconciler task.  The two counters are
    the Prometheus counters (whole numbers here: every increment is one
    or a length).  [queried], [flushed] and [mutatorCalls] are traces of
    what the task did: the (name, nameserver) pairs sent to
    [dnsClient.Exchange], the arguments [applyBatch] was called with,
    and the calls made on the zone. *)
Record state `{Env} : Type := mkState {
  world : World;
  metricUpdatesRejected : nat;
  metricUpdatesApplied : list (string * string);
  queried : list (string * string);
  flushed : list (list cnameChange);
  mutatorCalls : list mutatorCall
}.

Arguments mkSat {_} _ _.
Arguments mkOptions {_} _ _ _ _ _ _.
Arguments mkRegistrator {_} _ _.
Arguments mkState {_} _ _ _ _ _ _.

Definition M `{Env} (A : Type) : Type := state -> outcome A * state.

Definition ret `{Env} {A : Type} (a : A) : M A := fun st => (Returned a, st).

Definition panic `{Env} {A : Type} : M A := fun st => (Panicked, st).

Definition bind `{Env} {A B : Type} (c : M A) (k : A -> M B) : M B :=
  fun st =>
    match c st with
    | (Returned a, st') => k a st'
    | (Panicked, st') => (Panicked, st')
    end.

Notation "'let*' x ':=' c 'in' k" := (bind c (fun x => k))
  (at level 10, x name, c at level 100, k at level 200).
Notation "'let*' ' p ':=' c 'in' k" := (bind c (fun x => match x with p => k end))
  (at level 10, p pattern, c at level 100, k at level 200).

(** [metricUpdatesRejected.Add(n)] ([Inc] is [Add(1)]). *)
Definition metricUpdatesRejected_Add `{Env} (n : nat) : M unit :=
  fun st =>
    (Returned tt,
     mkState (world st) (metricUpdatesRejected st + n) (metricUpdatesApplied st)
             (queried st) (flushed st) (mutatorCalls st)).

(** [metricUpdatesApplied.WithLabelValues(hostname, op).Inc()] *)
Definition metricUpdatesApplied_Inc `{Env} (hostname op : string) : M unit :=
  fun st =>
    (Returned tt,
     mkState (world st) (metricUpdatesRejected st)
             (metricUpdatesApplied st ++ [(hostname, op)])
             (queried st) (flushed st) (mutatorCalls st)).

(** [dnsClient.Exchange(&m, nameserver)] for the CNAME question [name]. *)
Definition dnsClient_Exchange `{Env} (name nameserver : string) : M (result dns.Msg) :=
  fun st =>
    (Returned (Exchange name nameserver (world st)),
     mkState (world st) (metricUpdatesRejected st) (metricUpdatesApplied st)
             (queried st ++ [(name, nameserver)]) (flushed st) (mutatorCalls st)).

(** [r.ingressWatcher.HostnameOwners(hostname)] *)
Definition r_HostnameOwners `{Env} (hostname : string) : M (list string) :=
  fun st => (Returned (HostnameOwners hostname (world st)), st).

(** [r.UpsertCnames(records)] *)
Definition r_UpsertCnames `{Env} (records : list cnameRecord) : M (option error) :=
  fun st =>
    let (err, w) := UpsertCnames records (world st) in
    (Returned err,
     mkState w (metricUpdatesRejected st) (metricUpdatesApplied st) (queried st)
             (flushed st) (mutatorCalls st ++ [CallUpsertCnames records])).

(** [r.DeleteCnames(records)] *)
Definition r_DeleteCnames `{Env} (records : list cnameRecord) : M (option error) :=
  fun st =>
    let (err, w) := DeleteCnames records (world st) in
    (Returned err,
     mkState w (metricUpdatesRejected st) (metricUpdatesApplied st) (queried st)
             (flushed st) (mutatorCalls st ++ [CallDeleteCnames records])).

(** Entry of [applyBatch]: remember the argument. *)
Definition enter_applyBatch `{Env} (changes : list cnameChange) : M unit :=
  fun st =>
    (Returned tt,
     mkState (world st) (metricUpdatesRejected st) (metricUpdatesApplied st)
             (queried st) (flushed st ++ [changes]) (mutatorCalls st)).

(** ** The registrator *)

(** [newRegistratorWithOptions]: the loop that builds [sats]. *)
Fixpoint buildSats `{Env} (targetLabelName : string) (targets : list string)
    (sats : list selectorAndTarget) : error + list selectorAndTarget :=
  match targets with
  | [] => inr sats
  | target :: rest =>
      match Parse (targetLabelName ++ "=" ++ target) with
      | Failed msg => inl (errLibrary msg)
      | Ok s => buildSats targetLabelName rest (sats ++ [mkSat s target])
      end
  end.

Definition newRegistratorWithOptions `{Env} (options : registratorOptions)
    : error + registrator :=
  if (length (Targets options) =? 0)%nat
     || String.eqb (Route53ZoneID options) ""
     || String.eqb (TargetLabelName options) ""
  then inl errRegistratorMissingOption
  else
    match buildSats (TargetLabelName options) (Targets options) [] with
    | inl err => inl err
    | inr sats =>
        let aws :=
          match AWSSessionOptions options with
          | None => Some emptySessionOptions
          | o => o
          end in
        let kube :=
          match KubernetesConfig options with
          | None =>
              match InClusterConfig with
              | Failed msg => inl (errLibrary msg)
              | Ok c => inr (Some c)
              end
          | o => inr o
          end in
        match kube with
        | inl err => inl err
        | inr kube =>
            let resync :=
              if (ResyncPeriod options =? 0)%Z then defaultResyncPeriod
              else ResyncPeriod options in
            inr (mkRegistrator
                   (mkOptions aws kube (Targets options) (TargetLabelName options)
                              (Route53ZoneID options) resync)
                   sats)
        end
    end.

Definition newRegistrator `{Env} (zoneID : string) (targets : list string)
    (targetLabelName : string) : error + registrator :=
  newRegistratorWithOptions (mkOptions None None targets targetLabelName zoneID 0%Z).

(** [getTargetForIngress]: the loop over [r.sats]. *)
Fixpoint getTargetForIngress_loop `{Env} (sats : list selectorAndTarget)
    (ingress : Ingress) : string :=
  match sats with
  | [] => EmptyString
  | sat :: rest =>
      if Matches (sat_Selector sat) (Labels ingress) then sat_Target sat
      else getTargetForIngress_loop rest ingress
  end.

Definition getTargetForIngress `{Env} (r : registrator) (ingress : Ingress) : string :=
  getTargetForIngress_loop (sats r) ingress.

Fixpoint stringInSlice (s : string) (slice : list string) : bool :=
  match slice with
  | [] => false
  | x :: rest => if String.eqb s x then true else stringInSlice s rest
  end.

Fixpoint recordHostnameInSlice (h : string) (records : list cnameRecord) : bool :=
  match records with
  | [] => false
  | x :: rest => if String.eqb h (Hostname x) then true else recordHostnameInSlice h rest
  end.

Fixpoint recordTargetsAllMatch (target : string) (records : list cnameRecord) : bool :=
  match records with
  | [] => true
  | r :: rest =>
      if negb (String.eqb target (Target r)) then false
      else recordTargetsAllMatch target rest
  end.

(** [diffStringSlices]; its inner loop over [b] is the loop of
    [stringInSlice]. *)
Fixpoint diffStringSlices (a b : list string) : list string :=
  match a with
  | [] => []
  | va :: rest =>
      let exists_ := stringInSlice va b in
      if negb exists_ then va :: diffStringSlices rest b
      else diffStringSlices rest b
  end.

(** Modelled from the spec: the loop of [getHostnamesFromIngress] (see
    below) over the rules, keeping the first occurrence of each host. *)
Fixpoint getHostnames_loop (rules : list IngressRule) (hostnames : list string)
    : list string :=
  match rules with
  | [] => hostnames
  | rule :: rest =>
      if stringInSlice (Host rule) hostnames then getHostnames_loop rest hostnames
      else getHostnames_loop rest (hostnames ++ [Host rule])
  end.

(** Modelled from the spec: [getHostnamesFromIngress] lives in the
    watcher's source file, which is not at hand.  The specification has
    it return the ordered, de-duplicated list of the rule hosts, keeping
    the first occurrence of each; the repository's test of it agrees. *)
Definition getHostnamesFromIngress (ingress : Ingress) : list string :=
  getHostnames_loop (Rules (Spec ingress)) [].

(** [queueUpdates]: the changes sent to [r.updateQueue], in order. *)
Fixpoint queueUpdates (action : string) (hostnames : list string) (target : string)
    : list cnameChange :=
  match hostnames with
  | [] => []
  | h :: rest => mkChange action (mkRecord h target) :: queueUpdates action rest target
  end.

(** [uniqueRecords]: the inner loop collecting the other records (index
    [j] different from [i]) that carry [r1]'s hostname. *)
Fixpoint duplicatesOf (i : nat) (r1 : cnameRecord) (records : list cnameRecord)
    (j : nat) : list cnameRecord :=
  match records with
  | [] => []
  | r2 :: rest =>
      if negb (i =? j)%nat && String.eqb (Hostname r1) (Hostname r2)
      then r2 :: duplicatesOf i r1 rest (S j)
      else duplicatesOf i r1 rest (S j)
  end.

(** [uniqueRecords]: the outer loop.  [todo] is what is left of
    [records] from index [i] on; the result is the pair of the local
    slices [uniqueRecords] and [rejectedRecords]. *)
Fixpoint uniqueRecords_loop (records todo : list cnameRecord) (i : nat)
    (uniqueRecords : list cnameRecord) (rejectedRecords : list string)
    : list cnameRecord * list string :=
  match todo with
  | [] => (uniqueRecords, rejectedRecords)
  | r1 :: rest =>
      if stringInSlice (Hostname r1) rejectedRecords
         || recordHostnameInSlice (Hostname r1) uniqueRecords
      then uniqueRecords_loop records rest (S i) uniqueRecords rejectedRecords
      else
        let duplicates := duplicatesOf i r1 records 0 in
        if recordTargetsAllMatch (Target r1) duplicates
        then uniqueRecords_loop records rest (S i) (uniqueRecords ++ [r1]) rejectedRecords
        else uniqueRecords_loop records rest (S i) uniqueRecords
                                (rejectedRecords ++ [Hostname r1])
  end.

Definition uniqueRecords `{Env} (records : list cnameRecord) : M (list cnameRecord) :=
  let (uniqueRecords, rejectedRecords) := uniqueRecords_loop records records 0 [] [] in
  if (0 <? length rejectedRecords)%nat
  then let* _ := metricUpdatesRejected_Add (length rejectedRecords) in ret uniqueRecords
  else ret uniqueRecords.

Definition canHandleRecord `{Env} (record : string) : bool :=
  let zone := strings.Trim Domain "." in
  let record := strings.Trim record "." in
  match MatchString ("^[^.]+\." ++ strings.ReplaceByte zone "." "\." ++ "$") record with
  | None => false
  | Some matches => matches
  end.

(** [resolveCname]: the loop over the nameservers, with the two result
    variables it carries. *)
Fixpoint resolveCname_loop `{Env} (name : string) (nameservers : list string)
    (retTarget : string) (retError : option error) : M (string * option error) :=
  match nameservers with
  | [] => ret (retTarget, retError)
  | nameserver :: rest =>
      let* r := dnsClient_Exchange name nameserver in
      match r with
      | Failed msg => resolveCname_loop name rest retTarget (Some (errLibrary msg))
      | Ok r =>
          match dns.Answer r with
          | [] => resolveCname_loop name rest retTarget (Some errDNSEmptyAnswer)
          | dns.CNAME target :: _ => ret (target, None)
          | dns.OtherRR _ :: _ => panic   (* the type assertion fails *)
          end
      end
  end.

Definition resolveCname `{Env} (name : string) (nameservers : list string)
    : M (string * option error) :=
  resolveCname_loop name nameservers EmptyString None.

(** [pruneBatch]: the body of the loop over the records; the result is
    the new value of [pruned]. *)
Definition pruneRecord `{Env} (action : string) (u : cnameRecord)
    (pruned : list cnameRecord) : M (list cnameRecord) :=
  if negb (canHandleRecord (Hostname u)) then
    let* _ := metricUpdatesRejected_Add 1 in ret pruned
  else
    let* ' (t, err) := resolveCname (strings.Trim (Hostname u) "." ++ ".") ListNameservers in
    if String.eqb action route53.ChangeActionDelete then
      let* o := r_HostnameOwners (Hostname u) in
      if (0 <? length o)%nat then ret pruned
      else
        match err with
        | None => ret (pruned ++ [u])
        | Some e =>
            if negb (error_eqb e errDNSEmptyAnswer) then ret (pruned ++ [u])
            else ret pruned
        end
    else if String.eqb action route53.ChangeActionUpsert then
      match err with
      | Some _ => ret (pruned ++ [u])
      | None =>
          if negb (String.eqb (strings.Trim t ".") (Target u)) then ret (pruned ++ [u])
          else ret pruned
      end
    else ret pruned.

Fixpoint pruneBatch_loop `{Env} (action : string) (records : list cnameRecord)
    (pruned : list cnameRecord) : M (list cnameRecord) :=
  match records with
  | [] => ret pruned
  | u :: rest =>
      let* pruned := pruneRecord action u pruned in
      pruneBatch_loop action rest pruned
  end.

Definition pruneBatch `{Env} (action : string) (records : list cnameRecord)
    : M (list cnameRecord) :=
  let* pruned := pruneBatch_loop action records [] in
  uniqueRecords pruned.

Fixpoint appliedAll `{Env} (pruned : list cnameRecord) (op : string) : M unit :=
  match pruned with
  | [] => ret tt
  | p :: rest => let* _ := metricUpdatesApplied_Inc (Hostname p) op in appliedAll rest op
  end.

Definition applyBatch `{Env} (changes : list cnameChange) : M unit :=
  let* _ := enter_applyBatch changes in
  match changes with
  | [] => panic   (* changes[0]: index out of range *)
  | first :: _ =>
      let action := Action first in
      let records := List.map Record_ changes in
      let* pruned := pruneBatch action records in
      if (length pruned =? 0)%nat then ret tt
      else if String.eqb action route53.ChangeActionDelete then
        if negb dryRun then
          let* err := r_DeleteCnames pruned in
          match err with
          | Some _ => ret tt
          | None => appliedAll pruned "delete"
          end
        else ret tt
      else
        if negb dryRun then
          let* err := r_UpsertCnames pruned in
          match err with
          | Some _ => ret tt
          | None => appliedAll pruned "upsert"
          end
        else ret tt
  end.

(** What one [select] of [processUpdateQueue] picked. *)
Inductive selected : Type :=
| Receive (t : cnameChange)   (* case t := <-r.updateQueue *)
| Stop                        (* case <-r.stopChannel *)
| Idle.                       (* default *)

(** Whether the buffer has to be flushed before [t] joins it. *)
Definition actionBoundary (ret : list cnameChange) (t : cnameChange) : bool :=
  match ret with
  | [] => false
  | first :: _ =>
      (String.eqb (Action first) route53.ChangeActionDelete
       && negb (String.eqb (Action t) route53.ChangeActionDelete))
      || (negb (String.eqb (Action first) route53.ChangeActionDelete)
          && String.eqb (Action t) route53.ChangeActionDelete)
  end.

(** [processUpdateQueue], run over the outcomes of its successive
    [select]s.  [Some ret] is the buffer of a loop that is still running
    when the outcomes end; [None] says the function has returned. *)
Fixpoint processUpdateQueue_loop `{Env} (selects : list selected) (ret_ : list cnameChange)
    : M (option (list cnameChange)) :=
  match selects with
  | [] => ret (Some ret_)
  | Receive t :: rest =>
      if actionBoundary ret_ t
      then let* _ := applyBatch ret_ in processUpdateQueue_loop rest ([] ++ [t])
      else processUpdateQueue_loop rest (ret_ ++ [t])
  | Stop :: _ =>
      if (0 <? length ret_)%nat then let* _ := applyBatch ret_ in ret None
      else ret None
  | Idle :: rest =>
      if (0 <? length ret_)%nat
      then let* _ := applyBatch ret_ in processUpdateQueue_loop rest []
      else processUpdateQueue_loop rest ret_
  end.

Definition processUpdateQueue `{Env} (selects : list selected)
    : M (option (list cnameChange)) :=
  processUpdateQueue_loop selects [].

(** [handler]: the changes it sends to the update queue, in order.  The
    ingress arguments are pointers; reading through a nil one panics.
    Log lines and the counter of received events, which change nothing
    that is sent, are left out. *)
Definition handler `{Env} (r : registrator) (eventType : string)
    (oldIngress newIngress : option Ingress) : outcome (list cnameChange) :=
  if String.eqb eventType watch.Added then
    match newIngress with
    | None => Panicked
    | Some newIngress =>
        let hostnames := getHostnamesFromIngress newIngress in
        let target := getTargetForIngress r newIngress in
        if String.eqb target "" then Returned []
        else if (length hostnames =? 0)%nat then Returned []
        else Returned (queueUpdates route53.ChangeActionUpsert hostnames target)
    end
  else if String.eqb eventType watch.Modified then
    match newIngress, oldIngress with
    | Some newIngress, Some oldIngress =>
        let newHostnames := getHostnamesFromIngress newIngress in
        let newTarget := getTargetForIngress r newIngress in
        let oldHostnames := getHostnamesFromIngress oldIngress in
        let oldTarget := getTargetForIngress r oldIngress in
        let diffHostnames := diffStringSlices oldHostnames newHostnames in
        if (length diffHostnames =? 0)%nat
           && String.eqb (labelValue (Labels newIngress) (TargetLabelName (options r)))
                         (labelValue (Labels oldIngress) (TargetLabelName (options r)))
        then Returned []
        else
          let upserts :=
            if String.eqb newTarget "" then []
            else if (length newHostnames =? 0)%nat then []
            else queueUpdates route53.ChangeActionUpsert newHostnames newTarget in
          let deletes :=
            if String.eqb oldTarget "" then []
            else if (length diffHostnames =? 0)%nat then []
            else queueUpdates route53.ChangeActionDelete diffHostnames oldTarget in
          Returned (upserts ++ deletes)
    | _, _ => Panicked
    end
  else if String.eqb eventType watch.Deleted then
    match oldIngress with
    | None => Panicked
    | Some oldIngress =>
        let hostnames := getHostnamesFromIngress oldIngress in
        let target := getTargetForIngress r oldIngress in
        if String.eqb target "" then Returned []
        else if (length hostnames =? 0)%nat then Returned []
        else Returned (queueUpdates route53.ChangeActionDelete hostnames target)
    end
  else Returned [].

(** ** A concrete environment

    In the manner of the test suite's [mockDNSZone]: the zone is a map
    from hostname to CNAME target, every nameserver answers from it, and
    the ownership index is a map from hostname to the claiming
    ingresses.  The nameserver called [down:53] cannot be reached, and
    [odd:53] answers with a record that is not a CNAME.  A selector is a
    single [key=value] requirement. *)
Module mock.

Record zoneWorld : Type := mkWorld {
  zoneData : gmap string string;
  index : gmap string (list string)
}.

Definition upsertCnames (records : list cnameRecord) (w : zoneWorld)
    : option error * zoneWorld :=
  (None,
   mkWorld (fold_left (fun m r => <[Hostname r := Target r]> m) records (zoneData w))
           (index w)).

Definition deleteCnames (records : list cnameRecord) (w : zoneWorld)
    : option error * zoneWorld :=
  (None,
   mkWorld (fold_left (fun m r => delete (Hostname r) m) records (zoneData w))
           (index w)).

Definition exchange (name nameserver : string) (w : zoneWorld) : result dns.Msg :=
  if String.eqb nameserver "down:53" then Failed "i/o timeout"
  else if String.eqb nameserver "odd:53" then Ok (dns.mkMsg [dns.OtherRR 46])
  else
    match zoneData w !! strings.Trim name "." with
    | Some target => Ok (dns.mkMsg [dns.CNAME (target ++ ".")])
    | None => Ok (dns.mkMsg [])
    end.

Definition hostnameOwners (hostname : string) (w : zoneWorld) : list string :=
  default [] (index w !! hostname).

(** Split at the first [=]. *)
Fixpoint parse_loop (key s : string) : result (string * string) :=
  match s with
  | EmptyString => Failed "invalid selector"
  | String c rest =>
      if Ascii.eqb c "=" then Ok (key, rest)
      else parse_loop (key ++ String c EmptyString) rest
  end.

Definition parse (s : string) : result (string * string) := parse_loop EmptyString s.

Definition matches (sel : string * string) (labels : gmap string string) : bool :=
  match labels !! fst sel with
  | Some v => String.eqb v (snd sel)
  | None => false
  end.

Definition env (domain : string) (nameservers : list string) (dry : bool) : Env :=
  {| World := zoneWorld;
     UpsertCnames := upsertCnames;
     DeleteCnames := deleteCnames;
     Domain := domain;
     ListNameservers := nameservers;
     Exchange := exchange;
     HostnameOwners := hostnameOwners;
     MatchString := regexp.MatchString;
     Selector := string * string;
     Parse := parse;
     Matches := matches;
     RestConfig := unit;
     InClusterConfig := Ok tt;
     SessionOptions := unit;
     emptySessionOptions := tt;
     dryRun := dry |}.

(** A fresh reconciler state over a world. *)
Definition start (E : Env) (w : @World E) : @state E :=
  mkState w 0 [] [] [] [].

End mock.

(** ** Vocabulary of the properties *)

(** All the records of [records] named [h] point to one target. *)
Definition sameTargets (h : string) (records : list cnameRecord) : Prop :=
  ∀ r1 r2, r1 ∈ records → r2 ∈ records →
           Hostname r1 = h → Hostname r2 = h → Target r1 = Target r2.

(** [r] is the first record of [records] that carries its hostname. *)
Definition firstOfItsName (r : cnameRecord) (records : list cnameRecord) : Prop :=
  ∃ before after, records = before ++ r :: after
                  ∧ Hostname r ∉ List.map Hostname before.

(** The records a conflict removes: those whose hostname is rejected. *)
Definition conflictingRecords (records : list cnameRecord) : list cnameRecord :=
  List.filter
    (fun r => stringInSlice (Hostname r) (snd (uniqueRecords_loop records records 0 [] [])))
    records.

(** What [uniqueRecords]'s outer loop maintains once the prefix [done]
    of [records] has been visited. *)
Record uniqueInv (records done uniq : list cnameRecord) (rej : list string) : Prop :=
  mkUniqueInv {
    inv_sublist : uniq `sublist_of` done;
    inv_rej_nodup : NoDup rej;
    inv_uniq_nodup : NoDup (List.map Hostname uniq);
    inv_cover : ∀ h, h ∈ List.map Hostname done → h ∈ rej ∨ h ∈ List.map Hostname uniq;
    inv_rej : ∀ h, h ∈ rej → h ∈ List.map Hostname done ∧ ¬ sameTargets h records;
    inv_uniq : ∀ r, r ∈ uniq → sameTargets (Hostname r) records ∧ firstOfItsName r records
  }.

(** The state after [n] more rejected updates were counted. *)
Definition rejectedMore `{Env} (n : nat) (st : state) : state :=
  mkState (world st) (metricUpdatesRejected st + n) (metricUpdatesApplied st)
          (queried st) (flushed st) (mutatorCalls st).

(** The state after [n] rejections were counted and the exchanges [qs]
    were made; nothing else moves during prune. *)
Definition touched `{Env} (n : nat) (qs : list (string * string)) (st : state) : state :=
  mkState (world st) (metricUpdatesRejected st + n) (metricUpdatesApplied st)
          (queried st ++ qs) (flushed st) (mutatorCalls st).

(** A reconciler state with nothing counted or traced yet. *)
Definition bare `{Env} (w : World) : state := mkState w 0 [] [] [] [].

(** The state after [name] was asked of each of [nameservers], in order. *)
Definition asked `{Env} (name : string) (nameservers : list string) (st : state) : state :=
  mkState (world st) (metricUpdatesRejected st) (metricUpdatesApplied st)
          (queried st ++ List.map (fun ns => (name, ns)) nameservers)
          (flushed st) (mutatorCalls st).

(** The state on entry of [applyBatch changes]. *)
Definition entered `{Env} (changes : list cnameChange) (st : state) : state :=
  mkState (world st) (metricUpdatesRejected st) (metricUpdatesApplied st)
          (queried st) (flushed st ++ [changes]) (mutatorCalls st).

(** A nameserver's response that makes [resolveCname] go on to the next
    one: the exchange failed, or the answer section is empty. *)
Definition noAnswer (r : result dns.Msg) : Prop :=
  match r with
  | Failed _ => True
  | Ok m => dns.Answer m = []
  end.

(** The error [resolveCname] remembers for such a response. *)
Definition rememberedError (r : result dns.Msg) : error :=
  match r with
  | Failed msg => errLibrary msg
  | Ok _ => errDNSEmptyAnswer
  end.

(** The error held after the servers of [pre] were tried in vain. *)
Definition errorAfter `{Env} (name : string) (pre : list string) (w : World)
    (retError : option error) : option error :=
  match last pre with
  | Some x => Some (rememberedError (Exchange name x w))
  | None => retError
  end.

(** What the live CNAME query for a record's hostname yields in a world:
    the call prune makes, [resolveCname] of the fully-qualified name
    against the zone's nameservers. *)
Definition lookupCname `{Env} (w : World) (hostname : string)
    : outcome (string * option error) :=
  fst (resolveCname (strings.Trim hostname "." ++ ".") ListNameservers (bare w)).

(** [label] has no dot in it. *)
Definition dotFree (label : string) : Prop := strings.inCutset "." label = false.

(** [record] is [<label>.<zone>] for one non-empty, dot-free label. *)
Definition singleLabelUnder (zone record : string) : Prop :=
  ∃ label, label ≠ EmptyString ∧ dotFree label ∧ record = (label ++ "." ++ zone)%string.

(** Every byte of the zone name is a dot or stands for itself in the
    pattern syntax (letters, digits, hyphen, underscore, ...). *)
Fixpoint plainZone (zone : string) : bool :=
  match zone with
  | EmptyString => true
  | String c rest => (Ascii.eqb c "." || regexp.isLiteral c) && plainZone rest
  end.

(** The pattern items that spell out a text byte by byte. *)
Fixpoint literally (text : string) : list (regexp.atom * regexp.quant) :=
  match text with
  | EmptyString => []
  | String c rest => (regexp.Lit c, regexp.One) :: literally rest
  end.

(** The tokens that spell out a text byte by byte. *)
Fixpoint tokensOf (text : string) : list regexp.token :=
  match text with
  | EmptyString => []
  | String c rest => regexp.TAtom (regexp.Lit c) :: tokensOf rest
  end.

(** The DELETE policy in the specification's words: no live ingress
    claims the hostname, and the query succeeded or failed with an error
    other than the empty answer. *)
Definition deletable `{Env} (w : World) (u : cnameRecord) : Prop :=
  HostnameOwners (Hostname u) w = []
  ∧ ∃ t err, lookupCname w (Hostname u) = Returned (t, err)
             ∧ err ≠ Some errDNSEmptyAnswer.

(** The UPSERT policy in the specification's words: the query failed
    (any error), or the resolved target, dots trimmed, is not the
    record's target. *)
Definition outdated `{Env} (w : World) (u : cnameRecord) : Prop :=
  ∃ t err, lookupCname w (Hostname u) = Returned (t, err)
           ∧ (err ≠ None ∨ strings.Trim t "." ≠ Target u).

(** The action-specific policy of the per-record filter. *)
Definition policy `{Env} (action : string) (w : World) (u : cnameRecord) : Prop :=
  (action = route53.ChangeActionDelete ∧ deletable w u)
  ∨ (action = route53.ChangeActionUpsert ∧ outdated w u).

(** A record passes the per-record filter. *)
Definition passesFilter `{Env} (action : string) (w : World) (u : cnameRecord) : Prop :=
  canHandleRecord (Hostname u) = true ∧ policy action w u.

(** No record of the batch that passes the filter carries [u]'s
    hostname with another target. *)
Definition unchallenged `{Env} (action : string) (w : World)
    (records : list cnameRecord) (u : cnameRecord) : Prop :=
  ∀ v, v ∈ records → passesFilter action w v →
       Hostname v = Hostname u → Target v = Target u.

(** The live query of every in-scope record of the batch returns (the
    type assertion in [resolveCname] holds). *)
Definition queriesReturn `{Env} (w : World) (records : list cnameRecord) : Prop :=
  ∀ u, u ∈ records → canHandleRecord (Hostname u) = true →
       ∃ t err, lookupCname w (Hostname u) = Returned (t, err).

(** The records of a batch that fail the scope check. *)
Definition outOfScope `{Env} (records : list cnameRecord) : list cnameRecord :=
  List.filter (fun u => negb (canHandleRecord (Hostname u))) records.

(** The mutator call [applyBatch] makes for a pruned batch, if any. *)
Definition callsFor `{Env} (action : string) (pruned : list cnameRecord)
    : list mutatorCall :=
  if (length pruned =? 0)%nat || dryRun then []
  else if String.eqb action route53.ChangeActionDelete then [CallDeleteCnames pruned]
  else [CallUpsertCnames pruned].

(** The records a mutator call carries. *)
Definition recordsOf (call : mutatorCall) : list cnameRecord :=
  match call with
  | CallUpsertCnames records => records
  | CallDeleteCnames records => records
  end.

(** The two actions the handler enqueues. *)
Definition validAction (c : cnameChange) : Prop :=
  Action c = route53.ChangeActionUpsert ∨ Action c = route53.ChangeActionDelete.

(** All changes of the batch carry one action. *)
Definition homogeneous (b : list cnameChange) : Prop :=
  ∃ a, Forall (fun c => Action c = a) b.

(** The batch is all DELETE or free of DELETE: what the test in
    [processUpdateQueue] tells apart. *)
Definition deleteUniform (b : list cnameChange) : Prop :=
  Forall (fun c => Action c = route53.ChangeActionDelete) b
  ∨ Forall (fun c => Action c ≠ route53.ChangeActionDelete) b.

(** The mutator call was made for batch [b]: it carries records of [b]
    only (in order), and it is a delete call for a DELETE batch, an
    upsert call for a batch without DELETE. *)
Definition callFrom (b : list cnameChange) (call : mutatorCall) : Prop :=
  recordsOf call `sublist_of` List.map Record_ b
  ∧ match call with
    | CallDeleteCnames _ => Forall (fun c => Action c = route53.ChangeActionDelete) b
    | CallUpsertCnames _ => Forall (fun c => Action c ≠ route53.ChangeActionDelete) b
    end.

(** The selector built for [target] exists and matches the labels. *)
Definition selectorMatches `{Env} (targetLabelName : string)
    (labels : gmap string string) (target : string) : bool :=
  match Parse (targetLabelName ++ "=" ++ target) with
  | Ok s => Matches s labels
  | Failed _ => false
  end.

(** [sat] is the pair [newRegistratorWithOptions] builds for [target]. *)
Definition builtFor `{Env} (targetLabelName target : string) (sat : selectorAndTarget)
    : Prop :=
  Parse (targetLabelName ++ "=" ++ target) = Ok (sat_Selector sat)
  ∧ sat_Target sat = target.

(** ** Concrete settings for the examples *)

(** The zone [example.com.] served by [ns1:53], holding one record. *)
Definition exampleEnv : Env := mock.env "example.com." ["ns1:53"] false.

Definition exampleWorld : mock.zoneWorld :=
  mock.mkWorld {[ "foo.example.com" := "private" ]} ∅.

(** The world in which the zone holds no record yet. *)
Definition emptyWorld : mock.zoneWorld := mock.mkWorld ∅ ∅.

Definition exampleState : @state exampleEnv := mock.start exampleEnv exampleWorld.

(** The same zone with an empty nameserver list. *)
Definition noNameserversEnv : Env := mock.env "example.com." [] false.

(** A zone whose name holds a byte with a meaning in pattern syntax. *)
Definition plusZoneEnv : Env := mock.env "a+.com" ["ns1:53"] false.

(** The configuration of the specification's scenarios. *)
Definition exampleOptions : @registratorOptions exampleEnv :=
  @mkOptions exampleEnv None (Some tt) ["public"; "private"] "tier" "Z123" 0%Z.

Definition exampleRegistrator : @registrator exampleEnv :=
  @mkRegistrator exampleEnv
    (@mkOptions exampleEnv (Some tt) (Some tt) ["public"; "private"] "tier" "Z123"
                defaultResyncPeriod)
    [@mkSat exampleEnv ("tier", "public") "public";
     @mkSat exampleEnv ("tier", "private") "private"].

Definition ingressA : Ingress :=
  mkIngress "exampleA" {[ "tier" := "private" ]}
            (mkSpec [mkRule "foo1.example.com"; mkRule "foo2.example.com"]).

(** The same ingress with its rules in another order and one repeated. *)
Definition ingressA' : Ingress :=
  mkIngress "exampleA" {[ "tier" := "private" ]}
            (mkSpec [mkRule "foo2.example.com"; mkRule "foo1.example.com";
                     mkRule "foo2.example.com"]).

(** An ingress whose label names no configured target. *)
Definition ingressNoTarget : Ingress :=
  mkIngress "exampleC" {[ "tier" := "internal" ]} (mkSpec [mkRule "baz.example.com"]).

(** A run of the reconciler loop: an upsert, a delete, idle, stop. *)
Definition exampleSelects : list selected :=
  [Receive (mkChange "UPSERT" (mkRecord "bar.example.com" "public"));
   Receive (mkChange "DELETE" (mkRecord "foo.example.com" "private"));
   Idle; Stop].

(** The zone of the repository's [canHandleRecord] test. *)
Definition testZoneEnv : Env := mock.env "example.com" [] false.

(** Scenario S3: the label of an ingress moves from private to public. *)
Definition ingressFooPrivate : Ingress :=
  mkIngress "A" {[ "tier" := "private" ]} (mkSpec [mkRule "foo.example.com"]).

Definition ingressFooPublic : Ingress :=
  mkIngress "A" {[ "tier" := "public" ]} (mkSpec [mkRule "foo.example.com"]).

(** Scenario S6: a host two labels below the apex. *)
Definition ingressDeep : Ingress :=
  mkIngress "D" {[ "tier" := "private" ]} (mkSpec [mkRule "wrong.sub.example.com"]).

(** The [select] outcomes that hand the reconciler what a handler call
    enqueued, followed by an idle turn. *)
Definition delivered (sent : outcome (list cnameChange)) : list selected :=
  match sent with
  | Returned changes => List.map Receive changes ++ [Idle]
  | Panicked => []
  end.

(** ** Further settings for the examples *)

(** A selector parser that, like the real one, refuses a caret. *)
Definition strictParse (s : string) : result (string * string) :=
  if strings.inCutset "^" s then Failed "invalid selector" else mock.parse s.

(** The example zone seen from outside a cluster, with the strict
    selector parser. *)
Definition outsideClusterEnv : Env :=
  {| World := mock.zoneWorld;
     UpsertCnames := mock.upsertCnames;
     DeleteCnames := mock.deleteCnames;
     Domain := "example.com.";
     ListNameservers := ["ns1:53"];
     Exchange := mock.exchange;
     HostnameOwners := mock.hostnameOwners;
     MatchString := regexp.MatchString;
     Selector := string * string;
     Parse := strictParse;
     Matches := mock.matches;
     RestConfig := unit;
     InClusterConfig := Failed "unable to load in-cluster configuration";
     SessionOptions := unit;
     emptySessionOptions := tt;
     dryRun := false |}.

(** [ingressA] with one more rule. *)
Definition ingressAMore : Ingress :=
  mkIngress "exampleA" {[ "tier" := "private" ]}
            (mkSpec [mkRule "foo1.example.com"; mkRule "foo2.example.com";
                     mkRule "foo3.example.com"]).

(** [ingressA] with its second rule replaced. *)
Definition ingressASwapped : Ingress :=
  mkIngress "exampleA" {[ "tier" := "private" ]}
            (mkSpec [mkRule "foo1.example.com"; mkRule "foo9.example.com"]).

(** The example zone in a dry run. *)
Definition dryRunEnv : Env := mock.env "example.com." ["ns1:53"] true.

(** ** Further vocabulary *)

(** Two records of the batch that carry [h] and name different targets. *)
Definition conflictAt (h : string) (records : list cnameRecord) : Prop :=
  ∃ r1 r2, r1 ∈ records ∧ r2 ∈ records
           ∧ Hostname r1 = h ∧ Hostname r2 = h ∧ Target r1 ≠ Target r2.

(** The number of dots in a name. *)
Fixpoint dots (s : string) : nat :=
  match s with
  | EmptyString => 0
  | String c rest => (if Ascii.eqb c "." then 1 else 0) + dots rest
  end.

(** A CNAME question prune may send for a batch: the fully-qualified
    name of one of its in-scope records, put to one of the zone's
    nameservers. *)
Definition queryFor `{Env} (records : list cnameRecord) (q : string * string) : Prop :=
  snd q ∈ ListNameservers
  ∧ ∃ u, u ∈ records
         ∧ canHandleRecord (Hostname u) = true
         ∧ fst q = (strings.Trim (Hostname u) "." ++ ".")%string.

(** The operation label [applyBatch] counts applied updates under. *)
Definition opLabel (action : string) : string :=
  if String.eqb action route53.ChangeActionDelete then "delete" else "upsert".

(** The zone mutator [applyBatch] picks for an action, and the call as
    the zone sees it. *)
Definition mutatorFor `{Env} (action : string)
    : list cnameRecord -> World -> option error * World :=
  if String.eqb action route53.ChangeActionDelete then DeleteCnames else UpsertCnames.

Definition mutatorCallFor (action : string) (pruned : list cnameRecord) : mutatorCall :=
  if String.eqb action route53.ChangeActionDelete then CallDeleteCnames pruned
  else CallUpsertCnames pruned.

(** The applied-updates entries counted for a pruned batch. *)
Definition appliedFor (action : string) (pruned : list cnameRecord)
    : list (string * string) :=
  List.map (fun p => (Hostname p, opLabel action)) pruned.

(** The state after the mutator was called on a pruned batch: the
    zone is what the mutator left, and the applied updates are counted
    if it reported no error. *)
Definition afterMutator `{Env} (action : string) (pruned : list cnameRecord)
    (st : state) : state :=
  mkState (snd (mutatorFor action pruned (world st)))
          (metricUpdatesRejected st)
          (metricUpdatesApplied st
           ++ match fst (mutatorFor action pruned (world st)) with
              | None => appliedFor action pruned
              | Some _ => []
              end)
          (queried st) (flushed st)
          (mutatorCalls st ++ [mutatorCallFor action pruned]).

(** The changes the reconciler loop takes from the queue before it is
    told to stop. *)
Fixpoint receivedUntilStop (selects : list selected) : list cnameChange :=
  match selects with
  | [] => []
  | Receive t :: rest => t :: receivedUntilStop rest
  | Stop :: _ => []
  | Idle :: rest => receivedUntilStop rest
  end.

(** No listed nameserver ever heads an answer with a record that is
    not a CNAME. *)
Definition answersWellTyped `{Env} : Prop :=
  ∀ name nameserver w rrtype others,
    nameserver ∈ ListNameservers →
    Exchange name nameserver w ≠ Ok (dns.mkMsg (dns.OtherRR rrtype :: others)).

(** The records the handler derives from hostnames and a target. *)
Definition recordsFor (hostnames : list string) (target : string) : list cnameRecord :=
  List.map (fun h => mkRecord h target) hostnames.

(** The batch a buffer is flushed as: none when it is empty. *)
Definition batchOf (changes : list cnameChange) : list (list cnameChange) :=
  match changes with
  | [] => []
  | _ => [changes]
  end.

(** ** Dedup in the specification's words *)

(** The first record of each hostname, in batch order; [seen] holds the
    hostnames already met. *)
Fixpoint firstPerHostname (seen : list string) (records : list cnameRecord)
    : list cnameRecord :=
  match records with
  | [] => []
  | r :: rest =>
      if stringInSlice (Hostname r) seen then firstPerHostname seen rest
      else r :: firstPerHostname (Hostname r :: seen) rest
  end.

(** Every record of the batch that carries [r]'s hostname has [r]'s
    target. *)
Definition targetsAgree (records : list cnameRecord) (r : cnameRecord) : bool :=
  forallb (fun r2 => negb (String.eqb (Hostname r) (Hostname r2))
                     || String.eqb (Target r) (Target r2))
          records.

(** What dedup is to keep: for each hostname whose records all agree,
    its first record, in batch order. *)
Definition survivors (records : list cnameRecord) : list cnameRecord :=
  List.filter (targetsAgree records) (firstPerHostname [] records).

(** The hostnames dedup is to reject: those whose records disagree,
    each once, in the order of their first record. *)
Definition rejectedHostnames (records : list cnameRecord) : list string :=
  List.map Hostname
    (List.filter (fun r => negb (targetsAgree records r)) (firstPerHostname [] records)).

(** ** The earlier registrator

    The first version of [registrator.go]: a public and a private
    target chosen by one selector, and one mutator call per hostname
    made straight from the event handler, with no queue and no prune.
    It shares [getHostnamesFromIngress] and [diffStringSlices] with the
    later version. *)
Module legacy.

(** What this version reaches through interfaces and other packages.
    The zone is the one the handler finds in [r.dnsZone].  The set-up
    calls of [Start] take the number of the [Start] activation that
    makes them, since their outcome may differ from one call to the
    next. *)
Class Env : Type := {
  World : Type;
  (* interface dnsZone *)
  UpsertCname : string -> string -> World -> option error * World;
  DeleteCname : string -> World -> option error * World;
  (* k8s labels: labels.Selector, labels.Nothing, labels.Parse, Selector.Matches *)
  Selector : Type;
  Nothing : Selector;
  Parse : string -> result Selector;
  Matches : Selector -> gmap string string -> bool;
  (* rest.Config, rest.InClusterConfig, session.Options *)
  RestConfig : Type;
  InClusterConfig : result RestConfig;
  SessionOptions : Type;
  emptySessionOptions : SessionOptions;
  (* session.NewSessionWithOptions, newRoute53Zone, kubernetes.NewForConfig *)
  Session : Type;
  Zone : Type;
  Clientset : Type;
  NewSessionWithOptions : nat -> SessionOptions -> result Session;
  newRoute53Zone : nat -> string -> Session -> result Zone;
  NewForConfig : nat -> option RestConfig -> result Clientset
}.

Record registratorOptions `{Env} : Type := mkOptions {
  AWSSessionOptions : option SessionOptions;
  KubernetesConfig : option RestConfig;
  PrivateHostname : string;
  PublicHostname : string;
  PublicResourceSelector : string;
  ResyncPeriod : Z
}.

Record registrator `{Env} : Type := mkRegistrator {
  options : registratorOptions;
  publicSelector : Selector
}.

Arguments mkOptions {_} _ _ _ _ _ _.
Arguments mkRegistrator {_} _ _.

(** A call of a zone mutator, as the zone sees it. *)
Inductive mutatorCall : Type :=
| CallUpsertCname (recordName value : string)
| CallDeleteCname (recordName : string).

(** The zone and the trace of the calls made on it. *)
Record state `{Env} : Type := mkState {
  world : World;
  mutatorCalls : list mutatorCall
}.

Arguments mkState {_} _ _.

Definition M `{Env} (A : Type) : Type := state -> outcome A * state.

Definition ret `{Env} {A : Type} (a : A) : M A := fun st => (Returned a, st).

Definition panic `{Env} {A : Type} : M A := fun st => (Panicked, st).

Definition bind `{Env} {A B : Type} (c : M A) (k : A -> M B) : M B :=
  fun st =>
    match c st with
    | (Returned a, st') => k a st'
    | (Panicked, st') => (Panicked, st')
    end.

(** [r.UpsertCname(h, target)] *)
Definition r_UpsertCname `{Env} (recordName value : string) : M (option error) :=
  fun st =>
    (Returned (fst (UpsertCname recordName value (world st))),
     mkState (snd (UpsertCname recordName value (world st)))
             (mutatorCalls st ++ [CallUpsertCname recordName value])).

(** [r.DeleteCname(h)] *)
Definition r_DeleteCname `{Env} (recordName : string) : M (option error) :=
  fun st =>
    (Returned (fst (DeleteCname recordName (world st))),
     mkState (snd (DeleteCname recordName (world st)))
             (mutatorCalls st ++ [CallDeleteCname recordName])).

Definition newRegistratorWithOptions `{Env} (options : registratorOptions)
    : error + registrator :=
  if String.eqb (PrivateHostname options) "" || String.eqb (PublicHostname options) ""
  then inl errRegistratorMissingOption
  else
    let publicSelector :=
      if String.eqb (PublicResourceSelector options) "" then inr Nothing
      else
        match Parse (PublicResourceSelector options) with
        | Failed msg => inl (errLibrary msg)
        | Ok s => inr s
        end in
    match publicSelector with
    | inl err => inl err
    | inr publicSelector =>
        let aws :=
          match AWSSessionOptions options with
          | None => Some emptySessionOptions
          | o => o
          end in
        let kube :=
          match KubernetesConfig options with
          | None =>
              match InClusterConfig with
              | Failed msg => inl (errLibrary msg)
              | Ok c => inr (Some c)
              end
          | o => inr o
          end in
        match kube with
        | inl err => inl err
        | inr kube =>
            let resync :=
              if (ResyncPeriod options =? 0)%Z then defaultResyncPeriod
              else ResyncPeriod options in
            inr (mkRegistrator
                   (mkOptions aws kube (PrivateHostname options) (PublicHostname options)
                              (PublicResourceSelector options) resync)
                   publicSelector)
        end
    end.

Definition newRegistrator `{Env} (publicHostname privateHostname publicSelector : string)
    : error + registrator :=
  newRegistratorWithOptions
    (mkOptions None None privateHostname publicHostname publicSelector 0%Z).

Definition getTargetForIngress `{Env} (r : registrator) (ingress : Ingress) : string :=
  if Matches (publicSelector r) (Labels ingress) then PublicHostname (options r)
  else PrivateHostname (options r).

(** The handler's loops: one mutator call per hostname; an error is
    logged and the loop goes on. *)
Fixpoint upsertAll `{Env} (hostnames : list string) (target : string) : M unit :=
  match hostnames with
  | [] => ret tt
  | h :: rest => bind (r_UpsertCname h target) (fun _ => upsertAll rest target)
  end.

Fixpoint deleteAll `{Env} (hostnames : list string) : M unit :=
  match hostnames with
  | [] => ret tt
  | h :: rest => bind (r_DeleteCname h) (fun _ => deleteAll rest)
  end.

(** [handler].  The ingress arguments are pointers.  A nil new ingress
    on ADDED or MODIFIED is read through ([ingress.Labels]) before any
    call is made; a nil old ingress is read through ([oldIngress.Name])
    after the upserts of a MODIFIED event and before any delete. *)
Definition handler `{Env} (r : registrator) (eventType : string)
    (oldIngress newIngress : option Ingress) : M unit :=
  if String.eqb eventType watch.Added then
    match newIngress with
    | None => panic
    | Some newIngress =>
        let hostnames := getHostnamesFromIngress newIngress in
        let target := getTargetForIngress r newIngress in
        upsertAll hostnames target
    end
  else if String.eqb eventType watch.Modified then
    match newIngress with
    | None => panic
    | Some newIngress =>
        let newHostnames := getHostnamesFromIngress newIngress in
        let target := getTargetForIngress r newIngress in
        bind (upsertAll newHostnames target)
             (fun _ =>
                match oldIngress with
                | None => panic
                | Some oldIngress =>
                    let oldHostnames := getHostnamesFromIngress oldIngress in
                    let diffHostnames := diffStringSlices oldHostnames newHostnames in
                    deleteAll diffHostnames
                end)
    end
  else if String.eqb eventType watch.Deleted then
    match oldIngress with
    | None => panic
    | Some oldIngress => deleteAll (getHostnamesFromIngress oldIngress)
    end
  else ret tt.

(** [Start]: its last statement is [return r.Start()].  [fuel] bounds
    the number of activations followed, [n] numbers the activation;
    [None] says the call is still running when the fuel is spent.
    [newIngressWatcher] is taken to build its value and return. *)
Fixpoint Start `{Env} (fuel : nat) (r : registrator) (n : nat)
    : option (outcome (option error)) :=
  match fuel with
  | O => None
  | S fuel =>
      match AWSSessionOptions (options r) with
      | None => Some Panicked   (* *r.options.AWSSessionOptions *)
      | Some awsOptions =>
          match NewSessionWithOptions n awsOptions with
          | Failed msg => Some (Returned (Some (errLibrary msg)))
          | Ok sess =>
              match newRoute53Zone n "zoneName" sess with
              | Failed msg => Some (Returned (Some (errLibrary msg)))
              | Ok _ =>
                  match NewForConfig n (KubernetesConfig (options r)) with
                  | Failed msg => Some (Returned (Some (errLibrary msg)))
                  | Ok _ => Start fuel r (S n)
                  end
              end
          end
      end
  end.

(** A concrete environment: the zone is a map from hostname to target,
    a selector is one [key=value] requirement or the selector that
    matches nothing, and every set-up call succeeds. *)
Definition mockEnv : Env :=
  {| World := gmap string string;
     UpsertCname := fun h t w => (None, <[h := t]> w);
     DeleteCname := fun h w => (None, delete h w);
     Selector := option (string * string);
     Nothing := None;
     Parse := fun s => match mock.parse s with
                       | Ok sel => Ok (Some sel)
                       | Failed msg => Failed msg
                       end;
     Matches := fun sel labels => match sel with
                                  | Some sel => mock.matches sel labels
                                  | None => false
                                  end;
     RestConfig := unit;
     InClusterConfig := Ok tt;
     SessionOptions := unit;
     emptySessionOptions := tt;
     Session := unit;
     Zone := unit;
     Clientset := unit;
     NewSessionWithOptions := fun _ _ => Ok tt;
     newRoute53Zone := fun _ _ _ => Ok tt;
     NewForConfig := fun _ _ => Ok tt |}.

End legacy.

(** The calls the earlier handler makes for hostnames. *)
Definition upsertCalls (hostnames : list string) (target : string)
    : list legacy.mutatorCall :=
  List.map (fun h => legacy.CallUpsertCname h target) hostnames.

Definition deleteCalls (hostnames : list string) : list legacy.mutatorCall :=
  List.map legacy.CallDeleteCname hostnames.

(** Every set-up call of the earlier [Start] succeeds, whenever made. *)
Definition setupSucceeds `{legacy.Env} (r : legacy.registrator) : Prop :=
  ∀ n awsOptions,
    ∃ sess zone client,
      legacy.NewSessionWithOptions n awsOptions = Ok sess
      ∧ legacy.newRoute53Zone n "zoneName" sess = Ok zone
      ∧ legacy.NewForConfig n (legacy.KubernetesConfig (legacy.options r)) = Ok client.

(** The earlier registrator of the examples. *)
Definition legacyRegistrator : @legacy.registrator legacy.mockEnv :=
  @legacy.mkRegistrator legacy.mockEnv
    (@legacy.mkOptions legacy.mockEnv (Some tt) (Some tt) "private.example.net"
                       "public.example.net" "tier=public" defaultResyncPeriod)
    (Some ("tier", "public")).

(** The same with no public selector, as its constructor builds it. *)
Definition legacyPrivateOnlyOptions : @legacy.registratorOptions legacy.mockEnv :=
  @legacy.mkOptions legacy.mockEnv None None "private.example.net" "public.example.net"
                    "" 0%Z.

Definition legacyPrivateOnly : @legacy.registrator legacy.mockEnv :=
  @legacy.mkRegistrator legacy.mockEnv
    (@legacy.mkOptions legacy.mockEnv (Some tt) (Some tt) "private.example.net"
                       "public.example.net" "" defaultResyncPeriod)
    None.

(** * Properties *)

(** ** Helper loops *)

Lemma stringInSlice_elem (s : string) (slice : list string) :
  stringInSlice s slice = true ↔ s ∈ slice.
Proof.
  induction slice as [|x rest IH]; simpl.
  - split; [discriminate | intros Hin; inversion Hin].
  - destruct (String.eqb s x) eqn:E.
    + apply String.eqb_eq in E. subst. split; [intros _; left | reflexivity].
    + apply String.eqb_neq in E. rewrite IH. split.
      * intros Hin. now right.
      * intros Hin. inversion Hin; subst; [congruence | assumption].
Qed.

Lemma recordHostnameInSlice_elem (h : string) (records : list cnameRecord) :
  recordHostnameInSlice h records = true ↔ h ∈ List.map Hostname records.
Proof.
  induction records as [|x rest IH]; simpl.
  - split; [discriminate | intros Hin; inversion Hin].
  - destruct (String.eqb h (Hostname x)) eqn:E.
    + apply String.eqb_eq in E. subst. split; [intros _; left | reflexivity].
    + apply String.eqb_neq in E. rewrite IH. split.
      * intros Hin. now right.
      * intros Hin. inversion Hin; subst; [congruence | assumption].
Qed.

Lemma recordTargetsAllMatch_Forall (target : string) (records : list cnameRecord) :
  recordTargetsAllMatch target records = true
  ↔ ∀ r, r ∈ records → Target r = target.
Proof.
  induction records as [|x rest IH]; simpl.
  - split; [intros _ r Hr; inversion Hr | reflexivity].
  - destruct (String.eqb target (Target x)) eqn:E; simpl.
    + apply String.eqb_eq in E. rewrite IH. split.
      * intros Hall r Hr. inversion Hr; subst; auto.
      * intros Hall r Hr. apply Hall. now right.
    + apply String.eqb_neq in E. split; [discriminate |].
      intros Hall. exfalso. apply E. symmetry. apply Hall. left.
Qed.

Lemma duplicatesOf_elem (i : nat) (r1 r2 : cnameRecord) (records : list cnameRecord)
    (j : nat) :
  r2 ∈ duplicatesOf i r1 records j
  ↔ ∃ k, records !! k = Some r2 ∧ j + k ≠ i ∧ Hostname r1 = Hostname r2.
Proof.
  revert j. induction records as [|x rest IH]; intros j; simpl.
  - split; [intros Hin; inversion Hin | intros (k & Hk & _); destruct k; discriminate].
  - assert (Hrest : (∃ k, rest !! k = Some r2 ∧ S j + k ≠ i ∧ Hostname r1 = Hostname r2)
                    ↔ ∃ k, (x :: rest) !! S k = Some r2 ∧ j + S k ≠ i
                           ∧ Hostname r1 = Hostname r2).
    { split; intros (k & Hk & Hne & Hh); exists k; repeat split; auto; lia. }
    destruct (negb (i =? j)%nat && String.eqb (Hostname r1) (Hostname x)) eqn:E.
    + apply andb_true_iff in E as [Hij Hh].
      apply negb_true_iff, Nat.eqb_neq in Hij. apply String.eqb_eq in Hh.
      split.
      * intros Hin. inversion Hin; subst.
        -- exists 0. repeat split; auto. lia.
        -- apply IH in H1. apply Hrest in H1. destruct H1 as (k & ?). now exists (S k).
      * intros (k & Hk & Hne & Hhh). destruct k as [|k].
        -- simpl in Hk. injection Hk as ->. left.
        -- right. apply IH. apply Hrest. now exists k.
    + split.
      * intros Hin. apply IH in Hin. apply Hrest in Hin.
        destruct Hin as (k & ?). now exists (S k).
      * intros (k & Hk & Hne & Hhh). destruct k as [|k].
        -- simpl in Hk. injection Hk as ->. exfalso.
           apply andb_false_iff in E as [E | E].
           ++ apply negb_false_iff, Nat.eqb_eq in E. lia.
           ++ apply String.eqb_neq in E. congruence.
        -- apply IH. apply Hrest. now exists k.
Qed.

(** ** Dedup by hostname ([uniqueRecords]) *)

Lemma hostnames_app (l1 l2 : list cnameRecord) (h : string) :
  h ∈ List.map Hostname (l1 ++ l2)
  ↔ h ∈ List.map Hostname l1 ∨ h ∈ List.map Hostname l2.
Proof. rewrite List.map_app. apply elem_of_app. Qed.

Lemma hostname_of_elem (r : cnameRecord) (l : list cnameRecord) :
  r ∈ l → Hostname r ∈ List.map Hostname l.
Proof.
  intros Hr. apply list_elem_of_In, in_map, list_elem_of_In, Hr.
Qed.

Lemma allMatch_sameTargets (done rest : list cnameRecord) (r1 : cnameRecord) :
  let records := done ++ r1 :: rest in
  recordTargetsAllMatch (Target r1) (duplicatesOf (length done) r1 records 0) = true
  ↔ sameTargets (Hostname r1) records.
Proof.
  intros records. rewrite recordTargetsAllMatch_Forall.
  assert (Hr1 : records !! length done = Some r1).
  { unfold records. rewrite lookup_app_r by lia. now rewrite Nat.sub_diag. }
  split.
  - intros Hall.
    assert (Hone : ∀ r, r ∈ records → Hostname r = Hostname r1 → Target r = Target r1).
    { intros r Hr Hh. apply list_elem_of_lookup in Hr as [k Hk].
      destruct (decide (k = length done)) as [-> | Hne].
      - rewrite Hr1 in Hk. now injection Hk as ->.
      - apply Hall. apply duplicatesOf_elem. exists k. repeat split; auto. }
    intros a b Ha Hb Hha Hhb. rewrite (Hone a), (Hone b); auto.
  - intros Hsame r Hr. apply duplicatesOf_elem in Hr as (k & Hk & _ & Hh).
    apply (Hsame r r1); auto.
    + apply list_elem_of_lookup. now exists k.
    + apply list_elem_of_lookup. now exists (length done).
Qed.

Lemma uniqueInv_nil (records : list cnameRecord) : uniqueInv records [] [] [].
Proof.
  constructor; simpl.
  - reflexivity.
  - apply NoDup_nil_2.
  - apply NoDup_nil_2.
  - intros h Hh. inversion Hh.
  - intros h Hh. inversion Hh.
  - intros r Hr. inversion Hr.
Qed.

Lemma uniqueRecords_loop_inv (records todo done uniq : list cnameRecord)
    (rej : list string) :
  records = done ++ todo →
  uniqueInv records done uniq rej →
  uniqueInv records records
            (fst (uniqueRecords_loop records todo (length done) uniq rej))
            (snd (uniqueRecords_loop records todo (length done) uniq rej)).
Proof.
  revert done uniq rej.
  induction todo as [|r1 rest IH]; intros done uniq rej Hrec Hinv.
  - simpl. rewrite app_nil_r in Hrec. now subst.
  - assert (Hrec' : records = (done ++ [r1]) ++ rest) by now rewrite <- app_assoc.
    assert (Hlen : S (length done) = length (done ++ [r1])).
    { rewrite length_app. simpl. lia. }
    destruct Hinv as [Hsub Hnr Hnu Hcov Hrej Huniq].
    simpl.
    destruct (stringInSlice (Hostname r1) rej
              || recordHostnameInSlice (Hostname r1) uniq) eqn:Eseen.
    + (* the hostname was settled by an earlier record *)
      rewrite Hlen. apply IH; [assumption|].
      constructor; auto.
      * now apply sublist_inserts_r.
      * intros h Hh. apply hostnames_app in Hh as [Hh | Hh]; [auto|].
        simpl in Hh. apply list_elem_of_singleton in Hh. subst h.
        apply orb_true_iff in Eseen as [E | E].
        -- left. now apply stringInSlice_elem.
        -- right. now apply recordHostnameInSlice_elem.
      * intros h Hh. destruct (Hrej h Hh) as [Hd Hns]. split; [|assumption].
        apply hostnames_app. now left.
    + apply orb_false_iff in Eseen as [Enr Enu].
      assert (Hnotrej : Hostname r1 ∉ rej).
      { intros Hin. apply stringInSlice_elem in Hin. congruence. }
      assert (Hnotuniq : Hostname r1 ∉ List.map Hostname uniq).
      { intros Hin. apply recordHostnameInSlice_elem in Hin. congruence. }
      assert (Hfresh : Hostname r1 ∉ List.map Hostname done).
      { intros Hin. destruct (Hcov _ Hin); contradiction. }
      pose proof (allMatch_sameTargets done rest r1) as Hmatch. simpl in Hmatch.
      rewrite <- Hrec in Hmatch.
      destruct (recordTargetsAllMatch (Target r1)
                  (duplicatesOf (length done) r1 records 0)) eqn:Eall.
      * (* all its namesakes agree: keep it *)
        rewrite Hlen. apply IH; [assumption|].
        constructor; auto.
        -- apply sublist_app; [assumption | reflexivity].
        -- rewrite List.map_app. simpl. apply NoDup_app. repeat split; auto.
           ++ intros h Hh Hh1. apply list_elem_of_singleton in Hh1. now subst.
           ++ apply NoDup_singleton.
        -- intros h Hh. apply hostnames_app in Hh as [Hh | Hh].
           ++ destruct (Hcov h Hh); [now left|]. right. apply hostnames_app. now left.
           ++ right. apply hostnames_app. now right.
        -- intros h Hh. destruct (Hrej h Hh) as [Hd Hns]. split; [|assumption].
           apply hostnames_app. now left.
        -- intros r Hr. apply elem_of_app in Hr as [Hr | Hr]; [auto|].
           apply list_elem_of_singleton in Hr. subst r. split.
           ++ now apply Hmatch.
           ++ exists done, rest. split; assumption.
      * (* some namesake disagrees: reject the hostname *)
        rewrite Hlen. apply IH; [assumption|].
        constructor; auto.
        -- now apply sublist_inserts_r.
        -- apply NoDup_app. repeat split; auto.
           ++ intros h Hh Hh1. apply list_elem_of_singleton in Hh1. now subst.
           ++ apply NoDup_singleton.
        -- intros h Hh. apply hostnames_app in Hh as [Hh | Hh].
           ++ destruct (Hcov h Hh); [left; apply elem_of_app; now left | now right].
           ++ simpl in Hh. apply list_elem_of_singleton in Hh. subst h.
              left. apply elem_of_app. right. apply list_elem_of_singleton. reflexivity.
        -- intros h Hh. apply elem_of_app in Hh as [Hh | Hh].
           ++ destruct (Hrej h Hh) as [Hd Hns]. split; [|assumption].
              apply hostnames_app. now left.
           ++ apply list_elem_of_singleton in Hh. subst h. split.
              ** apply hostnames_app. right. simpl. apply list_elem_of_singleton. reflexivity.
              ** intros Hs. apply Hmatch in Hs. congruence.
Qed.

Lemma uniqueRecords_loop_spec (records : list cnameRecord) :
  uniqueInv records records
            (fst (uniqueRecords_loop records records 0 [] []))
            (snd (uniqueRecords_loop records records 0 [] [])).
Proof.
  apply (uniqueRecords_loop_inv records records [] [] []); [reflexivity|].
  apply uniqueInv_nil.
Qed.

Lemma rejectedMore_0 `{Env} (st : state) : rejectedMore 0 st = st.
Proof. destruct st. unfold rejectedMore. simpl. now rewrite Nat.add_0_r. Qed.

Lemma uniqueRecords_run `{Env} (records : list cnameRecord) (st : state) :
  uniqueRecords records st
  = (Returned (fst (uniqueRecords_loop records records 0 [] [])),
     rejectedMore (length (snd (uniqueRecords_loop records records 0 [] []))) st).
Proof.
  unfold uniqueRecords.
  destruct (uniqueRecords_loop records records 0 [] []) as [uniq rej]. simpl.
  destruct rej as [|h rej]; simpl.
  - unfold ret. now rewrite rejectedMore_0.
  - reflexivity.
Qed.

Lemma uniqueInv_survivor_names (records uniq : list cnameRecord) (rej : list string) :
  uniqueInv records records uniq rej →
  ∀ h, h ∈ List.map Hostname uniq
       ↔ h ∈ List.map Hostname records ∧ sameTargets h records.
Proof.
  intros [Hsub Hnr Hnu Hcov Hrej Huniq] h. split.
  - intros Hh. apply list_elem_of_In, in_map_iff in Hh as (r & <- & Hr).
    apply list_elem_of_In in Hr. split.
    + apply hostname_of_elem. eapply elem_of_sublist; eauto.
    + now apply Huniq.
  - intros [Hin Hsame]. destruct (Hcov h Hin) as [Hr | Hu]; [|assumption].
    now destruct (Hrej h Hr).
Qed.

Lemma uniqueInv_rejected_names (records uniq : list cnameRecord) (rej : list string) :
  uniqueInv records records uniq rej →
  ∀ h, h ∈ rej ↔ h ∈ List.map Hostname records ∧ ¬ sameTargets h records.
Proof.
  intros [Hsub Hnr Hnu Hcov Hrej Huniq] h. split.
  - apply Hrej.
  - intros [Hin Hns]. destruct (Hcov h Hin) as [Hr | Hu]; [assumption|].
    apply list_elem_of_In, in_map_iff in Hu as (r & <- & Hr).
    apply list_elem_of_In in Hr. now destruct (Huniq r Hr).
Qed.

(** C1.  The conflict path counts hostnames where the claim, and the
    scope path of the same prune stage, count records.  Take the batch
    of two records for [shared.example.com], one pointing to [public]
    and one to [private], in a zone that holds no record yet.  Dedup
    drops both, as the claim says, and so does prune for an UPSERT
    batch; but [metricUpdatesRejected] grows by one, the number of
    rejected hostnames, not by two, the number of rejected records.
    Two records dropped by the scope check of the same [pruneBatch]
    make the counter grow by two. *)
Theorem C1_conflict_counted_once_per_hostname :
  let records := [mkRecord "shared.example.com" "public";
                  mkRecord "shared.example.com" "private"] in
  let st := mock.start exampleEnv emptyWorld in
  fst (@uniqueRecords exampleEnv records st) = Returned []
  ∧ conflictingRecords records = records
  ∧ metricUpdatesRejected (snd (@uniqueRecords exampleEnv records st))
    = metricUpdatesRejected st + 1
  ∧ metricUpdatesRejected (snd (@uniqueRecords exampleEnv records st))
    ≠ metricUpdatesRejected st + length (conflictingRecords records)
  ∧ fst (@pruneBatch exampleEnv route53.ChangeActionUpsert records st) = Returned []
  ∧ metricUpdatesRejected (snd (@pruneBatch exampleEnv route53.ChangeActionUpsert records st))
    = metricUpdatesRejected st + 1
  ∧ metricUpdatesRejected
      (snd (@pruneBatch exampleEnv route53.ChangeActionUpsert
              [mkRecord "a.sub.example.com" "public";
               mkRecord "b.sub.example.com" "private"] st))
    = metricUpdatesRejected st + 2.
Proof.
  vm_compute. repeat split; discriminate.
Qed.

(** ** The CNAME resolver ([resolveCname]) *)

Lemma asked_nil `{Env} (name : string) (st : state) : asked name [] st = st.
Proof. destruct st. unfold asked. simpl. now rewrite app_nil_r. Qed.

Lemma asked_cons `{Env} (name x : string) (l : list string) (st : state) :
  asked name l (asked name [x] st) = asked name (x :: l) st.
Proof. unfold asked. simpl. now rewrite <- app_assoc. Qed.

Lemma asked_app `{Env} (name : string) (l1 l2 : list string) (st : state) :
  asked name l2 (asked name l1 st) = asked name (l1 ++ l2) st.
Proof. unfold asked. simpl. now rewrite List.map_app, app_assoc. Qed.

Lemma exchange_run `{Env} (name x : string) (st : state) :
  dnsClient_Exchange name x st = (Returned (Exchange name x (world st)), asked name [x] st).
Proof. reflexivity. Qed.

Lemma resolveCname_loop_skip `{Env} (name : string) (pre rest : list string) :
  ∀ (retTarget : string) (retError : option error) (st : state),
    (∀ x, x ∈ pre → noAnswer (Exchange name x (world st))) →
    resolveCname_loop name (pre ++ rest) retTarget retError st
    = resolveCname_loop name rest retTarget (errorAfter name pre (world st) retError)
                        (asked name pre st).
Proof.
  induction pre as [|x pre IH]; intros retTarget retError st Hpre.
  - simpl. unfold errorAfter. simpl. now rewrite asked_nil.
  - assert (Hx : noAnswer (Exchange name x (world st))) by (apply Hpre; left).
    assert (Hrest : ∀ y, y ∈ pre → noAnswer (Exchange name y (world (asked name [x] st)))).
    { intros y Hy. simpl. apply Hpre. now right. }
    assert (Herr : ∀ e, errorAfter name pre (world st) (Some (rememberedError (Exchange name x (world st))))
                        = errorAfter name (x :: pre) (world st) e).
    { intros e. unfold errorAfter. destruct pre as [|y pre']; [reflexivity|].
      rewrite last_cons_cons. destruct (last (y :: pre')) eqn:El; [reflexivity|].
      apply last_None in El. discriminate. }
    simpl. unfold bind at 1. rewrite exchange_run.
    destruct (Exchange name x (world st)) as [m | msg] eqn:Ex.
    + simpl in Hx. rewrite Hx.
      rewrite (IH _ _ _ Hrest). simpl world. rewrite asked_cons.
      now rewrite <- (Herr retError).
    + rewrite (IH _ _ _ Hrest). simpl world. rewrite asked_cons.
      now rewrite <- (Herr retError).
Qed.

Lemma resolveCname_loop_answer `{Env} (name s : string) (post : list string)
    (retTarget : string) (retError : option error) (st : state)
    (target : string) (others : list dns.RR) :
  Exchange name s (world st) = Ok (dns.mkMsg (dns.CNAME target :: others)) →
  resolveCname_loop name (s :: post) retTarget retError st
  = (Returned (target, None), asked name [s] st).
Proof.
  intros Hs. simpl. unfold bind. rewrite exchange_run, Hs. reflexivity.
Qed.

Lemma resolveCname_loop_assertion `{Env} (name s : string) (post : list string)
    (retTarget : string) (retError : option error) (st : state)
    (rrtype : N) (others : list dns.RR) :
  Exchange name s (world st) = Ok (dns.mkMsg (dns.OtherRR rrtype :: others)) →
  resolveCname_loop name (s :: post) retTarget retError st
  = (Panicked, asked name [s] st).
Proof.
  intros Hs. simpl. unfold bind. rewrite exchange_run, Hs. reflexivity.
Qed.

(** C8.  For a non-empty nameserver list, [resolveCname] asks the
    servers in list order.  Servers whose exchange fails or whose answer
    section is empty are passed over, the error of each being remembered
    in turn.  At the first server whose answer section starts with a
    CNAME the function returns that record's target and a nil error,
    having asked exactly the servers up to and including this one (none
    after it).  If every server was passed over it returns the empty
    target with the error remembered for the last server: the exchange's
    own error, or [errDNSEmptyAnswer] for an empty answer section. *)
Theorem C8_resolveCname_in_order `{Env} (name : string) (nameservers : list string)
    (st : state) :
  nameservers ≠ [] →
  (∀ pre s post target others,
      nameservers = pre ++ s :: post →
      (∀ x, x ∈ pre → noAnswer (Exchange name x (world st))) →
      Exchange name s (world st) = Ok (dns.mkMsg (dns.CNAME target :: others)) →
      resolveCname name nameservers st
      = (Returned (target, None), asked name (pre ++ [s]) st))
  ∧ ((∀ x, x ∈ nameservers → noAnswer (Exchange name x (world st))) →
     ∃ lastServer,
       last nameservers = Some lastServer
       ∧ resolveCname name nameservers st
         = (Returned (EmptyString,
                      Some (rememberedError (Exchange name lastServer (world st)))),
            asked name nameservers st)).
Proof.
  intros Hne. split.
  - intros pre s post target others -> Hpre Hs.
    unfold resolveCname. rewrite resolveCname_loop_skip by assumption.
    rewrite (resolveCname_loop_answer name s post _ _ _ target others) by exact Hs.
    now rewrite asked_app.
  - intros Hall.
    destruct (last nameservers) as [lastServer|] eqn:El;
      [|apply last_None in El; contradiction].
    exists lastServer. split; [reflexivity|].
    unfold resolveCname.
    rewrite <- (app_nil_r nameservers) at 1.
    rewrite resolveCname_loop_skip by assumption.
    simpl. unfold ret, errorAfter. now rewrite El.
Qed.

Lemma C8_witness_second_server_answers :
  @resolveCname exampleEnv "foo.example.com." ["down:53"; "ns1:53"; "ns2:53"] exampleState
  = (Returned ("private.", None),
     @asked exampleEnv "foo.example.com." ["down:53"; "ns1:53"] exampleState).
Proof.
  assert (Hne : ["down:53"; "ns1:53"; "ns2:53"] ≠ @nil string) by discriminate.
  destruct (@C8_resolveCname_in_order exampleEnv "foo.example.com."
              ["down:53"; "ns1:53"; "ns2:53"] exampleState Hne) as [Hfirst _].
  apply (Hfirst ["down:53"] "ns1:53" ["ns2:53"] "private." []).
  - reflexivity.
  - intros x Hx. apply list_elem_of_singleton in Hx. subst x. exact I.
  - reflexivity.
Defined.

(** C9.  With an empty nameserver list [resolveCname] asks nobody and
    returns the empty target with a nil error.  Prune then treats the
    name as resolving to the empty string: in a zone without
    nameservers, an in-scope DELETE record with no owner is kept, and an
    in-scope UPSERT record is kept exactly when its target is not the
    empty string. *)
Theorem C9_resolveCname_no_nameservers `{Env} (name : string) (st : state) :
  resolveCname name [] st = (Returned (EmptyString, None), st)
  ∧ (ListNameservers = [] →
     ∀ u pruned,
       canHandleRecord (Hostname u) = true →
       (HostnameOwners (Hostname u) (world st) = [] →
        pruneRecord route53.ChangeActionDelete u pruned st
        = (Returned (pruned ++ [u]), st))
       ∧ pruneRecord route53.ChangeActionUpsert u pruned st
         = (Returned (if String.eqb EmptyString (Target u) then pruned
                      else pruned ++ [u]), st)).
Proof.
  split; [reflexivity|].
  intros Hns u pruned Hscope. unfold pruneRecord. rewrite Hscope, Hns. simpl.
  split.
  - intros Hown. unfold bind, r_HostnameOwners. simpl. rewrite Hown. reflexivity.
  - unfold bind. simpl. now destruct (Target u).
Qed.

Lemma C9_witness_zone_without_nameservers :
  @pruneRecord noNameserversEnv route53.ChangeActionUpsert
     (mkRecord "foo.example.com" "private") []
     (mock.start noNameserversEnv exampleWorld)
  = (Returned [mkRecord "foo.example.com" "private"],
     mock.start noNameserversEnv exampleWorld).
Proof.
  destruct (@C9_resolveCname_no_nameservers noNameserversEnv "foo.example.com."
              (mock.start noNameserversEnv exampleWorld)) as [_ Hprune].
  destruct (Hprune eq_refl (mkRecord "foo.example.com" "private") [] eq_refl)
    as [_ Hupsert].
  exact Hupsert.
Defined.

(** C10.  The type assertion on the first answer record is unchecked:
    when the first server that answers at all sends an answer section
    whose first record is not a CNAME, [resolveCname] panics; it does
    not return an error. *)
Theorem C10_resolveCname_panics `{Env} (name : string) (pre : list string) (s : string)
    (post : list string) (st : state) (rrtype : N) (others : list dns.RR) :
  (∀ x, x ∈ pre → noAnswer (Exchange name x (world st))) →
  Exchange name s (world st) = Ok (dns.mkMsg (dns.OtherRR rrtype :: others)) →
  resolveCname name (pre ++ s :: post) st = (Panicked, asked name (pre ++ [s]) st).
Proof.
  intros Hpre Hs. unfold resolveCname.
  rewrite resolveCname_loop_skip by assumption.
  rewrite (resolveCname_loop_assertion name s post _ _ _ rrtype others) by exact Hs.
  now rewrite asked_app.
Qed.

Lemma C10_witness_first_answer_not_cname :
  @resolveCname exampleEnv "foo.example.com." (["down:53"] ++ "odd:53" :: ["ns1:53"])
     exampleState
  = (Panicked, @asked exampleEnv "foo.example.com." (["down:53"] ++ ["odd:53"]) exampleState).
Proof.
  apply (@C10_resolveCname_panics exampleEnv "foo.example.com." ["down:53"] "odd:53"
           ["ns1:53"] exampleState 46%N []).
  - intros x Hx. apply list_elem_of_singleton in Hx. subst x. exact I.
  - reflexivity.
Defined.

(** ** The prune stage ([pruneBatch]) *)

Lemma touched_0_nil `{Env} (st : state) : touched 0 [] st = st.
Proof. destruct st. unfold touched. simpl. now rewrite Nat.add_0_r, app_nil_r. Qed.

Lemma touched_touched `{Env} (n m : nat) (qs qs' : list (string * string)) (st : state) :
  touched m qs' (touched n qs st) = touched (n + m) (qs ++ qs') st.
Proof. unfold touched. simpl. now rewrite Nat.add_assoc, app_assoc. Qed.

Lemma asked_touched `{Env} (name : string) (l : list string) (st : state) :
  asked name l st = touched 0 (List.map (fun ns => (name, ns)) l) st.
Proof. unfold asked, touched. now rewrite Nat.add_0_r. Qed.

Lemma rejectedMore_touched `{Env} (n : nat) (st : state) :
  rejectedMore n st = touched n [] st.
Proof. unfold rejectedMore, touched. now rewrite app_nil_r. Qed.

(** The outcome of [resolveCname] is a function of the world, and all
    it leaves behind are the exchanges it made. *)
Lemma resolveCname_loop_frame `{Env} (name : string) (nameservers : list string) :
  ∀ (retTarget : string) (retError : option error) (st : state),
    ∃ qs, resolveCname_loop name nameservers retTarget retError st
          = (fst (resolveCname_loop name nameservers retTarget retError (bare (world st))),
             touched 0 qs st).
Proof.
  induction nameservers as [|x rest IH]; intros retTarget retError st.
  - exists []. simpl. unfold ret. simpl. now rewrite touched_0_nil.
  - simpl. unfold bind. rewrite !exchange_run.
    change (world (bare (world st))) with (world st).
    destruct (Exchange name x (world st)) as [m | msg].
    + destruct (dns.Answer m) as [|[target | rrtype] others].
      * destruct (IH retTarget (Some errDNSEmptyAnswer) (asked name [x] st)) as [qs Hqs].
        destruct (IH retTarget (Some errDNSEmptyAnswer) (asked name [x] (bare (world st))))
          as [qs' Hqs'].
        simpl world in *. rewrite Hqs, Hqs'. simpl fst.
        exists ([(name, x)] ++ qs). now rewrite asked_touched, touched_touched.
      * exists [(name, x)]. unfold ret. simpl fst. now rewrite asked_touched.
      * exists [(name, x)]. unfold panic. simpl fst. now rewrite asked_touched.
    + destruct (IH retTarget (Some (errLibrary msg)) (asked name [x] st)) as [qs Hqs].
      destruct (IH retTarget (Some (errLibrary msg)) (asked name [x] (bare (world st))))
        as [qs' Hqs'].
      simpl world in *. rewrite Hqs, Hqs'. simpl fst.
      exists ([(name, x)] ++ qs). now rewrite asked_touched, touched_touched.
Qed.

Lemma resolveCname_lookup `{Env} (hostname : string) (st : state) :
  ∃ qs, resolveCname (strings.Trim hostname "." ++ ".") ListNameservers st
        = (lookupCname (world st) hostname, touched 0 qs st).
Proof. apply resolveCname_loop_frame. Qed.

Lemma error_eqb_empty (e : error) :
  error_eqb e errDNSEmptyAnswer = true ↔ e = errDNSEmptyAnswer.
Proof. destruct e; simpl; split; congruence. Qed.

Lemma actions_differ : route53.ChangeActionDelete ≠ route53.ChangeActionUpsert.
Proof. discriminate. Qed.

(** The loop body of [pruneBatch], case by case. *)
Lemma pruneRecord_cases `{Env} (action : string) (u : cnameRecord)
    (pruned : list cnameRecord) (st : state) :
  (canHandleRecord (Hostname u) = false
   ∧ pruneRecord action u pruned st = (Returned pruned, touched 1 [] st))
  ∨ (canHandleRecord (Hostname u) = true
     ∧ lookupCname (world st) (Hostname u) = Panicked
     ∧ ∃ qs, pruneRecord action u pruned st = (Panicked, touched 0 qs st))
  ∨ (canHandleRecord (Hostname u) = true
     ∧ (∃ t err, lookupCname (world st) (Hostname u) = Returned (t, err))
     ∧ ∃ qs kept,
         pruneRecord action u pruned st = (Returned (pruned ++ kept), touched 0 qs st)
         ∧ ((kept = [u] ∧ policy action (world st) u)
            ∨ (kept = [] ∧ ¬ policy action (world st) u))).
Proof.
  remember (pruneRecord action u pruned st) as run eqn:Hrun.
  unfold pruneRecord in Hrun.
  destruct (canHandleRecord (Hostname u)) eqn:Escope; cbn [negb] in Hrun.
  2:{ left. split; [reflexivity|]. subst run.
      unfold bind, metricUpdatesRejected_Add, ret, touched.
      simpl. now rewrite app_nil_r. }
  right.
  destruct (resolveCname_lookup (Hostname u) st) as [qs Hqs].
  unfold bind at 1 in Hrun. rewrite Hqs in Hrun.
  destruct (lookupCname (world st) (Hostname u)) as [[t err]|] eqn:Elook.
  2:{ left. repeat split. now exists qs. }
  right. split; [reflexivity|]. split; [now exists t, err|].
  exists qs. subst run. change (world (touched 0 qs st)) with (world st).
  assert (Hnil : ∀ l : list cnameRecord, l = l ++ []) by (intros; now rewrite app_nil_r).
  destruct (String.eqb action route53.ChangeActionDelete) eqn:Edel.
  - apply String.eqb_eq in Edel. subst action.
    unfold bind, r_HostnameOwners. change (world (touched 0 qs st)) with (world st).
    destruct (HostnameOwners (Hostname u) (world st)) as [|o os] eqn:Eown; simpl.
    + destruct err as [e|].
      * destruct (error_eqb e errDNSEmptyAnswer) eqn:Ee; simpl.
        -- apply error_eqb_empty in Ee. subst e.
           exists []. split; [unfold ret; now rewrite <- Hnil|]. right. split; [reflexivity|].
           intros [[_ (_ & t' & err' & Hl & Hne)] | [Habs _]];
             [|now apply actions_differ in Habs].
           rewrite Elook in Hl. injection Hl as <- <-. now apply Hne.
        -- exists [u]. split; [reflexivity|]. left. split; [reflexivity|].
           left. split; [reflexivity|]. split; [assumption|].
           exists t, (Some e). split; [assumption|].
           intros Heq. injection Heq as ->. simpl in Ee. discriminate.
      * exists [u]. split; [reflexivity|]. left. split; [reflexivity|].
        left. split; [reflexivity|]. split; [assumption|].
        exists t, None. split; [assumption | discriminate].
    + exists []. split; [unfold ret; now rewrite <- Hnil|]. right. split; [reflexivity|].
      intros [[_ (Hown & _)] | [Habs _]]; [|now apply actions_differ in Habs].
      rewrite Eown in Hown. discriminate.
  - apply String.eqb_neq in Edel.
    destruct (String.eqb action route53.ChangeActionUpsert) eqn:Eup.
    + apply String.eqb_eq in Eup. subst action.
      destruct err as [e|].
      * exists [u]. split; [reflexivity|]. left. split; [reflexivity|].
        right. split; [reflexivity|]. exists t, (Some e). split; [assumption|].
        left. discriminate.
      * destruct (String.eqb (strings.Trim t ".") (Target u)) eqn:Et; simpl.
        -- apply String.eqb_eq in Et.
           exists []. split; [unfold ret; now rewrite <- Hnil|]. right. split; [reflexivity|].
           intros [[Habs _] | [_ (t' & err' & Hl & Hne)]];
             [now symmetry in Habs; apply actions_differ in Habs|].
           rewrite Elook in Hl. injection Hl as <- <-.
           destruct Hne as [Hne | Hne]; now apply Hne.
        -- apply String.eqb_neq in Et.
           exists [u]. split; [reflexivity|]. left. split; [reflexivity|].
           right. split; [reflexivity|]. exists t, None. split; [assumption|].
           now right.
    + apply String.eqb_neq in Eup.
      exists []. split; [unfold ret; now rewrite <- Hnil|]. right. split; [reflexivity|].
      intros [[Habs _] | [Habs _]]; contradiction.
Qed.

Lemma outOfScope_cons `{Env} (u : cnameRecord) (rest : list cnameRecord) :
  outOfScope (u :: rest)
  = if canHandleRecord (Hostname u) then outOfScope rest else u :: outOfScope rest.
Proof. unfold outOfScope. simpl. now destruct (canHandleRecord (Hostname u)). Qed.

(** The per-record loop: what it returns when every live query returns. *)
Lemma pruneBatch_loop_returns `{Env} (action : string) (records : list cnameRecord) :
  ∀ (pruned : list cnameRecord) (st : state),
    queriesReturn (world st) records →
    ∃ kept qs,
      pruneBatch_loop action records pruned st
      = (Returned (pruned ++ kept), touched (length (outOfScope records)) qs st)
      ∧ kept `sublist_of` records
      ∧ (∀ u, u ∈ kept ↔ u ∈ records ∧ passesFilter action (world st) u).
Proof.
  induction records as [|u rest IH]; intros pruned st Hq.
  - exists [], []. simpl. unfold ret. rewrite touched_0_nil, app_nil_r.
    split; [reflexivity|]. split; [reflexivity|].
    intros u. split; [intros Hu; inversion Hu | intros [Hu _]; inversion Hu].
  - assert (Hq' : ∀ st', world st' = world st → queriesReturn (world st') rest).
    { intros st' Hw v Hv. rewrite Hw. apply Hq. now right. }
    rewrite outOfScope_cons. simpl pruneBatch_loop. unfold bind at 1.
    destruct (pruneRecord_cases action u pruned st)
      as [[Hscope Hrun] | [(Hscope & Hpanic & _) | (Hscope & _ & qs & kept & Hrun & Hkept)]].
    + rewrite Hrun, Hscope.
      destruct (IH pruned (touched 1 [] st) (Hq' _ eq_refl)) as (kept & qs & Hloop & Hsub & Hin).
      exists kept, qs. rewrite Hloop, touched_touched. simpl.
      split; [reflexivity|]. split; [now apply sublist_cons|].
      intros v. rewrite Hin. split.
      * intros [Hv Hp]. split; [now right | assumption].
      * intros [Hv Hp]. inversion Hv; subst; [destruct Hp as [Hs _]; congruence|].
        now split.
    + destruct (Hq u) as (t & err & Hlook); [left | assumption | congruence].
    + rewrite Hrun, Hscope.
      destruct (IH (pruned ++ kept) (touched 0 qs st) (Hq' _ eq_refl))
        as (kept' & qs' & Hloop & Hsub & Hin).
      exists (kept ++ kept'), (qs ++ qs').
      rewrite Hloop, touched_touched, <- app_assoc. simpl. split; [reflexivity|].
      destruct Hkept as [[-> Hp] | [-> Hp]]; simpl.
      * split; [now apply sublist_skip|].
        intros v. split.
        -- intros Hv. inversion Hv; subst.
           ++ split; [left | split; assumption].
           ++ apply Hin in H2 as [Hv' Hpass]. split; [now right | assumption].
        -- intros [Hv Hpass]. inversion Hv; subst; [left|].
           right. apply Hin. now split.
      * split; [now apply sublist_cons|].
        intros v. rewrite Hin. split.
        -- intros [Hv Hpass]. split; [now right | assumption].
        -- intros [Hv Hpass]. inversion Hv; subst; [|now split].
           destruct Hpass as [_ Hpol]. contradiction.
Qed.

(** If the per-record loop returns, every live query it made returned. *)
Lemma pruneBatch_loop_queries `{Env} (action : string) (records : list cnameRecord) :
  ∀ (pruned out : list cnameRecord) (st st' : state),
    pruneBatch_loop action records pruned st = (Returned out, st') →
    queriesReturn (world st) records.
Proof.
  induction records as [|u rest IH]; intros pruned out st st' Hrun v Hv Hs.
  - inversion Hv.
  - simpl in Hrun. unfold bind at 1 in Hrun.
    destruct (pruneRecord_cases action u pruned st)
      as [[Hscope Hu] | [(Hscope & Hpanic & qs & Hu) | (Hscope & Hret & qs & kept & Hu & _)]];
      rewrite Hu in Hrun; try discriminate.
    + inversion Hv; subst; [congruence|].
      apply (IH _ _ _ _ Hrun); assumption.
    + inversion Hv; subst; [assumption|].
      apply (IH _ _ _ _ Hrun); assumption.
Qed.

Lemma record_eq (a b : cnameRecord) :
  Hostname a = Hostname b → Target a = Target b → a = b.
Proof. destruct a, b. simpl. congruence. Qed.

(** The whole prune stage when every live query returns: the per-record
    filter, then the dedup of what it kept. *)
Lemma pruneBatch_returns `{Env} (action : string) (records : list cnameRecord)
    (st : state) :
  queriesReturn (world st) records →
  ∃ (pruned : list cnameRecord) (rej : list string) qs,
    pruneBatch action records st
    = (Returned pruned, touched (length (outOfScope records) + length rej) qs st)
    ∧ pruned `sublist_of` records
    ∧ NoDup (List.map Hostname pruned)
    ∧ (∀ u, u ∈ pruned ↔ u ∈ records ∧ passesFilter action (world st) u
                          ∧ unchallenged action (world st) records u).
Proof.
  intros Hq. unfold pruneBatch, bind.
  destruct (pruneBatch_loop_returns action records [] st Hq)
    as (kept & qs & Hloop & Hsub & Hkept).
  rewrite Hloop. simpl app.
  pose proof (uniqueRecords_loop_spec kept) as Hinv.
  pose proof (uniqueInv_survivor_names _ _ _ Hinv) as Hnames.
  destruct Hinv as [Husub _ Hnd _ _ _].
  rewrite uniqueRecords_run.
  destruct (uniqueRecords_loop kept kept 0 [] []) as [uniq rej]. simpl in *.
  exists uniq, rej, qs. rewrite rejectedMore_touched, touched_touched, app_nil_r.
  split; [reflexivity|]. split; [now transitivity kept|]. split; [assumption|].
  intros u. split.
  - intros Hin.
    assert (Hk : u ∈ kept) by (eapply elem_of_sublist; eauto).
    destruct (proj1 (Hkept u) Hk) as [Hrec Hpass].
    destruct (proj1 (Hnames (Hostname u)) (hostname_of_elem u uniq Hin)) as [_ Hsame].
    split; [assumption|]. split; [assumption|].
    intros v Hv Hvp Hh. apply (Hsame v u); auto. apply Hkept. now split.
  - intros (Hrec & Hpass & Hunch).
    assert (Hk : u ∈ kept) by (apply Hkept; now split).
    assert (Hsame : sameTargets (Hostname u) kept).
    { intros a b Ha Hb Hha Hhb.
      apply Hkept in Ha as [Ha Hap]. apply Hkept in Hb as [Hb Hbp].
      rewrite (Hunch a), (Hunch b); auto. }
    pose proof (proj2 (Hnames (Hostname u)) (conj (hostname_of_elem u kept Hk) Hsame)) as Hin.
    apply list_elem_of_In, in_map_iff in Hin as (r & Hh & Hr).
    apply list_elem_of_In in Hr.
    assert (r = u) as <-; [|assumption].
    apply record_eq; [assumption|].
    apply (Hsame r u); auto. eapply elem_of_sublist; eauto.
Qed.

Lemma policy_delete `{Env} (w : World) (u : cnameRecord) :
  policy route53.ChangeActionDelete w u ↔ deletable w u.
Proof.
  unfold policy. split.
  - intros [[_ Hd] | [Habs _]]; [assumption | discriminate].
  - intros Hd. left. now split.
Qed.

Lemma policy_upsert `{Env} (w : World) (u : cnameRecord) :
  policy route53.ChangeActionUpsert w u ↔ outdated w u.
Proof.
  unfold policy. split.
  - intros [[Habs _] | [_ Ho]]; [discriminate | assumption].
  - intros Ho. right. now split.
Qed.

(** ** Applying a batch ([applyBatch]) *)

Lemma appliedAll_frame `{Env} (pruned : list cnameRecord) (op : string) :
  ∀ st, ∃ st',
    appliedAll pruned op st = (Returned tt, st')
    ∧ world st' = world st
    ∧ metricUpdatesRejected st' = metricUpdatesRejected st
    ∧ flushed st' = flushed st
    ∧ mutatorCalls st' = mutatorCalls st.
Proof.
  induction pruned as [|p rest IH]; intros st.
  - exists st. repeat split.
  - simpl. unfold bind at 1. unfold metricUpdatesApplied_Inc.
    match goal with
    | |- context [appliedAll rest op ?s] => destruct (IH s) as (st' & Hrun & Hw & Hm & Hf & Hc)
    end.
    exists st'. rewrite Hrun. repeat split; assumption.
Qed.

(** What [applyBatch] does with the outcome of the prune stage. *)
Lemma applyBatch_calls `{Env} (first : cnameChange) (rest : list cnameChange)
    (st st1 : state) (pruned : list cnameRecord) :
  pruneBatch (Action first) (List.map Record_ (first :: rest)) (entered (first :: rest) st)
  = (Returned pruned, st1) →
  fst (applyBatch (first :: rest) st) = Returned tt
  ∧ flushed (snd (applyBatch (first :: rest) st)) = flushed st1
  ∧ mutatorCalls (snd (applyBatch (first :: rest) st))
    = mutatorCalls st1 ++ callsFor (Action first) pruned.
Proof.
  intros Hprune.
  remember (applyBatch (first :: rest) st) as run eqn:Hrun.
  unfold applyBatch in Hrun. unfold bind at 1 in Hrun.
  change (enter_applyBatch (first :: rest) st)
    with (Returned tt, entered (first :: rest) st) in Hrun.
  cbv iota in Hrun. unfold bind at 1 in Hrun. rewrite Hprune in Hrun.
  unfold callsFor.
  destruct (length pruned =? 0)%nat.
  { subst run. simpl. now rewrite app_nil_r. }
  destruct dryRun; simpl orb; cbn [negb] in Hrun.
  { subst run. destruct (String.eqb (Action first) route53.ChangeActionDelete);
      simpl; now rewrite app_nil_r. }
  destruct (String.eqb (Action first) route53.ChangeActionDelete).
  - unfold bind, r_DeleteCnames in Hrun.
    destruct (DeleteCnames pruned (world st1)) as [err w].
    destruct err as [e|]; [subst run; simpl; auto|].
    match type of Hrun with
    | context [appliedAll pruned ?op ?s] =>
        destruct (appliedAll_frame pruned op s) as (st' & Happ & _ & _ & Hf & Hc)
    end.
    rewrite Happ in Hrun. subst run. simpl. rewrite Hf, Hc. auto.
  - unfold bind, r_UpsertCnames in Hrun.
    destruct (UpsertCnames pruned (world st1)) as [err w].
    destruct err as [e|]; [subst run; simpl; auto|].
    match type of Hrun with
    | context [appliedAll pruned ?op ?s] =>
        destruct (appliedAll_frame pruned op s) as (st' & Happ & _ & _ & Hf & Hc)
    end.
    rewrite Happ in Hrun. subst run. simpl. rewrite Hf, Hc. auto.
Qed.

(** C2, as the code has it.  Take a DELETE batch whose live queries all
    return.  [applyBatch] returns, and the only mutator call it can
    make is [DeleteCnames] on the pruned batch (none when that batch is
    empty or in a dry run).  A record is in the pruned batch exactly
    when it is a record of the batch that passes the scope check, no
    live ingress claims its hostname, its live query succeeded or failed
    with an error other than the empty answer, and no record of the
    batch passing these same checks carries its hostname with another
    target.  In particular a record whose hostname is still claimed, or
    whose query gave the empty answer, is never passed on. *)
Theorem C2_prune_delete_batch `{Env} (first : cnameChange) (rest : list cnameChange)
    (st : state) :
  let changes := first :: rest in
  let records := List.map Record_ changes in
  Action first = route53.ChangeActionDelete →
  queriesReturn (world st) records →
  ∃ pruned,
    fst (pruneBatch route53.ChangeActionDelete records (entered changes st))
    = Returned pruned
    ∧ fst (applyBatch changes st) = Returned tt
    ∧ mutatorCalls (snd (applyBatch changes st))
      = mutatorCalls st
        ++ (if (length pruned =? 0)%nat || dryRun then [] else [CallDeleteCnames pruned])
    ∧ (∀ u, u ∈ pruned
            ↔ u ∈ records
              ∧ canHandleRecord (Hostname u) = true
              ∧ deletable (world st) u
              ∧ unchallenged route53.ChangeActionDelete (world st) records u)
    ∧ (∀ u, u ∈ pruned →
            HostnameOwners (Hostname u) (world st) = []
            ∧ ∀ t, lookupCname (world st) (Hostname u)
                   ≠ Returned (t, Some errDNSEmptyAnswer)).
Proof.
  intros changes records Hdel Hq.
  destruct (pruneBatch_returns route53.ChangeActionDelete records (entered changes st) Hq)
    as (pruned & rej & qs & Hprune & _ & _ & Hin).
  change (world (entered changes st)) with (world st) in Hin.
  assert (Hchar : ∀ u, u ∈ pruned
            ↔ u ∈ records ∧ canHandleRecord (Hostname u) = true
              ∧ deletable (world st) u
              ∧ unchallenged route53.ChangeActionDelete (world st) records u).
  { intros u. rewrite Hin. unfold passesFilter. rewrite policy_delete. tauto. }
  exists pruned. rewrite Hprune. split; [reflexivity|].
  pose proof (applyBatch_calls first rest st
                (touched (length (outOfScope records) + length rej) qs (entered changes st))
                pruned) as Happly.
  rewrite Hdel in Happly. specialize (Happly Hprune).
  destruct Happly as (Hret & _ & Hcalls).
  split; [assumption|]. split.
  - fold changes in Hcalls. rewrite Hcalls. unfold callsFor. simpl mutatorCalls.
    now destruct ((length pruned =? 0)%nat || dryRun).
  - split; [assumption|].
    intros u Hu. apply Hchar in Hu as (_ & _ & (Hown & t & err & Hl & Hne) & _).
    split; [assumption|].
    intros t' Habs. rewrite Hl in Habs. injection Habs as -> ->. now apply Hne.
Qed.

Lemma C2_witness_unclaimed_record_deleted :
  ∃ pruned,
    fst (@pruneBatch exampleEnv route53.ChangeActionDelete
           [mkRecord "foo.example.com" "private"]
           (@entered exampleEnv [mkChange "DELETE" (mkRecord "foo.example.com" "private")]
                     exampleState))
    = Returned pruned
    ∧ mkRecord "foo.example.com" "private" ∈ pruned.
Proof.
  destruct (@C2_prune_delete_batch exampleEnv
              (mkChange "DELETE" (mkRecord "foo.example.com" "private")) [] exampleState)
    as (pruned & Hprune & _ & _ & Hchar & _).
  - reflexivity.
  - intros u Hu _. apply list_elem_of_singleton in Hu. subst u.
    exists "private.", None. reflexivity.
  - exists pruned. split; [exact Hprune|].
    apply Hchar. split; [left|]. split; [reflexivity|]. split.
    + split; [reflexivity|]. exists "private.", None. split; [reflexivity | discriminate].
    + intros v Hv _ _. apply list_elem_of_singleton in Hv. now subst v.
Defined.

(** C2 as stated fails: two DELETE records for one hostname, both
    unclaimed and both resolving, name different targets; each meets the
    stated condition, yet dedup drops both and the mutator is not
    called. *)
Lemma C2_counter_conflicting_deletes :
  let u := mkRecord "foo.example.com" "private" in
  let changes := [mkChange "DELETE" u;
                  mkChange "DELETE" (mkRecord "foo.example.com" "public")] in
  u ∈ List.map Record_ changes
  ∧ @HostnameOwners exampleEnv (Hostname u) exampleWorld = []
  ∧ @lookupCname exampleEnv exampleWorld (Hostname u) = Returned ("private.", None)
  ∧ fst (@pruneBatch exampleEnv "DELETE" (List.map Record_ changes)
           (@entered exampleEnv changes exampleState)) = Returned []
  ∧ mutatorCalls (snd (@applyBatch exampleEnv changes exampleState)) = [].
Proof.
  split; [left|]. vm_compute. repeat split.
Qed.

(** C3, as the code has it.  Take an UPSERT batch whose live queries
    all return.  [applyBatch] returns, and the only mutator call it can
    make is [UpsertCnames] on the pruned batch (none when that batch is
    empty or in a dry run).  A record is in the pruned batch exactly
    when it is a record of the batch that passes the scope check, its
    live query failed (with any error) or resolved to a target that,
    with its leading and trailing dots trimmed, differs from the
    record's target, and no record of the batch passing these same
    checks carries its hostname with another target.  A record whose
    query succeeded with a target equal (once trimmed) to its own is
    never passed on. *)
Theorem C3_prune_upsert_batch `{Env} (first : cnameChange) (rest : list cnameChange)
    (st : state) :
  let changes := first :: rest in
  let records := List.map Record_ changes in
  Action first = route53.ChangeActionUpsert →
  queriesReturn (world st) records →
  ∃ pruned,
    fst (pruneBatch route53.ChangeActionUpsert records (entered changes st))
    = Returned pruned
    ∧ fst (applyBatch changes st) = Returned tt
    ∧ mutatorCalls (snd (applyBatch changes st))
      = mutatorCalls st
        ++ (if (length pruned =? 0)%nat || dryRun then [] else [CallUpsertCnames pruned])
    ∧ (∀ u, u ∈ pruned
            ↔ u ∈ records
              ∧ canHandleRecord (Hostname u) = true
              ∧ outdated (world st) u
              ∧ unchallenged route53.ChangeActionUpsert (world st) records u)
    ∧ (∀ u t, lookupCname (world st) (Hostname u) = Returned (t, None) →
              strings.Trim t "." = Target u → u ∉ pruned).
Proof.
  intros changes records Hup Hq.
  destruct (pruneBatch_returns route53.ChangeActionUpsert records (entered changes st) Hq)
    as (pruned & rej & qs & Hprune & _ & _ & Hin).
  change (world (entered changes st)) with (world st) in Hin.
  assert (Hchar : ∀ u, u ∈ pruned
            ↔ u ∈ records ∧ canHandleRecord (Hostname u) = true
              ∧ outdated (world st) u
              ∧ unchallenged route53.ChangeActionUpsert (world st) records u).
  { intros u. rewrite Hin. unfold passesFilter. rewrite policy_upsert. tauto. }
  exists pruned. rewrite Hprune. split; [reflexivity|].
  pose proof (applyBatch_calls first rest st
                (touched (length (outOfScope records) + length rej) qs (entered changes st))
                pruned) as Happly.
  rewrite Hup in Happly. specialize (Happly Hprune).
  destruct Happly as (Hret & _ & Hcalls).
  split; [assumption|]. split.
  - fold changes in Hcalls. rewrite Hcalls. unfold callsFor. simpl mutatorCalls.
    now destruct ((length pruned =? 0)%nat || dryRun).
  - split; [assumption|].
    intros u t Hl Ht Hu. apply Hchar in Hu as (_ & _ & (t' & err & Hl' & Hne) & _).
    rewrite Hl in Hl'. injection Hl' as <- <-.
    destruct Hne as [Hne | Hne]; now apply Hne.
Qed.

Lemma C3_witness_correct_record_skipped :
  ∃ pruned,
    fst (@pruneBatch exampleEnv route53.ChangeActionUpsert
           [mkRecord "foo.example.com" "private"]
           (@entered exampleEnv [mkChange "UPSERT" (mkRecord "foo.example.com" "private")]
                     exampleState))
    = Returned pruned
    ∧ mkRecord "foo.example.com" "private" ∉ pruned.
Proof.
  destruct (@C3_prune_upsert_batch exampleEnv
              (mkChange "UPSERT" (mkRecord "foo.example.com" "private")) [] exampleState)
    as (pruned & Hprune & _ & _ & _ & Hskip).
  - reflexivity.
  - intros u Hu _. apply list_elem_of_singleton in Hu. subst u.
    exists "private.", None. reflexivity.
  - exists pruned. split; [exact Hprune|].
    apply (Hskip (mkRecord "foo.example.com" "private") "private."); reflexivity.
Defined.

(** C3 as stated fails: two UPSERT records for one hostname whose live
    query fails name different targets; each meets the stated
    condition, yet dedup drops both and the mutator is not called. *)
Lemma C3_counter_conflicting_upserts :
  let u := mkRecord "shared.example.com" "public" in
  let changes := [mkChange "UPSERT" u;
                  mkChange "UPSERT" (mkRecord "shared.example.com" "private")] in
  u ∈ List.map Record_ changes
  ∧ @lookupCname exampleEnv emptyWorld (Hostname u)
    = Returned (EmptyString, Some errDNSEmptyAnswer)
  ∧ fst (@pruneBatch exampleEnv "UPSERT" (List.map Record_ changes)
           (@entered exampleEnv changes (mock.start exampleEnv emptyWorld))) = Returned []
  ∧ mutatorCalls (snd (@applyBatch exampleEnv changes (mock.start exampleEnv emptyWorld)))
    = [].
Proof.
  split; [left|]. vm_compute. repeat split.
Qed.

(** ** The scope check ([canHandleRecord]) *)

Lemma inCutset_cons_false (c x : ascii) (rest : string) :
  strings.inCutset c (String x rest) = false →
  Ascii.eqb c x = false ∧ strings.inCutset c rest = false.
Proof. simpl. destruct (Ascii.eqb c x); [discriminate | auto]. Qed.

Lemma lex_literal (c : ascii) (rest : string) :
  regexp.isLiteral c = true →
  regexp.lex (String c rest) = cons (regexp.TAtom (regexp.Lit c)) <$> regexp.lex rest.
Proof.
  intros Hlit. pose proof Hlit as Hmeta.
  unfold regexp.isLiteral in Hmeta. apply andb_true_iff in Hmeta as [_ Hmeta].
  apply negb_true_iff in Hmeta. unfold regexp.isMeta in Hmeta.
  repeat match type of Hmeta with
         | strings.inCutset _ (String _ _) = false =>
             let E := fresh "E" in
             apply inCutset_cons_false in Hmeta as [E Hmeta]
         end.
  simpl.
  repeat match goal with
         | E : Ascii.eqb c _ = false |- _ => rewrite ?E; clear E
         end.
  now rewrite Hlit.
Qed.

Lemma lex_escaped_dot (rest : string) :
  regexp.lex (String "\" (String "." rest))
  = cons (regexp.TAtom (regexp.Lit ".")) <$> regexp.lex rest.
Proof. reflexivity. Qed.

Lemma lex_begin (rest : string) :
  regexp.lex (String "^" rest) = cons regexp.TBegin <$> regexp.lex rest.
Proof. reflexivity. Qed.

Lemma lex_not_dot (rest : string) :
  regexp.lex (String "[" (String "^" (String "." (String "]" rest))))
  = cons (regexp.TAtom (regexp.NotLit ".")) <$> regexp.lex rest.
Proof. reflexivity. Qed.

Lemma lex_plus (rest : string) :
  regexp.lex (String "+" rest)
  = cons (regexp.TQuant regexp.OneOrMore) <$> regexp.lex rest.
Proof. reflexivity. Qed.

Lemma lex_zone (zone : string) :
  plainZone zone = true →
  regexp.lex (strings.ReplaceByte zone "." "\." ++ "$")
  = Some (tokensOf zone ++ [regexp.TEnd]).
Proof.
  induction zone as [|c rest IH]; intros Hplain.
  - reflexivity.
  - simpl in Hplain. apply andb_true_iff in Hplain as [Hc Hrest].
    specialize (IH Hrest). cbn [strings.ReplaceByte].
    destruct (Ascii.eqb c ".") eqn:Edot.
    + apply Ascii.eqb_eq in Edot. subst c.
      change (("\." ++ strings.ReplaceByte rest "." "\.") ++ "$")%string
        with (String "\" (String "." (strings.ReplaceByte rest "." "\." ++ "$"))).
      rewrite lex_escaped_dot, IH. reflexivity.
    + simpl in Hc.
      change (String c (strings.ReplaceByte rest "." "\.") ++ "$")%string
        with (String c (strings.ReplaceByte rest "." "\." ++ "$")).
      rewrite lex_literal by assumption. rewrite IH. reflexivity.
Qed.

Lemma group_tokens (text : string) :
  regexp.group (tokensOf text ++ [regexp.TEnd]) = Some (literally text, true).
Proof.
  induction text as [|c rest IH].
  - reflexivity.
  - destruct rest as [|c' rest']; [reflexivity|].
    change (tokensOf (String c (String c' rest')) ++ [regexp.TEnd])
      with (regexp.TAtom (regexp.Lit c) :: (tokensOf (String c' rest') ++ [regexp.TEnd])).
    change (tokensOf (String c' rest') ++ [regexp.TEnd])
      with (regexp.TAtom (regexp.Lit c') :: (tokensOf rest' ++ [regexp.TEnd])) in *.
    cbn [regexp.group]. cbn [regexp.group] in IH. rewrite IH. reflexivity.
Qed.

(** The pattern of the scope check compiles to: one or more non-dot
    bytes, a dot, the zone name byte by byte, end of text. *)
Lemma compile_scope_pattern (zone : string) :
  plainZone zone = true →
  regexp.compile ("^[^.]+\." ++ strings.ReplaceByte zone "." "\." ++ "$")
  = Some (regexp.mkRegexp true
            ((regexp.NotLit ".", regexp.OneOrMore) :: literally (String "." zone))
            true).
Proof.
  intros Hplain. unfold regexp.compile.
  assert (Hlex : regexp.lex ("^[^.]+\." ++ strings.ReplaceByte zone "." "\." ++ "$")
                 = Some (regexp.TBegin :: regexp.TAtom (regexp.NotLit ".")
                           :: regexp.TQuant regexp.OneOrMore
                           :: (tokensOf (String "." zone) ++ [regexp.TEnd]))).
  { change ("^[^.]+\." ++ strings.ReplaceByte zone "." "\." ++ "$")%string
      with (String "^" (String "[" (String "^" (String "." (String "]" (String "+"
             (String "\" (String "." (strings.ReplaceByte zone "." "\." ++ "$"))))))))).
    rewrite lex_begin, lex_not_dot, lex_plus, lex_escaped_dot, lex_zone by assumption.
    reflexivity. }
  rewrite Hlex.
  change (regexp.group (regexp.TAtom (regexp.NotLit ".") :: regexp.TQuant regexp.OneOrMore
                          :: (tokensOf (String "." zone) ++ [regexp.TEnd])))
    with ((fun r : list (regexp.atom * regexp.quant) * bool =>
             ((regexp.NotLit ".", regexp.OneOrMore) :: fst r, snd r))
            <$> regexp.group (tokensOf (String "." zone) ++ [regexp.TEnd])).
  rewrite group_tokens. reflexivity.
Qed.

Lemma matchItems_literally (text s : string) :
  regexp.matchItems true (literally text) s = true ↔ s = text.
Proof.
  revert s. induction text as [|c rest IH]; intros s.
  - simpl. destruct s; split; congruence.
  - simpl. destruct s as [|c' s']; simpl.
    + split; discriminate.
    + rewrite andb_true_iff, IH, Ascii.eqb_eq. split.
      * intros [-> ->]. reflexivity.
      * intros Heq. injection Heq as -> ->. auto.
Qed.

Lemma dotFree_cons (c : ascii) (label : string) :
  dotFree (String c label) ↔ Ascii.eqb c "." = false ∧ dotFree label.
Proof.
  unfold dotFree.
  change (strings.inCutset "." (String c label))
    with (if Ascii.eqb "." c then true else strings.inCutset "." label).
  rewrite (Ascii.eqb_sym "." c).
  destruct (Ascii.eqb c ".").
  - split; [discriminate | intros [Habs _]; discriminate].
  - split; [intros Hl; now split | intros [_ Hl]; exact Hl].
Qed.

(** Any run of non-dot bytes, then [k]. *)
Lemma matchStar_not_dot (k : string -> bool) (s : string) :
  regexp.matchStar (regexp.NotLit ".") k s = true
  ↔ ∃ label rest, dotFree label ∧ s = (label ++ rest)%string ∧ k rest = true.
Proof.
  split.
  - induction s as [|c s' IH]; simpl; intros Hm.
    + rewrite orb_false_r in Hm. exists EmptyString, EmptyString. now repeat split.
    + apply orb_true_iff in Hm as [Hk | Hm].
      * exists EmptyString, (String c s'). now repeat split.
      * apply andb_true_iff in Hm as [Hc Hm]. apply negb_true_iff in Hc.
        destruct (IH Hm) as (label & rest & Hfree & -> & Hk).
        exists (String c label), rest. split; [|now split].
        apply dotFree_cons. now split.
  - intros (label & rest & Hfree & -> & Hk).
    induction label as [|c label IH]; simpl.
    + destruct rest; simpl; now rewrite Hk.
    + apply dotFree_cons in Hfree as [Hc Hfree].
      rewrite Hc, (IH Hfree). simpl. apply orb_true_r.
Qed.

(** The compiled pattern accepts exactly [<label>.<zone>]. *)
Lemma match_scope_pattern (zone s : string) :
  regexp.matchItems true
    ((regexp.NotLit ".", regexp.OneOrMore) :: literally (String "." zone)) s = true
  ↔ singleLabelUnder zone s.
Proof.
  cbn [regexp.matchItems]. unfold regexp.matchOne at 1. split.
  - destruct s as [|c s']; [discriminate|]. intros Hm.
    apply andb_true_iff in Hm as [Hc Hm]. simpl in Hc. apply negb_true_iff in Hc.
    apply matchStar_not_dot in Hm as (label & rest & Hfree & -> & Hk).
    apply (matchItems_literally (String "." zone)) in Hk. subst rest.
    exists (String c label). split; [discriminate|]. split; [|reflexivity].
    apply dotFree_cons. now split.
  - intros (label & Hne & Hfree & ->).
    destruct label as [|c label]; [contradiction|].
    apply dotFree_cons in Hfree as [Hc Hfree].
    change (String c label ++ "." ++ zone)%string
      with (String c (label ++ String "." zone))%string.
    cbv iota. apply andb_true_iff. split; [simpl; now rewrite Hc|].
    apply matchStar_not_dot. exists label, (String "." zone).
    split; [assumption|]. split; [reflexivity|].
    now apply (matchItems_literally (String "." zone)).
Qed.

Lemma canHandleRecord_form `{Env} :
  (∀ p s, MatchString p s = regexp.MatchString p s) →
  plainZone (strings.Trim Domain ".") = true →
  ∀ record,
    canHandleRecord record = true
    ↔ singleLabelUnder (strings.Trim Domain ".") (strings.Trim record ".").
Proof.
  intros Hre Hplain record. unfold canHandleRecord.
  rewrite Hre. unfold regexp.MatchString.
  rewrite compile_scope_pattern by assumption. cbn [regexp.beginText regexp.endText regexp.items].
  apply match_scope_pattern.
Qed.

(** ** What prune and apply leave untouched *)

Lemma pruneRecord_frame `{Env} (action : string) (u : cnameRecord)
    (pruned : list cnameRecord) (st : state) :
  ∃ n qs, snd (pruneRecord action u pruned st) = touched n qs st.
Proof.
  destruct (pruneRecord_cases action u pruned st)
    as [[_ Hrun] | [(_ & _ & qs & Hrun) | (_ & _ & qs & kept & Hrun & _)]];
    rewrite Hrun; simpl; eauto.
Qed.

Lemma pruneBatch_loop_frame `{Env} (action : string) (records : list cnameRecord) :
  ∀ (pruned : list cnameRecord) (st : state),
    ∃ n qs, snd (pruneBatch_loop action records pruned st) = touched n qs st.
Proof.
  induction records as [|u rest IH]; intros pruned st.
  - exists 0, []. simpl. now rewrite touched_0_nil.
  - simpl. unfold bind at 1.
    destruct (pruneRecord_frame action u pruned st) as (n & qs & Hu).
    destruct (pruneRecord action u pruned st) as [[pruned'|] st1]; simpl in Hu; subst st1.
    + destruct (IH pruned' (touched n qs st)) as (n' & qs' & Hrest).
      rewrite Hrest, touched_touched. eauto.
    + simpl. eauto.
Qed.

Lemma pruneBatch_frame `{Env} (action : string) (records : list cnameRecord) (st : state) :
  ∃ n qs, snd (pruneBatch action records st) = touched n qs st.
Proof.
  unfold pruneBatch, bind.
  destruct (pruneBatch_loop_frame action records [] st) as (n & qs & Hloop).
  destruct (pruneBatch_loop action records [] st) as [[kept|] st1]; simpl in Hloop; subst st1.
  - rewrite uniqueRecords_run, rejectedMore_touched, touched_touched. simpl. eauto.
  - simpl. eauto.
Qed.

(** If the prune stage returns, the pruned batch is a sublist of the
    batch, made of records that pass the per-record filter. *)
Lemma pruneBatch_returned `{Env} (action : string) (records pruned : list cnameRecord)
    (st st' : state) :
  pruneBatch action records st = (Returned pruned, st') →
  pruned `sublist_of` records
  ∧ ∀ u, u ∈ pruned → passesFilter action (world st) u.
Proof.
  intros Hrun.
  assert (Hq : queriesReturn (world st) records).
  { unfold pruneBatch, bind in Hrun.
    destruct (pruneBatch_loop action records [] st) as [[kept|] st1] eqn:Eloop;
      [|discriminate].
    eapply pruneBatch_loop_queries; eauto. }
  destruct (pruneBatch_returns action records st Hq) as (pruned' & rej & qs & Hp & Hsub & _ & Hin).
  rewrite Hp in Hrun. injection Hrun as -> _.
  split; [assumption|]. intros u Hu. now apply Hin in Hu as (_ & Hpass & _).
Qed.

Lemma applyBatch_effect `{Env} (changes : list cnameChange) (st : state) :
  flushed (snd (applyBatch changes st)) = flushed st ++ [changes]
  ∧ (mutatorCalls (snd (applyBatch changes st)) = mutatorCalls st
     ∨ ∃ first rest pruned st1,
         changes = first :: rest
         ∧ pruneBatch (Action first) (List.map Record_ changes) (entered changes st)
           = (Returned pruned, st1)
         ∧ mutatorCalls (snd (applyBatch changes st))
           = mutatorCalls st
             ++ [if String.eqb (Action first) route53.ChangeActionDelete
                 then CallDeleteCnames pruned else CallUpsertCnames pruned]).
Proof.
  destruct changes as [|first rest].
  - split; [reflexivity | left; reflexivity].
  - destruct (pruneBatch_frame (Action first) (List.map Record_ (first :: rest))
                (entered (first :: rest) st)) as (n & qs & Hframe).
    destruct (pruneBatch (Action first) (List.map Record_ (first :: rest))
                (entered (first :: rest) st)) as [[pruned|] st1] eqn:Eprune;
      simpl in Hframe; subst st1.
    + destruct (applyBatch_calls first rest st _ pruned Eprune) as (_ & Hf & Hc).
      rewrite Hf, Hc. split; [reflexivity|]. simpl mutatorCalls.
      unfold callsFor.
      destruct ((length pruned =? 0)%nat || dryRun).
      * left. now rewrite app_nil_r.
      * right. exists first, rest, pruned, (touched n qs (entered (first :: rest) st)).
        split; [reflexivity|]. split; [assumption|].
        now destruct (String.eqb (Action first) route53.ChangeActionDelete).
    + assert (Hrun : applyBatch (first :: rest) st
                     = (Panicked, touched n qs (entered (first :: rest) st))).
      { unfold applyBatch. unfold bind at 1.
        change (enter_applyBatch (first :: rest) st)
          with (Returned tt, entered (first :: rest) st).
        cbv iota. unfold bind at 1. now rewrite Eprune. }
      rewrite Hrun. split; [reflexivity | left; reflexivity].
Qed.

(** C5, as the code has it.  Let the zone apex, leading and trailing
    dots trimmed, be made of dots and of bytes that stand for
    themselves in the pattern syntax, and let [regexp.MatchString]
    behave as modelled.  Then [canHandleRecord] accepts a hostname
    exactly when, leading and trailing dots trimmed, it reads
    [<label>.<apex>] for one non-empty label without a dot, the apex
    taken literally.  A record that is not accepted is skipped by the
    prune loop before any query, [metricUpdatesRejected] growing by
    one; it is in no pruned batch and in no mutator call. *)
Theorem C5_scope_check `{Env} :
  (∀ p s, MatchString p s = regexp.MatchString p s) →
  plainZone (strings.Trim Domain ".") = true →
  (∀ record,
      canHandleRecord record = true
      ↔ singleLabelUnder (strings.Trim Domain ".") (strings.Trim record "."))
  ∧ (∀ action u pruned st,
        canHandleRecord (Hostname u) = false →
        pruneRecord action u pruned st = (Returned pruned, rejectedMore 1 st))
  ∧ (∀ action records st pruned st',
        pruneBatch action records st = (Returned pruned, st') →
        ∀ u, u ∈ pruned → canHandleRecord (Hostname u) = true)
  ∧ (∀ changes st call,
        call ∈ mutatorCalls (snd (applyBatch changes st)) →
        call ∈ mutatorCalls st
        ∨ ∀ u, u ∈ recordsOf call → canHandleRecord (Hostname u) = true).
Proof.
  intros Hre Hplain. split; [now apply canHandleRecord_form|]. split; [|split].
  - intros action u pruned st Hscope.
    destruct (pruneRecord_cases action u pruned st)
      as [[_ Hrun] | [(Habs & _) | (Habs & _)]]; try congruence.
    now rewrite Hrun, rejectedMore_touched.
  - intros action records st pruned st' Hrun u Hu.
    apply pruneBatch_returned in Hrun as [_ Hpass]. now destruct (Hpass u Hu).
  - intros changes st call Hcall.
    destruct (applyBatch_effect changes st)
      as [_ [Hsame | (first & rest & pruned & st1 & _ & Hprune & Hcalls)]].
    + left. now rewrite <- Hsame.
    + rewrite Hcalls in Hcall. apply elem_of_app in Hcall as [Hold | Hnew]; [now left|].
      right. apply list_elem_of_singleton in Hnew. intros u Hu.
      apply pruneBatch_returned in Hprune as [_ Hpass].
      assert (Hin : u ∈ pruned).
      { subst call. now destruct (String.eqb (Action first) route53.ChangeActionDelete). }
      now destruct (Hpass u Hin).
Qed.

Lemma C5_witness_single_label_accepted :
  @canHandleRecord exampleEnv "test.example.com." = true.
Proof.
  destruct (@C5_scope_check exampleEnv) as [Hform _].
  - intros p s. reflexivity.
  - reflexivity.
  - apply Hform. exists "test". split; [discriminate|]. split; reflexivity.
Defined.

(** C5 as stated fails: [strings.Trim] also strips leading dots, so a
    hostname that, with its trailing dots stripped, is not one label
    below the apex is accepted all the same. *)
Lemma C5_counter_leading_dot :
  @canHandleRecord exampleEnv ".test.example.com" = true
  ∧ ¬ singleLabelUnder (strings.TrimRight "example.com." ".")
                       (strings.TrimRight ".test.example.com" ".").
Proof.
  split; [reflexivity|].
  intros (label & Hne & Hfree & Heq).
  destruct label as [|c label]; [contradiction|].
  vm_compute in Heq. injection Heq as <- _.
  apply dotFree_cons in Hfree as [Hc _]. discriminate.
Qed.

(** Only the dots of the apex are escaped: any other byte with a
    meaning in the pattern syntax keeps it. *)
Example scope_pattern_not_literal :
  @canHandleRecord plusZoneEnv "x.aaa.com" = true
  ∧ @canHandleRecord plusZoneEnv "x.a+.com" = false.
Proof. split; reflexivity. Qed.

(** ** Batching ([processUpdateQueue]) *)

Lemma bind_snd `{Env} {A B : Type} (c : M A) (k : A -> M B) (st : state) :
  snd (bind c k st)
  = match fst (c st) with
    | Returned a => snd (k a (snd (c st)))
    | Panicked => snd (c st)
    end.
Proof. unfold bind. now destruct (c st) as [[a|] st1]. Qed.

Lemma deleteUniform_one (t : cnameChange) : deleteUniform [t].
Proof.
  unfold deleteUniform.
  destruct (String.eqb (Action t) route53.ChangeActionDelete) eqn:E.
  - left. apply String.eqb_eq in E. now constructor.
  - right. apply String.eqb_neq in E. now constructor.
Qed.

Lemma deleteUniform_nil : deleteUniform [].
Proof. left. constructor. Qed.

Lemma deleteUniform_snoc (ret_ : list cnameChange) (t : cnameChange) :
  deleteUniform ret_ → actionBoundary ret_ t = false → deleteUniform (ret_ ++ [t]).
Proof.
  intros Huni Hb. destruct ret_ as [|first rest]; [apply deleteUniform_one|].
  simpl in Hb. apply orb_false_iff in Hb as [Hb1 Hb2].
  destruct Huni as [Hall | Hnone].
  - left. apply Forall_app. split; [assumption|]. constructor; [|constructor].
    inversion Hall as [|? ? Hfirst _]; subst.
    apply String.eqb_eq in Hfirst. rewrite Hfirst in Hb1. simpl in Hb1.
    apply negb_false_iff in Hb1. now apply String.eqb_eq.
  - right. apply Forall_app. split; [assumption|]. constructor; [|constructor].
    inversion Hnone as [|? ? Hfirst _]; subst.
    apply String.eqb_neq in Hfirst. rewrite Hfirst in Hb2. simpl in Hb2.
    now apply String.eqb_neq.
Qed.

Lemma actionBoundary_nonempty (ret_ : list cnameChange) (t : cnameChange) :
  actionBoundary ret_ t = true → ret_ ≠ [].
Proof. destruct ret_; [discriminate | discriminate]. Qed.

(** One flush: the batch is recorded, and the mutator call made for it,
    if any, is a call for this batch. *)
Lemma applyBatch_trace `{Env} (ret_ : list cnameChange) (st : state) :
  deleteUniform ret_ →
  ∃ calls,
    flushed (snd (applyBatch ret_ st)) = flushed st ++ [ret_]
    ∧ mutatorCalls (snd (applyBatch ret_ st)) = mutatorCalls st ++ calls
    ∧ Forall (callFrom ret_) calls.
Proof.
  intros Huni.
  destruct (applyBatch_effect ret_ st)
    as [Hf [Hsame | (first & rest & pruned & st1 & -> & Hprune & Hcalls)]].
  - exists []. rewrite app_nil_r. repeat split; auto.
  - eexists. split; [exact Hf|]. split; [exact Hcalls|].
    constructor; [|constructor].
    apply pruneBatch_returned in Hprune as [Hsub _].
    destruct (String.eqb (Action first) route53.ChangeActionDelete) eqn:E;
      (split; [exact Hsub|]).
    + apply String.eqb_eq in E.
      destruct Huni as [Hall | Hnone]; [assumption|].
      inversion Hnone; subst. contradiction.
    + apply String.eqb_neq in E.
      destruct Huni as [Hall | Hnone]; [|assumption].
      inversion Hall; subst. contradiction.
Qed.

(** The trace of a run of the loop from buffer [ret_]. *)
Lemma processUpdateQueue_loop_trace `{Env} (selects : list selected) :
  ∀ (ret_ : list cnameChange) (st : state),
    deleteUniform ret_ →
    ∃ batches calls,
      flushed (snd (processUpdateQueue_loop selects ret_ st)) = flushed st ++ batches
      ∧ mutatorCalls (snd (processUpdateQueue_loop selects ret_ st))
        = mutatorCalls st ++ calls
      ∧ Forall (fun b => b ≠ [] ∧ deleteUniform b
                         ∧ ∀ c, c ∈ b → c ∈ ret_ ∨ Receive c ∈ selects) batches
      ∧ Forall (fun call => ∃ b, b ∈ batches ∧ callFrom b call) calls.
Proof.
  assert (Hflush : ∀ (ret_ : list cnameChange) (st : state) (sels : list selected)
                     (k : M (option (list cnameChange))) (ret' : list cnameChange),
             ret_ ≠ [] → deleteUniform ret_ →
             (∀ st1, ∃ batches calls,
                 flushed (snd (k st1)) = flushed st1 ++ batches
                 ∧ mutatorCalls (snd (k st1)) = mutatorCalls st1 ++ calls
                 ∧ Forall (fun b => b ≠ [] ∧ deleteUniform b
                                    ∧ ∀ c, c ∈ b → c ∈ ret' ∨ Receive c ∈ sels) batches
                 ∧ Forall (fun call => ∃ b, b ∈ batches ∧ callFrom b call) calls) →
             (∀ c, c ∈ ret' → Receive c ∈ sels) →
             ∃ batches calls,
               flushed (snd (bind (applyBatch ret_) (fun _ => k) st)) = flushed st ++ batches
               ∧ mutatorCalls (snd (bind (applyBatch ret_) (fun _ => k) st))
                 = mutatorCalls st ++ calls
               ∧ Forall (fun b => b ≠ [] ∧ deleteUniform b
                                  ∧ ∀ c, c ∈ b → c ∈ ret_ ∨ Receive c ∈ sels) batches
               ∧ Forall (fun call => ∃ b, b ∈ batches ∧ callFrom b call) calls).
  { intros ret_ st sels k ret' Hne Huni Hk Hret'.
    destruct (applyBatch_trace ret_ st Huni) as (cs & Hf & Hc & Hcs).
    assert (Hfirst : Forall (fun call => ∃ b, b ∈ ret_ :: ([] : list (list cnameChange))
                                              ∧ callFrom b call) cs).
    { eapply Forall_impl; [exact Hcs|]. intros call Hcall. exists ret_. split; [left | assumption]. }
    rewrite bind_snd.
    destruct (fst (applyBatch ret_ st)).
    - destruct (Hk (snd (applyBatch ret_ st))) as (batches & calls & Hf' & Hc' & Hb & Hcalls).
      exists (ret_ :: batches), (cs ++ calls).
      rewrite Hf', Hf, Hc', Hc, <- !app_assoc. split; [reflexivity|]. split; [reflexivity|].
      split.
      + constructor; [repeat split; auto|].
        eapply Forall_impl; [exact Hb|]. intros b (Hbne & Hbu & Hbin).
        repeat split; auto. intros c Hc0. destruct (Hbin c Hc0); auto.
      + apply Forall_app. split.
        * eapply Forall_impl; [exact Hfirst|]. intros call (b & Hb0 & Hfrom).
          exists b. split; [|assumption]. apply list_elem_of_singleton in Hb0. subst. left.
        * eapply Forall_impl; [exact Hcalls|]. intros call (b & Hb0 & Hfrom).
          exists b. split; [now right | assumption].
    - exists [ret_], cs. split; [assumption|]. split; [assumption|]. split.
      + constructor; [repeat split; auto | constructor].
      + assumption. }
  induction selects as [|sel rest IH]; intros ret_ st Huni.
  - exists [], []. simpl. rewrite !app_nil_r. repeat split; constructor.
  - destruct sel as [t | | ].
    + (* case t := <-r.updateQueue *)
      cbn [processUpdateQueue_loop].
      destruct (actionBoundary ret_ t) eqn:Hb.
      * destruct (Hflush ret_ st (Receive t :: rest)
                    (processUpdateQueue_loop rest ([] ++ [t])) [t]) as (bs & cs & H1 & H2 & H3 & H4).
        -- eapply actionBoundary_nonempty; eauto.
        -- assumption.
        -- intros st1. destruct (IH ([] ++ [t]) st1 (deleteUniform_one t))
             as (bs & cs & H1 & H2 & H3 & H4).
           exists bs, cs. repeat split; auto.
           eapply Forall_impl; [exact H3|]. intros b (Hbne & Hbu & Hbin).
           repeat split; auto. intros c Hc0. destruct (Hbin c Hc0); [now left|].
           right. now right.
        -- intros c Hc0. apply list_elem_of_singleton in Hc0. subst. left.
        -- exists bs, cs. repeat split; auto.
      * destruct (IH (ret_ ++ [t]) st (deleteUniform_snoc ret_ t Huni Hb))
          as (bs & cs & H1 & H2 & H3 & H4).
        exists bs, cs. repeat split; auto.
        eapply Forall_impl; [exact H3|]. intros b (Hbne & Hbu & Hbin).
        repeat split; auto. intros c Hc0. destruct (Hbin c Hc0) as [Hin | Hin].
        -- apply elem_of_app in Hin as [Hin | Hin]; [now left|].
           apply list_elem_of_singleton in Hin. subst. right. left.
        -- right. now right.
    + (* case <-r.stopChannel *)
      cbn [processUpdateQueue_loop].
      destruct ret_ as [|first more]; simpl Nat.ltb; cbv iota.
      * exists [], []. simpl. rewrite !app_nil_r. repeat split; constructor.
      * destruct (Hflush (first :: more) st (Stop :: rest) (ret None) [])
          as (bs & cs & H1 & H2 & H3 & H4); try discriminate; auto.
        -- intros st1. exists [], []. simpl. rewrite !app_nil_r. repeat split; constructor.
        -- intros c Hc0. inversion Hc0.
        -- exists bs, cs. repeat split; auto.
    + (* default *)
      cbn [processUpdateQueue_loop].
      destruct ret_ as [|first more]; simpl Nat.ltb; cbv iota.
      * destruct (IH [] st deleteUniform_nil) as (bs & cs & H1 & H2 & H3 & H4).
        exists bs, cs. repeat split; auto.
        eapply Forall_impl; [exact H3|]. intros b (Hbne & Hbu & Hbin).
        repeat split; auto. intros c Hc0. destruct (Hbin c Hc0); [now left|].
        right. now right.
      * destruct (Hflush (first :: more) st (Idle :: rest)
                    (processUpdateQueue_loop rest []) [])
          as (bs & cs & H1 & H2 & H3 & H4); try discriminate; auto.
        -- intros st1. destruct (IH [] st1 deleteUniform_nil) as (bs & cs & H1 & H2 & H3 & H4).
           exists bs, cs. repeat split; auto.
           eapply Forall_impl; [exact H3|]. intros b (Hbne & Hbu & Hbin).
           repeat split; auto. intros c Hc0. destruct (Hbin c Hc0); [now left|].
           right. now right.
        -- intros c Hc0. inversion Hc0.
        -- exists bs, cs. repeat split; auto.
Qed.

Lemma deleteUniform_homogeneous (b : list cnameChange) :
  deleteUniform b → Forall validAction b → homogeneous b.
Proof.
  intros [Hall | Hnone] Hvalid.
  - now exists route53.ChangeActionDelete.
  - exists route53.ChangeActionUpsert.
    apply Forall_forall. intros c Hc.
    rewrite Forall_forall in Hnone, Hvalid.
    destruct (Hvalid c Hc) as [Hu | Hd]; [assumption|].
    now destruct (Hnone c Hc).
Qed.

Lemma actionBoundary_differ (first t : cnameChange) (buf : list cnameChange) :
  validAction first → validAction t → Action t ≠ Action first →
  actionBoundary (first :: buf) t = true.
Proof.
  intros [Hf | Hf] [Ht | Ht] Hne; simpl; rewrite Hf, Ht; try reflexivity;
    rewrite Hf, Ht in Hne; contradiction.
Qed.

(** C4.  Over any sequence of [select] outcomes, the arguments
    [applyBatch] is called with are non-empty batches that are all
    DELETE or free of DELETE, so none mixes UPSERT and DELETE; every
    mutator call is made for one of these batches, carries records of
    that batch only, and is [DeleteCnames] for an all-DELETE batch and
    [UpsertCnames] for a DELETE-free one.  When the changes received
    carry the two actions the handler enqueues, every batch has a
    single action.  A change whose action differs from that of the
    first buffered change makes the loop flush the buffer first and
    start a new buffer with the arrival. *)
Theorem C4_batches_action_homogeneous `{Env} (selects : list selected) (st : state) :
  ∃ batches calls,
    flushed (snd (processUpdateQueue selects st)) = flushed st ++ batches
    ∧ mutatorCalls (snd (processUpdateQueue selects st)) = mutatorCalls st ++ calls
    ∧ Forall (fun b => b ≠ [] ∧ deleteUniform b) batches
    ∧ Forall (fun call => ∃ b, b ∈ batches ∧ callFrom b call) calls
    ∧ ((∀ t, Receive t ∈ selects → validAction t) → Forall homogeneous batches)
    ∧ (∀ first buf t rest st0,
          validAction first → validAction t → Action t ≠ Action first →
          processUpdateQueue_loop (Receive t :: rest) (first :: buf) st0
          = bind (applyBatch (first :: buf))
                 (fun _ => processUpdateQueue_loop rest [t]) st0).
Proof.
  destruct (processUpdateQueue_loop_trace selects [] st deleteUniform_nil)
    as (batches & calls & Hf & Hc & Hb & Hcalls).
  exists batches, calls. split; [exact Hf|]. split; [exact Hc|]. split; [|split; [|split]].
  - eapply Forall_impl; [exact Hb|]. now intros b (? & ? & _).
  - exact Hcalls.
  - intros Hvalid. eapply Forall_impl; [exact Hb|]. intros b (_ & Hu & Hin).
    apply deleteUniform_homogeneous; [assumption|].
    apply Forall_forall. intros c Hc0. destruct (Hin c Hc0) as [Habs | Hrecv].
    + inversion Habs.
    + now apply Hvalid.
  - intros first buf t rest st0 Hfv Htv Hne.
    cbn [processUpdateQueue_loop]. now rewrite actionBoundary_differ.
Qed.

Lemma C4_witness_upsert_then_delete :
  ∃ batches calls,
    flushed (snd (@processUpdateQueue exampleEnv exampleSelects exampleState))
    = flushed exampleState ++ batches
    ∧ mutatorCalls (snd (@processUpdateQueue exampleEnv exampleSelects exampleState))
      = mutatorCalls exampleState ++ calls
    ∧ Forall homogeneous batches.
Proof.
  destruct (@C4_batches_action_homogeneous exampleEnv exampleSelects exampleState)
    as (batches & calls & Hf & Hc & _ & _ & Hhom & _).
  exists batches, calls. split; [exact Hf|]. split; [exact Hc|].
  apply Hhom. intros t Ht. unfold exampleSelects in Ht.
  repeat (apply elem_of_cons in Ht as [Ht | Ht];
          [first [injection Ht as ->; first [left; reflexivity | right; reflexivity]
                 | discriminate]|]).
  inversion Ht.
Defined.

(** ** The event handler *)

Lemma queueUpdates_actions (action : string) (hostnames : list string) (target : string) :
  Forall (fun c => Action c = action) (queueUpdates action hostnames target).
Proof. induction hostnames; simpl; constructor; auto. Qed.

(** The handler only enqueues UPSERT and DELETE changes. *)
Lemma handler_actions `{Env} (r : registrator) (eventType : string)
    (oldIngress newIngress : option Ingress) (changes : list cnameChange) :
  handler r eventType oldIngress newIngress = Returned changes →
  Forall validAction changes.
Proof.
  assert (Hup : ∀ hs t, Forall validAction (queueUpdates route53.ChangeActionUpsert hs t)).
  { intros hs t. eapply Forall_impl; [apply queueUpdates_actions|]. intros c Hc. now left. }
  assert (Hdel : ∀ hs t, Forall validAction (queueUpdates route53.ChangeActionDelete hs t)).
  { intros hs t. eapply Forall_impl; [apply queueUpdates_actions|]. intros c Hc. now right. }
  assert (Hsome : ∀ (target : string) (hostnames : list string) (action : string),
             Forall validAction (queueUpdates action hostnames target) →
             Forall validAction
               (if String.eqb target "" then []
                else if (length hostnames =? 0)%nat then []
                     else queueUpdates action hostnames target)).
  { intros target hostnames action Hq.
    destruct (String.eqb target ""); [constructor|].
    destruct (length hostnames =? 0)%nat; [constructor | assumption]. }
  assert (Hone : ∀ (target : string) (hostnames : list string) (action : string),
             Forall validAction (queueUpdates action hostnames target) →
             (if String.eqb target "" then Returned []
              else if (length hostnames =? 0)%nat then Returned []
                   else Returned (queueUpdates action hostnames target))
             = Returned changes →
             Forall validAction changes).
  { intros target hostnames action Hq Hrun.
    destruct (String.eqb target ""); [injection Hrun as <-; constructor|].
    destruct (length hostnames =? 0)%nat; injection Hrun as <-; [constructor | assumption]. }
  unfold handler. intros Hrun.
  destruct (String.eqb eventType watch.Added).
  { destruct newIngress as [n|]; [|discriminate]. eapply Hone; [|exact Hrun]. apply Hup. }
  destruct (String.eqb eventType watch.Modified).
  { destruct newIngress as [n|]; [|discriminate].
    destruct oldIngress as [o|]; [|discriminate].
    match type of Hrun with (if ?b then _ else _) = _ => destruct b end;
      injection Hrun as <-; [constructor|].
    apply Forall_app. split; apply Hsome; auto. }
  destruct (String.eqb eventType watch.Deleted).
  { destruct oldIngress as [o|]; [|discriminate]. eapply Hone; [|exact Hrun]. apply Hdel. }
  injection Hrun as <-. constructor.
Qed.

Lemma diffStringSlices_elem (a b : list string) (x : string) :
  x ∈ diffStringSlices a b ↔ x ∈ a ∧ x ∉ b.
Proof.
  induction a as [|va rest IH]; simpl.
  - split; [intros Hx; inversion Hx | intros [Hx _]; inversion Hx].
  - destruct (stringInSlice va b) eqn:Ein; simpl.
    + apply stringInSlice_elem in Ein. rewrite IH. split.
      * intros [Hx Hnb]. split; [now right | assumption].
      * intros [Hx Hnb]. inversion Hx; subst; [contradiction | now split].
    + assert (Hnot : va ∉ b).
      { intros Hin. apply stringInSlice_elem in Hin. congruence. }
      rewrite elem_of_cons, IH. split.
      * intros [-> | [Hx Hnb]]; split; auto; [left | now right].
      * intros [Hx Hnb]. inversion Hx; subst; [now left | right; now split].
Qed.

Lemma diffStringSlices_sublist (a b : list string) :
  diffStringSlices a b `sublist_of` a.
Proof.
  induction a as [|va rest IH]; simpl; [reflexivity|].
  destruct (stringInSlice va b); simpl; [now apply sublist_cons | now apply sublist_skip].
Qed.

Lemma diffStringSlices_self (a : list string) : diffStringSlices a a = [].
Proof.
  destruct (diffStringSlices a a) as [|x rest] eqn:E; [reflexivity|].
  assert (Hx : x ∈ diffStringSlices a a) by (rewrite E; left).
  apply diffStringSlices_elem in Hx as [Hin Hnot]. contradiction.
Qed.

(** C6.  [diffStringSlices old new] is the order-preserving difference
    of the old hostnames by the new ones.  On a MODIFIED event for which
    it is empty and the two ingresses read the same value under the
    target label key (an absent label reading as the empty string), the
    handler enqueues nothing; so a resync event, old and new being the
    same ingress, enqueues nothing. *)
Theorem C6_modified_noop_guard `{Env} (r : registrator) :
  (∀ a b, diffStringSlices a b `sublist_of` a
          ∧ ∀ x, x ∈ diffStringSlices a b ↔ x ∈ a ∧ x ∉ b)
  ∧ (∀ oldIngress newIngress,
        diffStringSlices (getHostnamesFromIngress oldIngress)
                         (getHostnamesFromIngress newIngress) = [] →
        labelValue (Labels oldIngress) (TargetLabelName (options r))
        = labelValue (Labels newIngress) (TargetLabelName (options r)) →
        handler r watch.Modified (Some oldIngress) (Some newIngress) = Returned [])
  ∧ (∀ ingress, handler r watch.Modified (Some ingress) (Some ingress) = Returned []).
Proof.
  assert (Hguard : ∀ oldIngress newIngress,
             diffStringSlices (getHostnamesFromIngress oldIngress)
                              (getHostnamesFromIngress newIngress) = [] →
             labelValue (Labels oldIngress) (TargetLabelName (options r))
             = labelValue (Labels newIngress) (TargetLabelName (options r)) →
             handler r watch.Modified (Some oldIngress) (Some newIngress) = Returned []).
  { intros oldIngress newIngress Hdiff Hlabel. unfold handler.
    change (String.eqb watch.Modified watch.Added) with false.
    change (String.eqb watch.Modified watch.Modified) with true. cbv iota.
    rewrite Hdiff, Hlabel, String.eqb_refl. reflexivity. }
  split; [|split].
  - intros a b. split; [apply diffStringSlices_sublist | apply diffStringSlices_elem].
  - exact Hguard.
  - intros ingress. apply Hguard; [apply diffStringSlices_self | reflexivity].
Qed.

Lemma C6_witness_same_hosts_same_label :
  @handler exampleEnv exampleRegistrator watch.Modified (Some ingressA) (Some ingressA')
  = Returned [].
Proof.
  destruct (@C6_modified_noop_guard exampleEnv exampleRegistrator) as (_ & Hguard & _).
  apply Hguard; reflexivity.
Defined.

(** ** Target selection *)

Lemma buildSats_built `{Env} (targetLabelName : string) (targets : list string) :
  ∀ (acc sats : list selectorAndTarget),
    buildSats targetLabelName targets acc = inr sats →
    ∃ new, sats = acc ++ new ∧ Forall2 (builtFor targetLabelName) targets new.
Proof.
  induction targets as [|target rest IH]; intros acc sats Hb; simpl in Hb.
  - injection Hb as <-. exists []. rewrite app_nil_r. split; [reflexivity | constructor].
  - destruct (Parse (targetLabelName ++ "=" ++ target)) as [sel | msg] eqn:Ep;
      [|discriminate].
    destruct (IH _ _ Hb) as (new & -> & Hnew).
    exists (mkSat sel target :: new). rewrite <- app_assoc. split; [reflexivity|].
    constructor; [|assumption]. now split.
Qed.

Lemma getTargetForIngress_loop_find `{Env} (targetLabelName : string)
    (targets : list string) (sats : list selectorAndTarget) (ingress : Ingress) :
  Forall2 (builtFor targetLabelName) targets sats →
  getTargetForIngress_loop sats ingress
  = default EmptyString
      (List.find (selectorMatches targetLabelName (Labels ingress)) targets).
Proof.
  induction 1 as [|target sat targets sats [Hparse Htarget] _ IH]; simpl.
  - reflexivity.
  - unfold selectorMatches at 1. rewrite Hparse.
    destruct (Matches (sat_Selector sat) (Labels ingress)); [now rewrite Htarget | exact IH].
Qed.

Lemma built_parsed `{Env} (targetLabelName : string) (targets : list string)
    (sats : list selectorAndTarget) :
  Forall2 (builtFor targetLabelName) targets sats →
  ∀ target, target ∈ targets →
            ∃ sel, Parse (targetLabelName ++ "=" ++ target) = Ok sel.
Proof.
  induction 1 as [|t sat targets sats [Hparse _] _ IH]; intros target Hin.
  - inversion Hin.
  - inversion Hin; subst; [eauto | now apply IH].
Qed.

Lemma find_agree {A : Type} (f g : A -> bool) (l : list A) :
  (∀ x, x ∈ l → f x = g x) → List.find f l = List.find g l.
Proof.
  induction l as [|x rest IH]; intros Hfg; simpl; [reflexivity|].
  rewrite <- (Hfg x) by left.
  destruct (f x); [reflexivity|]. apply IH. intros y Hy. apply Hfg. now right.
Qed.

Lemma newRegistratorWithOptions_sats `{Env} (opts : registratorOptions) (r : registrator) :
  newRegistratorWithOptions opts = inr r →
  TargetLabelName (options r) = TargetLabelName opts
  ∧ Targets (options r) = Targets opts
  ∧ Forall2 (builtFor (TargetLabelName opts)) (Targets opts) (sats r).
Proof.
  unfold newRegistratorWithOptions. intros Hnew.
  destruct ((length (Targets opts) =? 0)%nat || String.eqb (Route53ZoneID opts) ""
            || String.eqb (TargetLabelName opts) ""); [discriminate|].
  destruct (buildSats (TargetLabelName opts) (Targets opts) []) as [err | built] eqn:Eb;
    [discriminate|].
  apply buildSats_built in Eb as (new & -> & Hnew').
  destruct (KubernetesConfig opts) as [c|].
  - injection Hnew as <-. simpl. auto.
  - destruct InClusterConfig as [c | msg]; [|discriminate].
    injection Hnew as <-. simpl. auto.
Qed.

(** C7.  For a registrator built by [newRegistratorWithOptions],
    [getTargetForIngress] returns the first target, in the order of
    [Targets], whose selector (the one parsed from [TargetLabelName],
    an equals sign and that target) matches the ingress's labels, and
    the empty string when none does; where these selectors mean that
    the label equals the target, that is the first target equal to the
    ingress's value of the label.  When it returns the empty string
    for an ingress, the handler enqueues nothing for that ingress: no
    change on ADDED or DELETED, no UPSERT on MODIFIED when it is the
    new ingress, no DELETE on MODIFIED when it is the old one. *)
Theorem C7_target_selection `{Env} (opts : registratorOptions) (r : registrator) :
  newRegistratorWithOptions opts = inr r →
  ∀ ingress,
    getTargetForIngress r ingress
    = default EmptyString
        (List.find (selectorMatches (TargetLabelName opts) (Labels ingress)) (Targets opts))
    ∧ (getTargetForIngress r ingress = EmptyString →
       handler r watch.Added None (Some ingress) = Returned []
       ∧ handler r watch.Deleted (Some ingress) None = Returned []
       ∧ (∀ other changes,
             handler r watch.Modified (Some other) (Some ingress) = Returned changes →
             Forall (fun c => Action c = route53.ChangeActionDelete) changes)
       ∧ (∀ other changes,
             handler r watch.Modified (Some ingress) (Some other) = Returned changes →
             Forall (fun c => Action c = route53.ChangeActionUpsert) changes))
    ∧ ((∀ target sel,
           target ∈ Targets opts →
           Parse (TargetLabelName opts ++ "=" ++ target) = Ok sel →
           Matches sel (Labels ingress)
           = bool_decide (Labels ingress !! TargetLabelName opts = Some target)) →
       getTargetForIngress r ingress
       = default EmptyString
           (List.find
              (fun target =>
                 bool_decide (Labels ingress !! TargetLabelName opts = Some target))
              (Targets opts))).
Proof.
  intros Hnew ingress.
  destruct (newRegistratorWithOptions_sats opts r Hnew) as (_ & _ & Hsats).
  assert (Hfind : getTargetForIngress r ingress
                  = default EmptyString
                      (List.find (selectorMatches (TargetLabelName opts) (Labels ingress))
                                 (Targets opts))).
  { unfold getTargetForIngress. now apply getTargetForIngress_loop_find. }
  split; [exact Hfind|]. split.
  2:{ intros Heq. rewrite Hfind. f_equal. apply find_agree.
      intros target Htarget.
      destruct (built_parsed _ _ _ Hsats target Htarget) as [sel Hsel].
      unfold selectorMatches. rewrite Hsel. now apply Heq. }
  - intros Hnone.
    assert (Hup : ∀ t hs, Forall (fun c => Action c = route53.ChangeActionUpsert)
                     (if String.eqb t "" then []
                      else if (length hs =? 0)%nat then []
                           else queueUpdates route53.ChangeActionUpsert hs t)).
    { intros t hs. destruct (String.eqb t ""); [constructor|].
      destruct (length hs =? 0)%nat; [constructor | apply queueUpdates_actions]. }
    assert (Hdel : ∀ t hs, Forall (fun c => Action c = route53.ChangeActionDelete)
                     (if String.eqb t "" then []
                      else if (length hs =? 0)%nat then []
                           else queueUpdates route53.ChangeActionDelete hs t)).
    { intros t hs. destruct (String.eqb t ""); [constructor|].
      destruct (length hs =? 0)%nat; [constructor | apply queueUpdates_actions]. }
    split; [|split; [|split]].
    + unfold handler.
      change (String.eqb watch.Added watch.Added) with true. cbv iota.
      now rewrite Hnone.
    + unfold handler.
      change (String.eqb watch.Deleted watch.Added) with false.
      change (String.eqb watch.Deleted watch.Modified) with false.
      change (String.eqb watch.Deleted watch.Deleted) with true. cbv iota.
      now rewrite Hnone.
    + intros other changes. unfold handler.
      change (String.eqb watch.Modified watch.Added) with false.
      change (String.eqb watch.Modified watch.Modified) with true. cbv iota.
      rewrite Hnone. change (String.eqb "" "") with true. cbv iota.
      match goal with |- (if ?b then _ else _) = _ → _ => destruct b end;
        intros Hrun; injection Hrun as <-; [constructor | apply Hdel].
    + intros other changes. unfold handler.
      change (String.eqb watch.Modified watch.Added) with false.
      change (String.eqb watch.Modified watch.Modified) with true. cbv iota.
      rewrite Hnone. change (String.eqb "" "") with true. cbv iota.
      match goal with |- (if ?b then _ else _) = _ → _ => destruct b end;
        intros Hrun; injection Hrun as <-; [constructor|].
      rewrite app_nil_r. apply Hup.
Qed.

Lemma C7_witness_first_match_or_none :
  @getTargetForIngress exampleEnv exampleRegistrator ingressA = "private"
  ∧ @handler exampleEnv exampleRegistrator watch.Added None (Some ingressNoTarget)
    = Returned [].
Proof.
  assert (Hnew : @newRegistratorWithOptions exampleEnv exampleOptions
                 = inr exampleRegistrator) by reflexivity.
  split.
  - destruct (@C7_target_selection exampleEnv exampleOptions exampleRegistrator Hnew ingressA)
      as [Htarget _].
    rewrite Htarget. reflexivity.
  - destruct (@C7_target_selection exampleEnv exampleOptions exampleRegistrator Hnew
                ingressNoTarget) as [Htarget Hnone].
    apply Hnone. rewrite Htarget. reflexivity.
Defined.

(** ** The repository's tests and the specification's scenarios *)

Example trim_strips_both_ends :
  strings.Trim "..foo.example.com.." "." = "foo.example.com"
  ∧ strings.TrimRight "..foo.example.com.." "." = "..foo.example.com"
  ∧ strings.ReplaceByte "example.com" "." "\." = "example\.com".
Proof. repeat split; reflexivity. Qed.

(** [TestRegistrator_canHandleRecord] *)
Example test_canHandleRecord :
  @canHandleRecord testZoneEnv "example.com" = false
  ∧ @canHandleRecord testZoneEnv "test.example.org" = false
  ∧ @canHandleRecord testZoneEnv "wrong.test.example.com." = false
  ∧ @canHandleRecord testZoneEnv "test.example.com" = true
  ∧ @canHandleRecord testZoneEnv "test.example.com." = true.
Proof. repeat split; reflexivity. Qed.

(** [Test_getHostnamesFromIngress] *)
Example test_getHostnamesFromIngress :
  getHostnamesFromIngress (mkIngress "" ∅ (mkSpec [mkRule "foo.example.com"]))
  = ["foo.example.com"]
  ∧ getHostnamesFromIngress
      (mkIngress "" ∅ (mkSpec [mkRule "foo.example.com"; mkRule "bar.example.com"]))
    = ["foo.example.com"; "bar.example.com"]
  ∧ getHostnamesFromIngress
      (mkIngress "" ∅ (mkSpec [mkRule "foo.example.com"; mkRule "foo.example.com"]))
    = ["foo.example.com"].
Proof. repeat split; reflexivity. Qed.

(** S1: an added ingress has its two hostnames upserted in one call. *)
Example scenario_S1_added :
  mutatorCalls
    (snd (@processUpdateQueue exampleEnv
            (delivered (@handler exampleEnv exampleRegistrator watch.Added None
                                 (Some ingressA)))
            (mock.start exampleEnv emptyWorld)))
  = [CallUpsertCnames [mkRecord "foo1.example.com" "private";
                       mkRecord "foo2.example.com" "private"]].
Proof. vm_compute. reflexivity. Qed.

(** S2: deleting it while the resolver reports the names absent calls
    nothing. *)
Example scenario_S2_deleted_absent :
  mutatorCalls
    (snd (@processUpdateQueue exampleEnv
            (delivered (@handler exampleEnv exampleRegistrator watch.Deleted
                                 (Some ingressA) None))
            (mock.start exampleEnv emptyWorld)))
  = [].
Proof. vm_compute. reflexivity. Qed.

(** S3: a changed label with the same host gives one upsert, no delete. *)
Example scenario_S3_label_changed :
  mutatorCalls
    (snd (@processUpdateQueue exampleEnv
            (delivered (@handler exampleEnv exampleRegistrator watch.Modified
                                 (Some ingressFooPrivate) (Some ingressFooPublic)))
            exampleState))
  = [CallUpsertCnames [mkRecord "foo.example.com" "public"]].
Proof. vm_compute. reflexivity. Qed.

(** S4: two live ingresses claim one host with different targets; no
    mutator call is made and the rejection counter moves by one. *)
Example scenario_S4_conflict :
  let run :=
    snd (@processUpdateQueue exampleEnv
           [Receive (mkChange "UPSERT" (mkRecord "shared.example.com" "public"));
            Receive (mkChange "UPSERT" (mkRecord "shared.example.com" "private"));
            Idle]
           (mock.start exampleEnv emptyWorld)) in
  mutatorCalls run = [] ∧ metricUpdatesRejected run = 1.
Proof. vm_compute. split; reflexivity. Qed.

(** S6: a host two labels below the apex is rejected by the scope check. *)
Example scenario_S6_out_of_scope :
  let run :=
    snd (@processUpdateQueue exampleEnv
           (delivered (@handler exampleEnv exampleRegistrator watch.Added None
                                (Some ingressDeep)))
           (mock.start exampleEnv emptyWorld)) in
  mutatorCalls run = [] ∧ metricUpdatesRejected run = 1.
Proof. vm_compute. split; reflexivity. Qed.

(** * Further properties of the registrator *)

(** ** Construction ([newRegistratorWithOptions]) *)

Lemma buildSats_error `{Env} (targetLabelName : string) (targets : list string) :
  ∀ (acc : list selectorAndTarget) (err : error),
    buildSats targetLabelName targets acc = inl err →
    ∃ before target after msg,
      targets = before ++ target :: after
      ∧ Forall (fun t => ∃ sel, Parse (targetLabelName ++ "=" ++ t) = Ok sel) before
      ∧ Parse (targetLabelName ++ "=" ++ target) = Failed msg
      ∧ err = errLibrary msg.
Proof.
  induction targets as [|t rest IH]; intros acc err Hb; simpl in Hb; [discriminate|].
  destruct (Parse (targetLabelName ++ "=" ++ t)) as [sel | msg] eqn:Ep.
  - destruct (IH _ _ Hb) as (before & target & after & msg & -> & Hbefore & Hfail & ->).
    exists (t :: before), target, after, msg. repeat split; auto.
    constructor; eauto.
  - injection Hb as <-. exists [], t, rest, msg. repeat split; auto.
Qed.

Lemma buildSats_first_failure `{Env} (targetLabelName : string)
    (before : list string) (target : string) (after : list string) (msg : string) :
  ∀ acc : list selectorAndTarget,
    Forall (fun t => ∃ sel, Parse (targetLabelName ++ "=" ++ t) = Ok sel) before →
    Parse (targetLabelName ++ "=" ++ target) = Failed msg →
    buildSats targetLabelName (before ++ target :: after) acc = inl (errLibrary msg).
Proof.
  induction before as [|t rest IH]; intros acc Hbefore Hfail; simpl.
  - now rewrite Hfail.
  - inversion Hbefore as [|? ? [sel Hsel] Hrest]; subst. rewrite Hsel. now apply IH.
Qed.

Lemma required_options_set `{Env} (opts : registratorOptions) :
  (length (Targets opts) =? 0)%nat || String.eqb (Route53ZoneID opts) ""
  || String.eqb (TargetLabelName opts) "" = false
  ↔ Targets opts ≠ [] ∧ Route53ZoneID opts ≠ EmptyString
    ∧ TargetLabelName opts ≠ EmptyString.
Proof.
  rewrite !orb_false_iff, Nat.eqb_neq, !String.eqb_neq.
  destruct (Targets opts); simpl; split; intros [[? ?] ?] || intros (? & ? & ?);
    repeat split; auto; congruence.
Qed.

Lemma newRegistratorWithOptions_failure `{Env} (opts : registratorOptions) (err : error) :
  newRegistratorWithOptions opts = inl err →
  (err = errRegistratorMissingOption
   ∧ (Targets opts = [] ∨ Route53ZoneID opts = EmptyString
      ∨ TargetLabelName opts = EmptyString))
  ∨ ((∃ msg, err = errLibrary msg)
     ∧ Targets opts ≠ [] ∧ Route53ZoneID opts ≠ EmptyString
     ∧ TargetLabelName opts ≠ EmptyString).
Proof.
  pose proof (required_options_set opts) as Hreq.
  unfold newRegistratorWithOptions. intros Herr.
  destruct ((length (Targets opts) =? 0)%nat || String.eqb (Route53ZoneID opts) ""
            || String.eqb (TargetLabelName opts) "") eqn:Emissing.
  - left. injection Herr as <-. split; [reflexivity|].
    apply orb_true_iff in Emissing as [Emissing | Elabel].
    + apply orb_true_iff in Emissing as [Etargets | Ezone].
      * left. apply Nat.eqb_eq in Etargets. now destruct (Targets opts).
      * right. left. now apply String.eqb_eq.
    + right. right. now apply String.eqb_eq.
  - right. split; [|now apply Hreq].
    destruct (buildSats (TargetLabelName opts) (Targets opts) []) as [e | sats] eqn:Eb.
    + injection Herr as <-.
      apply buildSats_error in Eb as (_ & _ & _ & msg & _ & _ & _ & ->). eauto.
    + destruct (KubernetesConfig opts); [discriminate|].
      destruct InClusterConfig as [c | msg]; [discriminate|].
      injection Herr as <-. eauto.
Qed.

Lemma newRegistratorWithOptions_missing `{Env} (opts : registratorOptions) :
  Targets opts = [] ∨ Route53ZoneID opts = EmptyString
  ∨ TargetLabelName opts = EmptyString →
  newRegistratorWithOptions opts = inl errRegistratorMissingOption.
Proof.
  intros Hmissing. unfold newRegistratorWithOptions.
  destruct ((length (Targets opts) =? 0)%nat || String.eqb (Route53ZoneID opts) ""
            || String.eqb (TargetLabelName opts) "") eqn:Emissing; [reflexivity|].
  apply required_options_set in Emissing as (Ht & Hz & Hl).
  destruct Hmissing as [Habs | [Habs | Habs]]; contradiction.
Qed.

(** X1.  [newRegistratorWithOptions] answers [errRegistratorMissingOption]
    exactly when the target list is empty, the zone id is empty or the
    label name is empty; every other failure carries a library's error
    and happens only with the three required options set. *)
Theorem X1_missing_option `{Env} (opts : registratorOptions) :
  (newRegistratorWithOptions opts = inl errRegistratorMissingOption
   ↔ Targets opts = [] ∨ Route53ZoneID opts = EmptyString
     ∨ TargetLabelName opts = EmptyString)
  ∧ ∀ err, newRegistratorWithOptions opts = inl err →
           err ≠ errRegistratorMissingOption →
           (∃ msg, err = errLibrary msg)
           ∧ Targets opts ≠ [] ∧ Route53ZoneID opts ≠ EmptyString
           ∧ TargetLabelName opts ≠ EmptyString.
Proof.
  split.
  - split; [|apply newRegistratorWithOptions_missing].
    intros Herr.
    destruct (newRegistratorWithOptions_failure opts _ Herr) as [[_ Hm] | [[msg Hmsg] _]];
      [assumption | discriminate].
  - intros err Herr Hne.
    destruct (newRegistratorWithOptions_failure opts _ Herr) as [[Hm _] | Hlib];
      [contradiction | assumption].
Qed.

Lemma X1_witness_no_targets :
  @newRegistratorWithOptions exampleEnv
     (@mkOptions exampleEnv None (Some tt) [] "tier" "Z123" 0%Z)
  = inl errRegistratorMissingOption.
Proof.
  apply (proj1 (@X1_missing_option exampleEnv
                  (@mkOptions exampleEnv None (Some tt) [] "tier" "Z123" 0%Z))).
  left. reflexivity.
Defined.

Lemma built_targets `{Env} (targetLabelName : string) (targets : list string)
    (sats : list selectorAndTarget) :
  Forall2 (builtFor targetLabelName) targets sats →
  List.map sat_Target sats = targets.
Proof.
  induction 1 as [|t sat targets sats [_ Ht] _ IH]; simpl; [reflexivity|].
  now rewrite Ht, IH.
Qed.

(** X2.  A registrator that [newRegistratorWithOptions] returns keeps
    the three required options as given (none of them empty), has one
    selector-and-target pair per target in the order of [Targets], and
    has no optional field left unset: session options and cluster
    configuration are present (the given ones when given) and the
    resync period is the given one, or fifteen minutes when zero was
    given, hence never zero. *)
Theorem X2_constructed_registrator `{Env} (opts : registratorOptions) (r : registrator) :
  newRegistratorWithOptions opts = inr r →
  (Targets (options r) = Targets opts
   ∧ TargetLabelName (options r) = TargetLabelName opts
   ∧ Route53ZoneID (options r) = Route53ZoneID opts)
  ∧ (Targets opts ≠ [] ∧ Route53ZoneID opts ≠ EmptyString
     ∧ TargetLabelName opts ≠ EmptyString)
  ∧ List.map sat_Target (sats r) = Targets opts
  ∧ (is_Some (AWSSessionOptions (options r))
     ∧ ∀ o, AWSSessionOptions opts = Some o → AWSSessionOptions (options r) = Some o)
  ∧ (is_Some (KubernetesConfig (options r))
     ∧ ∀ c, KubernetesConfig opts = Some c → KubernetesConfig (options r) = Some c)
  ∧ (ResyncPeriod (options r) ≠ 0%Z
     ∧ (ResyncPeriod opts ≠ 0%Z → ResyncPeriod (options r) = ResyncPeriod opts)
     ∧ (ResyncPeriod opts = 0%Z → ResyncPeriod (options r) = defaultResyncPeriod)).
Proof.
  intros Hnew.
  destruct (newRegistratorWithOptions_sats opts r Hnew) as (_ & _ & Hsats).
  apply built_targets in Hsats.
  unfold newRegistratorWithOptions in Hnew.
  destruct ((length (Targets opts) =? 0)%nat || String.eqb (Route53ZoneID opts) ""
            || String.eqb (TargetLabelName opts) "") eqn:Emissing; [discriminate|].
  apply required_options_set in Emissing.
  destruct (buildSats (TargetLabelName opts) (Targets opts) []) as [e | built];
    [discriminate|].
  assert (Hresync : ∀ z, (if (z =? 0)%Z then defaultResyncPeriod else z) ≠ 0%Z
                         ∧ (z ≠ 0%Z → (if (z =? 0)%Z then defaultResyncPeriod else z) = z)
                         ∧ (z = 0%Z → (if (z =? 0)%Z then defaultResyncPeriod else z)
                                      = defaultResyncPeriod)).
  { intros z. destruct (z =? 0)%Z eqn:Ez.
    - apply Z.eqb_eq in Ez. subst z. repeat split; [discriminate | congruence].
    - apply Z.eqb_neq in Ez. repeat split; [assumption | congruence]. }
  assert (Haws : ∀ a : option SessionOptions,
             is_Some (match a with Some o => Some o | None => Some emptySessionOptions end)
             ∧ ∀ o, a = Some o
                    → match a with Some o => Some o | None => Some emptySessionOptions end
                      = Some o).
  { intros [o|]; split; eauto; intros o' Ho; congruence. }
  destruct (KubernetesConfig opts) as [c|] eqn:Ekube.
  - injection Hnew as <-. simpl in *.
    repeat split; try tauto; try apply Hresync; try apply Haws; eauto.
  - destruct InClusterConfig as [c | msg]; [|discriminate].
    injection Hnew as <-. simpl in *.
    repeat split; try tauto; try apply Hresync; try apply Haws; eauto.
    intros c' Hc'. discriminate.
Qed.

Lemma X2_witness_defaults_filled :
  ResyncPeriod (@options exampleEnv exampleRegistrator) = defaultResyncPeriod
  ∧ List.map sat_Target (@sats exampleEnv exampleRegistrator) = ["public"; "private"].
Proof.
  destruct (@X2_constructed_registrator exampleEnv exampleOptions exampleRegistrator eq_refl)
    as (_ & _ & Hsats & _ & _ & _ & _ & Hdefault).
  split; [now apply Hdefault | exact Hsats].
Defined.

(** X3.  With the three required options set, the first target of the
    list whose selector does not parse makes [newRegistratorWithOptions]
    fail with the parser's error, whatever the cluster configuration:
    the in-cluster lookup is not reached. *)
Theorem X3_selector_parse_error `{Env} (opts : registratorOptions)
    (before : list string) (target : string) (after : list string) (msg : string) :
  Route53ZoneID opts ≠ EmptyString →
  TargetLabelName opts ≠ EmptyString →
  Targets opts = before ++ target :: after →
  Forall (fun t => ∃ sel, Parse (TargetLabelName opts ++ "=" ++ t) = Ok sel) before →
  Parse (TargetLabelName opts ++ "=" ++ target) = Failed msg →
  newRegistratorWithOptions opts = inl (errLibrary msg).
Proof.
  intros Hz Hl Ht Hbefore Hfail. unfold newRegistratorWithOptions.
  assert (Hreq : (length (Targets opts) =? 0)%nat || String.eqb (Route53ZoneID opts) ""
                 || String.eqb (TargetLabelName opts) "" = false).
  { apply required_options_set. repeat split; auto. rewrite Ht. now destruct before. }
  rewrite Hreq, Ht.
  now rewrite (buildSats_first_failure _ before target after msg) by assumption.
Qed.

Lemma X3_witness_caret_in_second_target :
  @newRegistratorWithOptions outsideClusterEnv
     (@mkOptions outsideClusterEnv None None ["public"; "a^b"; "private"] "tier" "Z123" 0%Z)
  = inl (errLibrary "invalid selector").
Proof.
  apply (@X3_selector_parse_error outsideClusterEnv
           (@mkOptions outsideClusterEnv None None ["public"; "a^b"; "private"]
                       "tier" "Z123" 0%Z)
           ["public"] "a^b" ["private"] "invalid selector").
  - discriminate.
  - discriminate.
  - reflexivity.
  - constructor; [|constructor]. exists ("tier", "public"). reflexivity.
  - reflexivity.
Defined.

(** ** Target selection ([getTargetForIngress]) *)

Lemma find_default_elem (f : string -> bool) (l : list string) :
  default EmptyString (List.find f l) = EmptyString
  ∨ (default EmptyString (List.find f l) ∈ l
     ∧ f (default EmptyString (List.find f l)) = true).
Proof.
  destruct (List.find f l) as [x|] eqn:Ef; simpl; [|now left].
  apply List.find_some in Ef as [Hin Hf]. right. split; [|assumption].
  now apply list_elem_of_In.
Qed.

Lemma getTargetForIngress_configured `{Env} (opts : registratorOptions) (r : registrator)
    (ingress : Ingress) :
  newRegistratorWithOptions opts = inr r →
  getTargetForIngress r ingress = EmptyString
  ∨ (getTargetForIngress r ingress ∈ Targets opts
     ∧ selectorMatches (TargetLabelName opts) (Labels ingress)
                       (getTargetForIngress r ingress) = true).
Proof.
  intros Hnew.
  destruct (newRegistratorWithOptions_sats opts r Hnew) as (_ & _ & Hsats).
  unfold getTargetForIngress.
  rewrite (getTargetForIngress_loop_find _ _ _ ingress Hsats).
  apply find_default_elem.
Qed.

(** X4.  The target [getTargetForIngress] returns for a constructed
    registrator is never a stranger: it is the empty string or one of
    the configured [Targets], and in the latter case the selector built
    for that target does match the ingress's labels. *)
Theorem X4_target_is_configured `{Env} (opts : registratorOptions) (r : registrator)
    (ingress : Ingress) :
  newRegistratorWithOptions opts = inr r →
  getTargetForIngress r ingress = EmptyString
  ∨ (getTargetForIngress r ingress ∈ Targets opts
     ∧ selectorMatches (TargetLabelName opts) (Labels ingress)
                       (getTargetForIngress r ingress) = true).
Proof.
  intros Hnew.
  destruct (newRegistratorWithOptions_sats opts r Hnew) as (_ & _ & Hsats).
  unfold getTargetForIngress.
  rewrite (getTargetForIngress_loop_find _ _ _ ingress Hsats).
  destruct (List.find (selectorMatches (TargetLabelName opts) (Labels ingress))
                      (Targets opts)) as [target|] eqn:Efind; simpl; [|now left].
  apply List.find_some in Efind as [Hin Hmatch]. right.
  split; [now apply list_elem_of_In | assumption].
Qed.

Lemma X4_witness_private_is_configured :
  @getTargetForIngress exampleEnv exampleRegistrator ingressA
  ∈ @Targets exampleEnv exampleOptions.
Proof.
  destruct (@X4_target_is_configured exampleEnv exampleOptions exampleRegistrator ingressA
              eq_refl) as [Hnone | [Hin _]].
  - discriminate Hnone.
  - exact Hin.
Defined.

(** ** The event handler, continued *)

Lemma queueUpdates_elem (action : string) (hostnames : list string) (target : string)
    (c : cnameChange) :
  c ∈ queueUpdates action hostnames target
  ↔ ∃ h, h ∈ hostnames ∧ c = mkChange action (mkRecord h target).
Proof.
  induction hostnames as [|h rest IH]; simpl.
  - split; [intros Hc; inversion Hc | intros (h & Hh & _); inversion Hh].
  - rewrite elem_of_cons, IH. split.
    + intros [-> | (h' & Hh' & ->)]; [exists h | exists h']; split; auto; [left | now right].
    + intros (h' & Hh' & ->). inversion Hh'; subst; [now left | right; eauto].
Qed.

(** What a guarded call of [queueUpdates] in the handler sends. *)
Lemma guarded_queueUpdates_elem (action target : string) (hostnames : list string)
    (c : cnameChange) :
  c ∈ (if String.eqb target "" then []
       else if (length hostnames =? 0)%nat then []
            else queueUpdates action hostnames target)
  ↔ target ≠ EmptyString
    ∧ ∃ h, h ∈ hostnames ∧ c = mkChange action (mkRecord h target).
Proof.
  destruct (String.eqb target "") eqn:Et.
  - apply String.eqb_eq in Et. split; [intros Hc; inversion Hc | intros [Hne _]; contradiction].
  - apply String.eqb_neq in Et.
    destruct hostnames as [|h0 rest]; simpl Nat.eqb; cbv iota.
    + split; [intros Hc; inversion Hc | intros (_ & h & Hh & _); inversion Hh].
    + rewrite queueUpdates_elem. tauto.
Qed.

(** Where each change a handler call sends comes from. *)
Lemma handler_elem `{Env} (r : registrator) (eventType : string)
    (oldIngress newIngress : option Ingress) (changes : list cnameChange)
    (c : cnameChange) :
  handler r eventType oldIngress newIngress = Returned changes →
  c ∈ changes →
  (∃ ingress h,
      newIngress = Some ingress
      ∧ h ∈ getHostnamesFromIngress ingress
      ∧ getTargetForIngress r ingress ≠ EmptyString
      ∧ c = mkChange route53.ChangeActionUpsert
                     (mkRecord h (getTargetForIngress r ingress)))
  ∨ (∃ ingress h,
        oldIngress = Some ingress
        ∧ h ∈ getHostnamesFromIngress ingress
        ∧ getTargetForIngress r ingress ≠ EmptyString
        ∧ (∀ ingress', eventType = watch.Modified → newIngress = Some ingress' →
                       h ∉ getHostnamesFromIngress ingress')
        ∧ c = mkChange route53.ChangeActionDelete
                       (mkRecord h (getTargetForIngress r ingress))).
Proof.
  unfold handler. intros Hrun Hc.
  destruct (String.eqb eventType watch.Added) eqn:Eadd.
  { destruct newIngress as [n|]; [|discriminate].
    assert (Hsent : changes
                    = if String.eqb (getTargetForIngress r n) "" then []
                      else if (length (getHostnamesFromIngress n) =? 0)%nat then []
                           else queueUpdates route53.ChangeActionUpsert
                                             (getHostnamesFromIngress n)
                                             (getTargetForIngress r n)).
    { destruct (String.eqb (getTargetForIngress r n) "");
        [|destruct (length (getHostnamesFromIngress n) =? 0)%nat]; congruence. }
    rewrite Hsent in Hc. apply guarded_queueUpdates_elem in Hc as (Hne & h & Hh & ->).
    left. exists n, h. auto. }
  destruct (String.eqb eventType watch.Modified) eqn:Emod.
  { destruct newIngress as [n|]; [|discriminate].
    destruct oldIngress as [o|]; [|discriminate].
    match type of Hrun with (if ?b then _ else _) = _ => destruct b end;
      injection Hrun as <-; [inversion Hc|].
    apply elem_of_app in Hc as [Hc | Hc];
      apply guarded_queueUpdates_elem in Hc as (Hne & h & Hh & ->).
    - left. exists n, h. auto.
    - right. apply diffStringSlices_elem in Hh as [Hold Hnew].
      exists o, h. repeat split; auto. intros n' _ Hn'. now injection Hn' as <-. }
  destruct (String.eqb eventType watch.Deleted) eqn:Edel.
  { destruct oldIngress as [o|]; [|discriminate].
    assert (Hsent : changes
                    = if String.eqb (getTargetForIngress r o) "" then []
                      else if (length (getHostnamesFromIngress o) =? 0)%nat then []
                           else queueUpdates route53.ChangeActionDelete
                                             (getHostnamesFromIngress o)
                                             (getTargetForIngress r o)).
    { destruct (String.eqb (getTargetForIngress r o) "");
        [|destruct (length (getHostnamesFromIngress o) =? 0)%nat]; congruence. }
    rewrite Hsent in Hc. apply guarded_queueUpdates_elem in Hc as (Hne & h & Hh & ->).
    right. exists o, h. repeat split; auto.
    intros n' Hmod. rewrite Hmod in Emod. discriminate. }
  injection Hrun as <-. inversion Hc.
Qed.

(** X5.  Whatever the event, every change the handler of a constructed
    registrator enqueues is an UPSERT or a DELETE whose target is
    non-empty and one of the configured targets, and whose hostname is a
    hostname of the ingress it was derived from: the new one for an
    UPSERT, the old one for a DELETE. *)
Theorem X5_handler_enqueues_configured_targets `{Env} (opts : registratorOptions)
    (r : registrator) (eventType : string) (oldIngress newIngress : option Ingress)
    (changes : list cnameChange) :
  newRegistratorWithOptions opts = inr r →
  handler r eventType oldIngress newIngress = Returned changes →
  Forall (fun c =>
            validAction c
            ∧ Target (Record_ c) ≠ EmptyString
            ∧ Target (Record_ c) ∈ Targets opts
            ∧ ∃ ingress,
                (if String.eqb (Action c) route53.ChangeActionDelete
                 then oldIngress else newIngress) = Some ingress
                ∧ Hostname (Record_ c) ∈ getHostnamesFromIngress ingress)
         changes.
Proof.
  intros Hnew Hrun. apply Forall_forall. intros c Hc.
  destruct (handler_elem r eventType oldIngress newIngress changes c Hrun Hc)
    as [(ing & h & Hing & Hh & Hne & ->) | (ing & h & Hing & Hh & Hne & _ & ->)]; simpl.
  - split; [now left|]. split; [assumption|]. split; [|eauto].
    destruct (getTargetForIngress_configured opts r ing Hnew) as [Habs | [Hin _]];
      [contradiction | assumption].
  - split; [now right|]. split; [assumption|]. split; [|eauto].
    destruct (getTargetForIngress_configured opts r ing Hnew) as [Habs | [Hin _]];
      [contradiction | assumption].
Qed.

Lemma X5_witness_added_ingress :
  Forall (fun c => Target (Record_ c) ∈ ["public"; "private"])
         [mkChange "UPSERT" (mkRecord "foo1.example.com" "private");
          mkChange "UPSERT" (mkRecord "foo2.example.com" "private")].
Proof.
  assert (Hrun : @handler exampleEnv exampleRegistrator watch.Added None (Some ingressA)
                 = Returned [mkChange "UPSERT" (mkRecord "foo1.example.com" "private");
                             mkChange "UPSERT" (mkRecord "foo2.example.com" "private")])
    by reflexivity.
  pose proof (@X5_handler_enqueues_configured_targets exampleEnv exampleOptions
                exampleRegistrator watch.Added None (Some ingressA) _ eq_refl Hrun) as Hall.
  eapply Forall_impl; [exact Hall|]. intros c (_ & _ & Hin & _). exact Hin.
Defined.

Lemma diffStringSlices_nil (a b : list string) :
  diffStringSlices a b = [] ↔ ∀ x, x ∈ a → x ∈ b.
Proof.
  split.
  - intros Hnil x Hx. destruct (stringInSlice x b) eqn:Ein.
    + now apply stringInSlice_elem.
    + assert (Hd : x ∈ diffStringSlices a b).
      { apply diffStringSlices_elem. split; [assumption|].
        intros Hin. apply stringInSlice_elem in Hin. congruence. }
      rewrite Hnil in Hd. inversion Hd.
  - intros Hsub. destruct (diffStringSlices a b) as [|x rest] eqn:Ed; [reflexivity|].
    assert (Hx : x ∈ diffStringSlices a b) by (rewrite Ed; left).
    apply diffStringSlices_elem in Hx as [Hin Hnot]. now apply Hsub in Hin.
Qed.

(** X6.  [diffStringSlices a b] is empty exactly when every element of
    [a] occurs in [b].  So on a MODIFIED event whose old hostnames all
    remain in the new ingress and whose target label value is unchanged,
    the handler enqueues nothing, also when the new ingress lists
    hostnames the old one did not have: those are not upserted by this
    event. *)
Theorem X6_added_hostnames_not_enqueued `{Env} (r : registrator)
    (oldIngress newIngress : Ingress) :
  (∀ a b, diffStringSlices a b = [] ↔ ∀ x, x ∈ a → x ∈ b)
  ∧ ((∀ h, h ∈ getHostnamesFromIngress oldIngress → h ∈ getHostnamesFromIngress newIngress) →
     labelValue (Labels newIngress) (TargetLabelName (options r))
     = labelValue (Labels oldIngress) (TargetLabelName (options r)) →
     handler r watch.Modified (Some oldIngress) (Some newIngress) = Returned []).
Proof.
  split; [apply diffStringSlices_nil|].
  intros Hsub Hlabel. unfold handler.
  change (String.eqb watch.Modified watch.Added) with false.
  change (String.eqb watch.Modified watch.Modified) with true. cbv iota.
  rewrite (proj2 (diffStringSlices_nil _ _) Hsub), Hlabel, String.eqb_refl. reflexivity.
Qed.

Lemma X6_witness_third_host_added :
  "foo3.example.com" ∈ getHostnamesFromIngress ingressAMore
  ∧ @handler exampleEnv exampleRegistrator watch.Modified (Some ingressA) (Some ingressAMore)
    = Returned [].
Proof.
  split; [vm_compute; right; right; left|].
  destruct (@X6_added_hostnames_not_enqueued exampleEnv exampleRegistrator
              ingressA ingressAMore) as [_ Hguard].
  apply Hguard; [|reflexivity].
  intros h Hh. vm_compute in Hh. vm_compute.
  apply elem_of_cons in Hh as [-> | Hh]; [left|].
  apply elem_of_cons in Hh as [-> | Hh]; [right; left | inversion Hh].
Defined.

(** X7.  On a MODIFIED event the handler sends its UPSERTs first and its
    DELETEs after them; the UPSERTs carry hostnames of the new ingress,
    the DELETEs hostnames of the old ingress that the new one no longer
    has.  Hence no hostname is both upserted and deleted by one event. *)
Theorem X7_modified_upserts_then_deletes `{Env} (r : registrator)
    (oldIngress newIngress : Ingress) (changes : list cnameChange) :
  handler r watch.Modified (Some oldIngress) (Some newIngress) = Returned changes →
  (∃ upserts deletes,
      changes = upserts ++ deletes
      ∧ Forall (fun c => Action c = route53.ChangeActionUpsert
                         ∧ Hostname (Record_ c) ∈ getHostnamesFromIngress newIngress)
               upserts
      ∧ Forall (fun c => Action c = route53.ChangeActionDelete
                         ∧ Hostname (Record_ c) ∈ getHostnamesFromIngress oldIngress
                         ∧ Hostname (Record_ c) ∉ getHostnamesFromIngress newIngress)
               deletes)
  ∧ ∀ c1 c2, c1 ∈ changes → c2 ∈ changes →
             Action c1 = route53.ChangeActionUpsert →
             Action c2 = route53.ChangeActionDelete →
             Hostname (Record_ c1) ≠ Hostname (Record_ c2).
Proof.
  intros Hrun.
  assert (Hsplit : ∃ upserts deletes,
             changes = upserts ++ deletes
             ∧ Forall (fun c => Action c = route53.ChangeActionUpsert
                                ∧ Hostname (Record_ c) ∈ getHostnamesFromIngress newIngress)
                      upserts
             ∧ Forall (fun c => Action c = route53.ChangeActionDelete
                                ∧ Hostname (Record_ c) ∈ getHostnamesFromIngress oldIngress
                                ∧ Hostname (Record_ c) ∉ getHostnamesFromIngress newIngress)
                      deletes).
  { unfold handler in Hrun.
    change (String.eqb watch.Modified watch.Added) with false in Hrun.
    change (String.eqb watch.Modified watch.Modified) with true in Hrun. cbv iota in Hrun.
    match type of Hrun with (if ?b then _ else _) = _ => destruct b end;
      injection Hrun as <-.
    - exists [], []. repeat split; constructor.
    - eexists _, _. split; [reflexivity|]. split; apply Forall_forall; intros c Hc;
        apply guarded_queueUpdates_elem in Hc as (_ & h & Hh & ->); simpl.
      + now split.
      + apply diffStringSlices_elem in Hh as [Hold Hnew]. now repeat split. }
  split; [exact Hsplit|].
  destruct Hsplit as (ups & dels & -> & Hups & Hdels).
  rewrite Forall_forall in Hups, Hdels.
  intros c1 c2 Hc1 Hc2 Ha1 Ha2 Heq.
  apply elem_of_app in Hc1 as [Hc1 | Hc1];
    [|destruct (Hdels _ Hc1) as [Hd _]; rewrite Hd in Ha1; discriminate].
  apply elem_of_app in Hc2 as [Hc2 | Hc2];
    [destruct (Hups _ Hc2) as [Hu _]; rewrite Hu in Ha2; discriminate|].
  destruct (Hups _ Hc1) as [_ Hin]. destruct (Hdels _ Hc2) as (_ & _ & Hnot).
  rewrite Heq in Hin. contradiction.
Qed.

Lemma X7_witness_one_host_replaced :
  ∃ upserts deletes,
    [mkChange "UPSERT" (mkRecord "foo1.example.com" "private");
     mkChange "UPSERT" (mkRecord "foo9.example.com" "private");
     mkChange "DELETE" (mkRecord "foo2.example.com" "private")]
    = upserts ++ deletes
    ∧ Forall (fun c => Action c = route53.ChangeActionUpsert) upserts
    ∧ Forall (fun c => Action c = route53.ChangeActionDelete) deletes.
Proof.
  assert (Hrun : @handler exampleEnv exampleRegistrator watch.Modified
                          (Some ingressA) (Some ingressASwapped)
                 = Returned [mkChange "UPSERT" (mkRecord "foo1.example.com" "private");
                             mkChange "UPSERT" (mkRecord "foo9.example.com" "private");
                             mkChange "DELETE" (mkRecord "foo2.example.com" "private")])
    by reflexivity.
  destruct (@X7_modified_upserts_then_deletes exampleEnv exampleRegistrator
              ingressA ingressASwapped _ Hrun) as [(ups & dels & Heq & Hups & Hdels) _].
  exists ups, dels. split; [exact Heq|]. split.
  - eapply Forall_impl; [exact Hups|]. now intros c [Ha _].
  - eapply Forall_impl; [exact Hdels|]. now intros c [Ha _].
Defined.

(** ** Deduplication, continued *)

Lemma sublist_full {A : Type} (l1 l2 : list A) :
  l1 `sublist_of` l2 → (length l2 ≤ length l1)%nat → l1 = l2.
Proof.
  induction 1 as [|x l1 l2 Hsub IH|x l1 l2 Hsub IH]; simpl; intros Hlen.
  - reflexivity.
  - f_equal. apply IH. lia.
  - apply sublist_length in Hsub. lia.
Qed.

(** A sublist that holds every element of a duplicate-free list is the
    list itself. *)
Lemma sublist_covering {A : Type} (l1 l2 : list A) :
  l1 `sublist_of` l2 → NoDup l2 → (∀ x, x ∈ l2 → x ∈ l1) → l1 = l2.
Proof.
  intros Hsub Hnodup Hcover. apply sublist_full; [assumption|].
  apply submseteq_length, NoDup_submseteq; assumption.
Qed.

Lemma NoDup_hostnames (records : list cnameRecord) :
  NoDup (List.map Hostname records) →
  NoDup records
  ∧ ∀ a b, a ∈ records → b ∈ records → Hostname a = Hostname b → a = b.
Proof.
  induction records as [|r rest IH]; simpl; intros Hnodup.
  - split; [constructor | intros a b Ha; inversion Ha].
  - apply NoDup_cons in Hnodup as [Hr Hrest]. destruct (IH Hrest) as [Hnd Hinj].
    split.
    + apply NoDup_cons. split; [|assumption].
      intros Hin. apply Hr. now apply hostname_of_elem.
    + intros a b Ha Hb Hab.
      apply elem_of_cons in Ha as [-> | Ha]; apply elem_of_cons in Hb as [-> | Hb].
      * reflexivity.
      * exfalso. apply Hr. rewrite Hab. now apply hostname_of_elem.
      * exfalso. apply Hr. rewrite <- Hab. now apply hostname_of_elem.
      * now apply Hinj.
Qed.

Lemma uniqueRecords_loop_distinct (records : list cnameRecord) :
  NoDup (List.map Hostname records) →
  uniqueRecords_loop records records 0 [] [] = (records, []).
Proof.
  intros Hnodup. pose proof (uniqueRecords_loop_spec records) as Hinv.
  destruct (uniqueRecords_loop records records 0 [] []) as [uniq rej]. simpl in Hinv.
  destruct (NoDup_hostnames records Hnodup) as [Hnd Hinj].
  assert (Hsame : ∀ h, sameTargets h records).
  { intros h r1 r2 Hr1 Hr2 H1 H2. f_equal. apply Hinj; congruence. }
  assert (Hrej : rej = []).
  { destruct rej as [|h rej']; [reflexivity|].
    destruct (inv_rej _ _ _ _ Hinv h) as [_ Hbad]; [left|]. exfalso. apply Hbad, Hsame. }
  f_equal; [|assumption].
  apply sublist_covering; [apply (inv_sublist _ _ _ _ Hinv) | assumption |].
  intros r Hr.
  destruct (inv_cover _ _ _ _ Hinv (Hostname r)) as [Hin | Hin];
    [now apply hostname_of_elem | subst rej; inversion Hin |].
  apply list_elem_of_In, in_map_iff in Hin as (r' & Hname & Hr').
  apply list_elem_of_In in Hr'.
  assert (r' = r) as <-; [|assumption].
  apply Hinj; [|assumption|assumption].
  eapply elem_of_sublist; [exact Hr' | apply (inv_sublist _ _ _ _ Hinv)].
Qed.

(** X8.  A batch in which no two records share a hostname goes through
    [uniqueRecords] untouched: the same records, in the same order, and
    [metricUpdatesRejected] does not move.  Hence [uniqueRecords] is
    idempotent: run on its own result, it returns that result and
    counts nothing. *)
Theorem X8_uniqueRecords_keeps_distinct_batch `{Env} (records : list cnameRecord)
    (st : state) :
  (NoDup (List.map Hostname records) →
   uniqueRecords records st = (Returned records, st))
  ∧ ∃ uniq st1,
      uniqueRecords records st = (Returned uniq, st1)
      ∧ uniqueRecords uniq st1 = (Returned uniq, st1).
Proof.
  assert (Hid : ∀ l s, NoDup (List.map Hostname l) →
                       uniqueRecords l s = (Returned l, s)).
  { intros l s Hnodup. rewrite uniqueRecords_run, uniqueRecords_loop_distinct by assumption.
    simpl. now rewrite rejectedMore_0. }
  split; [apply Hid|].
  rewrite uniqueRecords_run. eexists _, _. split; [reflexivity|].
  apply Hid. apply (inv_uniq_nodup _ _ _ _ (uniqueRecords_loop_spec records)).
Qed.

Lemma X8_witness_three_distinct_records :
  @uniqueRecords exampleEnv
    [mkRecord "a.example.com" "public"; mkRecord "b.example.com" "private";
     mkRecord "c.example.com" "public"] exampleState
  = (Returned [mkRecord "a.example.com" "public"; mkRecord "b.example.com" "private";
               mkRecord "c.example.com" "public"], exampleState).
Proof.
  destruct (@X8_uniqueRecords_keeps_distinct_batch exampleEnv
              [mkRecord "a.example.com" "public"; mkRecord "b.example.com" "private";
               mkRecord "c.example.com" "public"] exampleState) as [Hsame _].
  apply Hsame. simpl.
  apply (bool_decide_unpack _). vm_compute. exact I.
Defined.

Lemma conflict_found (h : string) (records : list cnameRecord) :
  ¬ sameTargets h records → conflictAt h records.
Proof.
  intros Hnot.
  destruct (decide (Exists (fun r1 => Exists (fun r2 =>
              Hostname r1 = h ∧ Hostname r2 = h ∧ Target r1 ≠ Target r2) records)
              records)) as [Hex | Hnex].
  - apply Exists_exists in Hex as (r1 & Hr1 & Hex).
    apply Exists_exists in Hex as (r2 & Hr2 & H1 & H2 & Hne).
    exists r1, r2. auto.
  - exfalso. apply Hnot. intros r1 r2 Hr1 Hr2 H1 H2.
    destruct (decide (Target r1 = Target r2)) as [Heq | Hne]; [assumption|].
    exfalso. apply Hnex. apply Exists_exists. exists r1. split; [assumption|].
    apply Exists_exists. exists r2. auto.
Qed.

Lemma two_elements {A : Type} (a b : A) (l : list A) :
  a ∈ l → b ∈ l → a ≠ b → (2 ≤ length l)%nat.
Proof.
  intros Ha Hb Hne. destruct l as [|x [|y l]]; simpl; [inversion Ha | | lia].
  apply list_elem_of_singleton in Ha, Hb. congruence.
Qed.

Lemma filter_keeps_sublist {A : Type} (f : A -> bool) (l1 l2 : list A) :
  l1 `sublist_of` l2 → (∀ x, x ∈ l1 → f x = true) → l1 `sublist_of` List.filter f l2.
Proof.
  induction 1 as [|x l1 l2 Hsub IH|x l1 l2 Hsub IH]; simpl; intros Hall.
  - constructor.
  - rewrite (Hall x) by left. constructor. apply IH. intros y Hy. apply Hall. now right.
  - destruct (f x); [constructor|]; now apply IH.
Qed.

(** The records named by a list of hostnames of which each is in
    conflict: at least two per hostname. *)
Lemma conflicting_records_count (records : list cnameRecord) (rej : list string) :
  NoDup rej →
  (∀ h, h ∈ rej → conflictAt h records) →
  (2 * length rej
   ≤ length (List.filter (fun r => stringInSlice (Hostname r) rej) records))%nat.
Proof.
  induction rej as [|h rej IH]; intros Hnodup Hconf; [simpl; lia|].
  apply NoDup_cons in Hnodup as [Hh Hnodup].
  assert (Hsplit : ∀ l,
             length (List.filter (fun r => stringInSlice (Hostname r) (h :: rej)) l)
             = length (List.filter (fun r => String.eqb (Hostname r) h) l)
               + length (List.filter (fun r => stringInSlice (Hostname r) rej) l)).
  { induction l as [|r l IHl]; [reflexivity|]. cbn [List.filter].
    change (stringInSlice (Hostname r) (h :: rej))
      with (if String.eqb (Hostname r) h then true else stringInSlice (Hostname r) rej).
    destruct (String.eqb (Hostname r) h) eqn:E.
    - apply String.eqb_eq in E.
      destruct (stringInSlice (Hostname r) rej) eqn:Ein.
      + apply stringInSlice_elem in Ein. rewrite E in Ein. contradiction.
      + cbn [length]. rewrite IHl. lia.
    - destruct (stringInSlice (Hostname r) rej); cbn [length]; rewrite IHl; lia. }
  rewrite Hsplit.
  assert (Hrest : (2 * length rej
                   ≤ length (List.filter (fun r => stringInSlice (Hostname r) rej)
                                         records))%nat).
  { apply IH; [assumption|]. intros h' Hh'. apply Hconf. now right. }
  destruct (Hconf h) as (r1 & r2 & Hr1 & Hr2 & H1 & H2 & Hne); [left|].
  assert (Hin : ∀ r, r ∈ records → Hostname r = h →
                     r ∈ List.filter (fun r => String.eqb (Hostname r) h) records).
  { intros r Hr Hname. apply list_elem_of_In, filter_In. split.
    - now apply list_elem_of_In.
    - now apply String.eqb_eq. }
  pose proof (two_elements r1 r2 _ (Hin r1 Hr1 H1) (Hin r2 Hr2 H2)) as Htwo.
  assert (Hdiff : r1 ≠ r2) by congruence. specialize (Htwo Hdiff).
  cbn [length]. lia.
Qed.

(** The survivors and, twice over, the rejected hostnames fit in the
    batch. *)
Lemma uniqueRecords_loop_count (records : list cnameRecord) :
  (length (fst (uniqueRecords_loop records records 0 [] []))
   + 2 * length (snd (uniqueRecords_loop records records 0 [] []))
   ≤ length records)%nat.
Proof.
  pose proof (uniqueRecords_loop_spec records) as Hinv.
  destruct (uniqueRecords_loop records records 0 [] []) as [uniq rej]. simpl in *.
  set (named := fun r : cnameRecord => stringInSlice (Hostname r) rej).
  rewrite <- (List.filter_length named records).
  assert (Hrej : (2 * length rej ≤ length (List.filter named records))%nat).
  { apply conflicting_records_count; [apply (inv_rej_nodup _ _ _ _ Hinv)|].
    intros h Hh. apply conflict_found. now apply (inv_rej _ _ _ _ Hinv). }
  assert (Huniq : (length uniq
                   ≤ length (List.filter (fun r => negb (named r)) records))%nat).
  { apply sublist_length, filter_keeps_sublist; [apply (inv_sublist _ _ _ _ Hinv)|].
    intros r Hr. apply negb_true_iff. destruct (named r) eqn:E; [|reflexivity].
    exfalso. apply stringInSlice_elem in E.
    destruct (inv_rej _ _ _ _ Hinv _ E) as [_ Hbad].
    now destruct (inv_uniq _ _ _ _ Hinv r Hr). }
  lia.
Qed.

(** X9.  Each rejection [uniqueRecords] counts stands for at least two
    records it dropped: the survivors plus twice the growth of
    [metricUpdatesRejected] never exceed the size of the batch.  So the
    counter grows by at most half the number of dropped records, and
    not at all when every record survives. *)
Theorem X9_rejections_undercount_dropped_records `{Env} (records : list cnameRecord)
    (st : state) :
  ∃ uniq st',
    uniqueRecords records st = (Returned uniq, st')
    ∧ (metricUpdatesRejected st ≤ metricUpdatesRejected st')%nat
    ∧ (length uniq + 2 * (metricUpdatesRejected st' - metricUpdatesRejected st)
       ≤ length records)%nat.
Proof.
  rewrite uniqueRecords_run. pose proof (uniqueRecords_loop_count records) as Hcount.
  destruct (uniqueRecords_loop records records 0 [] []) as [uniq rej].
  cbn [fst snd] in Hcount.
  exists uniq, (rejectedMore (length rej) st). split; [reflexivity|].
  unfold rejectedMore. cbn [metricUpdatesRejected].
  split; lia.
Qed.

(** ** Trimming and the scope check, continued *)










Lemma dots_app (a b : string) : dots (a ++ b) = dots a + dots b.
Proof. induction a as [|c a IH]; simpl; [reflexivity | rewrite IH; lia]. Qed.

Lemma dots_dotFree (label : string) : dotFree label → dots label = 0.
Proof.
  induction label as [|c label IH]; [reflexivity|].
  intros Hfree. apply dotFree_cons in Hfree as [Hc Hrest].
  cbn [dots]. rewrite Hc. now rewrite IH.
Qed.

(** X11.  Under the hypotheses of the scope check's characterisation
    (the apex is made of dots and plain bytes, and [regexp.MatchString]
    behaves as modelled), an accepted hostname, once trimmed, has exactly
    one dot more than the trimmed apex: it lies exactly one label below
    the apex.  In particular the apex itself is never accepted. *)
Theorem X11_accepted_one_label_below_apex `{Env} :
  (∀ p s, MatchString p s = regexp.MatchString p s) →
  plainZone (strings.Trim Domain ".") = true →
  (∀ record, canHandleRecord record = true →
             dots (strings.Trim record ".") = S (dots (strings.Trim Domain ".")))
  ∧ canHandleRecord Domain = false.
Proof.
  intros Hmodel Hplain.
  assert (Hdepth : ∀ record, canHandleRecord record = true →
                             dots (strings.Trim record ".")
                             = S (dots (strings.Trim Domain "."))).
  { intros record Hok.
    apply (canHandleRecord_form Hmodel Hplain) in Hok as (label & _ & Hfree & ->).
    rewrite dots_app, (dots_dotFree label Hfree). reflexivity. }
  split; [exact Hdepth|].
  destruct (canHandleRecord Domain) eqn:Eapex; [|reflexivity].
  apply Hdepth in Eapex. lia.
Qed.

Lemma X11_witness_test_zone :
  @canHandleRecord testZoneEnv "example.com" = false
  ∧ dots "test.example.com" = 2.
Proof.
  destruct (@X11_accepted_one_label_below_apex testZoneEnv) as [Hdepth Hapex];
    [reflexivity | reflexivity |].
  split; [exact Hapex|]. apply (Hdepth "test.example.com"). vm_compute. reflexivity.
Defined.

(** ** The resolver, continued *)

(** Either no server of the list answers, or there is a first one whose
    answer section is not empty. *)
Lemma first_answer_split `{Env} (name : string) (w : World) (nameservers : list string) :
  (∀ x, x ∈ nameservers → noAnswer (Exchange name x w))
  ∨ ∃ pre s post rr others,
      nameservers = pre ++ s :: post
      ∧ (∀ x, x ∈ pre → noAnswer (Exchange name x w))
      ∧ Exchange name s w = Ok (dns.mkMsg (rr :: others)).
Proof.
  induction nameservers as [|x rest IH].
  - left. intros x Hx. inversion Hx.
  - destruct (Exchange name x w) as [[[|rr others]]|msg] eqn:Ex.
    + destruct IH as [Hall | (pre & s & post & rr & others & -> & Hpre & Hs)].
      * left. intros y Hy. apply elem_of_cons in Hy as [-> | Hy]; [|now apply Hall].
        now rewrite Ex.
      * right. exists (x :: pre), s, post, rr, others. split; [reflexivity|].
        split; [|assumption].
        intros y Hy. apply elem_of_cons in Hy as [-> | Hy]; [|now apply Hpre].
        now rewrite Ex.
    + right. exists [], x, rest, rr, others. split; [reflexivity|].
      split; [intros y Hy; inversion Hy | assumption].
    + destruct IH as [Hall | (pre & s & post & rr & others & -> & Hpre & Hs)].
      * left. intros y Hy. apply elem_of_cons in Hy as [-> | Hy]; [|now apply Hall].
        now rewrite Ex.
      * right. exists (x :: pre), s, post, rr, others. split; [reflexivity|].
        split; [|assumption].
        intros y Hy. apply elem_of_cons in Hy as [-> | Hy]; [|now apply Hpre].
        now rewrite Ex.
Qed.

(** X12.  Whatever the nameservers do, a call of [resolveCname] ends in
    one of three ways, having asked a prefix of the list, in order.
    With a non-nil error the target is empty, every server was asked,
    and the error is the one remembered for the last server.  With a nil
    error either the list was empty (empty target) or the target was
    read from the CNAME that heads the answer of the last server asked.
    It panics only when the last server asked sent an answer headed by a
    record that is not a CNAME.  So a target never comes with an error,
    and no server is asked after one that answered. *)
Theorem X12_resolveCname_outcomes `{Env} (name : string) (nameservers : list string)
    (st : state) :
  ∃ tried,
    tried `prefix_of` nameservers
    ∧ snd (resolveCname name nameservers st) = asked name tried st
    ∧ match fst (resolveCname name nameservers st) with
      | Returned (target, Some err) =>
          target = EmptyString ∧ tried = nameservers
          ∧ ∃ lastServer,
              last nameservers = Some lastServer
              ∧ err = rememberedError (Exchange name lastServer (world st))
      | Returned (target, None) =>
          (nameservers = [] ∧ target = EmptyString)
          ∨ ∃ s others,
              last tried = Some s
              ∧ Exchange name s (world st)
                = Ok (dns.mkMsg (dns.CNAME target :: others))
      | Panicked =>
          ∃ s rrtype others,
            last tried = Some s
            ∧ Exchange name s (world st) = Ok (dns.mkMsg (dns.OtherRR rrtype :: others))
      end.
Proof.
  unfold resolveCname.
  destruct (first_answer_split name (world st) nameservers)
    as [Hall | (pre & s & post & rr & others & -> & Hpre & Hs)].
  - exists nameservers. split; [reflexivity|].
    pose proof (resolveCname_loop_skip name nameservers [] EmptyString None st Hall)
      as Hskip.
    rewrite app_nil_r in Hskip. rewrite Hskip.
    cbn [resolveCname_loop]. unfold ret. cbn [fst snd]. split; [reflexivity|].
    unfold errorAfter. destruct (last nameservers) as [lastServer|] eqn:Elast.
    + repeat split. now exists lastServer.
    + left. split; [now apply last_None | reflexivity].
  - exists (pre ++ [s]). split; [exists post; now rewrite <- app_assoc|].
    rewrite (resolveCname_loop_skip name pre (s :: post) EmptyString None st Hpre).
    destruct rr as [target | rrtype].
    + rewrite (resolveCname_loop_answer name s post _ _ (asked name pre st) target others Hs).
      cbn [fst snd]. rewrite asked_app. split; [reflexivity|].
      right. exists s, others. split; [apply last_snoc | assumption].
    + rewrite (resolveCname_loop_assertion name s post _ _ (asked name pre st)
                 rrtype others Hs).
      cbn [fst snd]. rewrite asked_app. split; [reflexivity|].
      exists s, rrtype, others. split; [apply last_snoc | assumption].
Qed.

(** ** Prune, continued *)

Lemma resolveCname_asks_prefix `{Env} (name : string) (nameservers : list string)
    (st : state) :
  ∃ tried, tried `prefix_of` nameservers
           ∧ snd (resolveCname name nameservers st) = asked name tried st.
Proof.
  unfold resolveCname.
  destruct (first_answer_split name (world st) nameservers)
    as [Hall | (pre & s & post & rr & others & -> & Hpre & Hs)].
  - exists nameservers. split; [reflexivity|].
    pose proof (resolveCname_loop_skip name nameservers [] EmptyString None st Hall)
      as Hskip.
    rewrite app_nil_r in Hskip. now rewrite Hskip.
  - exists (pre ++ [s]). split; [exists post; now rewrite <- app_assoc|].
    rewrite (resolveCname_loop_skip name pre (s :: post) EmptyString None st Hpre).
    destruct rr as [target | rrtype].
    + rewrite (resolveCname_loop_answer name s post _ _ (asked name pre st) target others Hs).
      cbn [snd]. apply asked_app.
    + rewrite (resolveCname_loop_assertion name s post _ _ (asked name pre st)
                 rrtype others Hs).
      cbn [snd]. apply asked_app.
Qed.

(** The state one turn of the prune loop leaves: that of its live
    query for a record in scope, one more rejection otherwise. *)
Lemma pruneRecord_state `{Env} (action : string) (u : cnameRecord)
    (pruned : list cnameRecord) (st : state) :
  snd (pruneRecord action u pruned st)
  = if canHandleRecord (Hostname u)
    then snd (resolveCname (strings.Trim (Hostname u) "." ++ ".") ListNameservers st)
    else rejectedMore 1 st.
Proof.
  unfold pruneRecord. destruct (canHandleRecord (Hostname u)); cbn [negb]; [|reflexivity].
  rewrite bind_snd.
  destruct (resolveCname (strings.Trim (Hostname u) "." ++ ".") ListNameservers st)
    as [[[t err]|] st1]; cbn [fst snd]; [|reflexivity].
  destruct (String.eqb action route53.ChangeActionDelete).
  - unfold bind, r_HostnameOwners.
    destruct (0 <? length (HostnameOwners (Hostname u) (world st1)))%nat; [reflexivity|].
    destruct err as [e|]; [destruct (negb (error_eqb e errDNSEmptyAnswer))|]; reflexivity.
  - destruct (String.eqb action route53.ChangeActionUpsert); [|reflexivity].
    destruct err as [e|]; [reflexivity|].
    destruct (negb (String.eqb (strings.Trim t ".") (Target u))); reflexivity.
Qed.

Lemma queryFor_mono `{Env} (records records' : list cnameRecord) (q : string * string) :
  (∀ u, u ∈ records → u ∈ records') → queryFor records q → queryFor records' q.
Proof. intros Hsub (Hns & u & Hu & Hok & Hname). split; [assumption|]. eauto. Qed.

Lemma pruneRecord_queried `{Env} (action : string) (u : cnameRecord)
    (pruned : list cnameRecord) (st : state) :
  ∃ n qs, snd (pruneRecord action u pruned st) = touched n qs st
          ∧ Forall (queryFor [u]) qs.
Proof.
  rewrite pruneRecord_state. destruct (canHandleRecord (Hostname u)) eqn:Escope.
  - destruct (resolveCname_asks_prefix (strings.Trim (Hostname u) "." ++ ".")
                ListNameservers st) as (tried & [post Hpre] & ->).
    rewrite asked_touched. eexists _, _. split; [reflexivity|].
    apply Forall_forall. intros q Hq.
    apply list_elem_of_In, in_map_iff in Hq as (ns & <- & Hns). apply list_elem_of_In in Hns.
    split; cbn [fst snd].
    + rewrite Hpre. apply elem_of_app. now left.
    + exists u. split; [left | auto].
  - rewrite rejectedMore_touched. eexists _, _. split; [reflexivity | constructor].
Qed.

Lemma pruneBatch_loop_queried `{Env} (action : string) (records : list cnameRecord) :
  ∀ (pruned : list cnameRecord) (st : state),
    ∃ n qs, snd (pruneBatch_loop action records pruned st) = touched n qs st
            ∧ Forall (queryFor records) qs.
Proof.
  induction records as [|u rest IH]; intros pruned st.
  - exists 0, []. simpl. rewrite touched_0_nil. split; [reflexivity | constructor].
  - cbn [pruneBatch_loop]. rewrite bind_snd.
    destruct (pruneRecord_queried action u pruned st) as (n & qs & Hu & Hqs).
    assert (Hqs' : Forall (queryFor (u :: rest)) qs).
    { eapply Forall_impl; [exact Hqs|]. intros q. apply queryFor_mono.
      intros v Hv. apply list_elem_of_singleton in Hv as ->. left. }
    destruct (pruneRecord action u pruned st) as [[pruned'|] st1]; cbn [fst snd] in *;
      subst st1.
    + destruct (IH pruned' (touched n qs st)) as (n' & qs' & Hrest & Hqs'').
      rewrite Hrest, touched_touched. eexists _, _. split; [reflexivity|].
      apply Forall_app. split; [assumption|].
      eapply Forall_impl; [exact Hqs''|]. intros q. apply queryFor_mono.
      intros v Hv. now right.
    + eauto.
Qed.

(** X13.  Prune only reads.  Whatever it returns, and also when it
    panics, [pruneBatch] leaves the zone as it was, calls no mutator,
    and touches neither the applied-updates counter nor the record of
    flushed batches; [metricUpdatesRejected] can only grow.  Every CNAME
    question it sends goes to one of the zone's nameservers and asks for
    the fully-qualified name of a record of the batch that passed the
    scope check: no question is ever sent for an out-of-scope hostname. *)
Theorem X13_prune_only_reads `{Env} (action : string) (records : list cnameRecord)
    (st : state) :
  world (snd (pruneBatch action records st)) = world st
  ∧ mutatorCalls (snd (pruneBatch action records st)) = mutatorCalls st
  ∧ metricUpdatesApplied (snd (pruneBatch action records st)) = metricUpdatesApplied st
  ∧ flushed (snd (pruneBatch action records st)) = flushed st
  ∧ (metricUpdatesRejected st ≤ metricUpdatesRejected (snd (pruneBatch action records st)))%nat
  ∧ ∃ qs, queried (snd (pruneBatch action records st)) = queried st ++ qs
          ∧ Forall (queryFor records) qs.
Proof.
  assert (Hrun : ∃ n qs, snd (pruneBatch action records st) = touched n qs st
                         ∧ Forall (queryFor records) qs).
  { unfold pruneBatch. rewrite bind_snd.
    destruct (pruneBatch_loop_queried action records [] st) as (n & qs & Hloop & Hqs).
    destruct (pruneBatch_loop action records [] st) as [[kept|] st1]; cbn [fst snd] in *;
      subst st1; [|eauto].
    rewrite uniqueRecords_run, rejectedMore_touched, touched_touched. cbn [snd].
    rewrite app_nil_r. eauto. }
  destruct Hrun as (n & qs & -> & Hqs). unfold touched. cbn.
  repeat split; [lia|]. now exists qs.
Qed.

Lemma pruneBatch_loop_count `{Env} (action : string) (records : list cnameRecord) :
  ∀ (pruned out : list cnameRecord) (st st' : state),
    pruneBatch_loop action records pruned st = (Returned out, st') →
    (metricUpdatesRejected st' + length out
     ≤ metricUpdatesRejected st + length pruned + length records)%nat.
Proof.
  induction records as [|u rest IH]; intros pruned out st st' Hrun.
  - injection Hrun as <- <-. simpl. lia.
  - cbn [pruneBatch_loop] in Hrun. unfold bind at 1 in Hrun.
    destruct (pruneRecord_cases action u pruned st)
      as [[_ Hu] | [(_ & _ & qs & Hu) | (_ & _ & qs & kept & Hu & Hkept)]];
      rewrite Hu in Hrun; [| discriminate |].
    + apply IH in Hrun. cbn in Hrun. cbn [length]. lia.
    + apply IH in Hrun. rewrite length_app in Hrun. cbn in Hrun. cbn [length].
      assert (length kept ≤ 1)%nat by (destruct Hkept as [[-> _] | [-> _]]; simpl; lia).
      lia.
Qed.

(** X14.  [metricUpdatesRejected] never counts more than prune dropped:
    when [pruneBatch] returns, the records it passes on plus the growth
    of the counter do not exceed the size of the batch.  (Records
    dropped as no-ops are not counted, and a conflicting hostname counts
    once for all its records.) *)
Theorem X14_prune_counts_at_most_dropped `{Env} (action : string)
    (records pruned : list cnameRecord) (st st' : state) :
  pruneBatch action records st = (Returned pruned, st') →
  (metricUpdatesRejected st ≤ metricUpdatesRejected st')%nat
  ∧ (length pruned + (metricUpdatesRejected st' - metricUpdatesRejected st)
     ≤ length records)%nat.
Proof.
  unfold pruneBatch, bind. intros Hrun.
  destruct (pruneBatch_loop action records [] st) as [[kept|] st1] eqn:Eloop;
    [|discriminate].
  pose proof (pruneBatch_loop_count action records [] kept st st1 Eloop) as Hloop.
  destruct (pruneBatch_loop_frame action records [] st) as (n & qs & Hframe).
  rewrite Eloop in Hframe. cbn [snd] in Hframe.
  rewrite uniqueRecords_run in Hrun. injection Hrun as <- <-.
  pose proof (uniqueRecords_loop_count kept) as Hcount.
  subst st1. unfold rejectedMore, touched in *. cbn in *. lia.
Qed.

Lemma X14_witness_out_of_scope_counted :
  @pruneBatch exampleEnv "UPSERT" [mkRecord "wrong.sub.example.com" "private"] exampleState
  = (Returned [], @rejectedMore exampleEnv 1 exampleState)
  ∧ (length (@nil cnameRecord)
     + (metricUpdatesRejected (@rejectedMore exampleEnv 1 exampleState)
        - metricUpdatesRejected exampleState)
     ≤ length [mkRecord "wrong.sub.example.com" "private"])%nat.
Proof.
  assert (Hrun : @pruneBatch exampleEnv "UPSERT" [mkRecord "wrong.sub.example.com" "private"]
                   exampleState
                 = (Returned [], @rejectedMore exampleEnv 1 exampleState))
    by (vm_compute; reflexivity).
  split; [exact Hrun|].
  exact (proj2 (@X14_prune_counts_at_most_dropped exampleEnv _ _ _ _ _ Hrun)).
Defined.

Lemma outOfScope_none `{Env} (records : list cnameRecord) :
  (∀ u, u ∈ records → canHandleRecord (Hostname u) = true) → outOfScope records = [].
Proof.
  induction records as [|u rest IH]; intros Hall; [reflexivity|].
  rewrite outOfScope_cons, (Hall u) by left. apply IH. intros v Hv. apply Hall. now right.
Qed.

(** X15.  Prune is idempotent in an unchanged world: given its own
    result as the batch, in the state it left, [pruneBatch] returns that
    same batch, in the same order, and counts no rejection. *)
Theorem X15_pruneBatch_idempotent `{Env} (action : string)
    (records pruned : list cnameRecord) (st st' : state) :
  pruneBatch action records st = (Returned pruned, st') →
  ∃ qs, pruneBatch action pruned st' = (Returned pruned, touched 0 qs st').
Proof.
  intros Hrun.
  assert (Hq : queriesReturn (world st) records).
  { unfold pruneBatch, bind in Hrun.
    destruct (pruneBatch_loop action records [] st) as [[kept|] st1] eqn:Eloop;
      [|discriminate].
    eapply pruneBatch_loop_queries; eauto. }
  destruct (pruneBatch_returns action records st Hq)
    as (pruned' & rej & qs & Hp & Hsub & Hnodup & Hin).
  rewrite Hp in Hrun. injection Hrun as -> <-.
  set (st' := touched (length (outOfScope records) + length rej) qs st).
  assert (Hpass : ∀ u, u ∈ pruned → passesFilter action (world st') u).
  { intros u Hu. now apply Hin in Hu as (_ & Hpass & _). }
  assert (Hq' : queriesReturn (world st') pruned).
  { intros u Hu Hok. apply (Hq u); [|assumption].
    eapply elem_of_sublist; [exact Hu | exact Hsub]. }
  destruct (pruneBatch_loop_returns action pruned [] st' Hq')
    as (kept & qs' & Hloop & Hkept & Hkin).
  assert (kept = pruned) as ->.
  { apply sublist_covering; [assumption | apply NoDup_hostnames, Hnodup |].
    intros u Hu. apply Hkin. auto. }
  rewrite outOfScope_none in Hloop by (intros u Hu; now destruct (Hpass u Hu)).
  exists qs'. unfold pruneBatch, bind. rewrite Hloop. cbn [app length].
  rewrite uniqueRecords_run, uniqueRecords_loop_distinct by assumption.
  cbn [fst snd length]. now rewrite rejectedMore_0.
Qed.

Lemma X15_witness_outdated_record_kept :
  ∃ qs,
    @pruneBatch exampleEnv "UPSERT" [mkRecord "foo.example.com" "public"]
                (@touched exampleEnv 1 [("foo.example.com.", "ns1:53")] exampleState)
    = (Returned [mkRecord "foo.example.com" "public"],
       @touched exampleEnv 0 qs
                (@touched exampleEnv 1 [("foo.example.com.", "ns1:53")] exampleState)).
Proof.
  apply (@X15_pruneBatch_idempotent exampleEnv "UPSERT"
           [mkRecord "wrong.sub.example.com" "private";
            mkRecord "foo.example.com" "public"] _ exampleState).
  vm_compute. reflexivity.
Defined.

(** The records prune keeps carry one of the two actions' policies. *)
Lemma policy_known_action `{Env} (action : string) (w : World) (u : cnameRecord) :
  policy action w u →
  action = route53.ChangeActionDelete ∨ action = route53.ChangeActionUpsert.
Proof. intros [[-> _] | [-> _]]; auto. Qed.

Lemma pruneBatch_loop_unknown `{Env} (action : string) (records : list cnameRecord) :
  action ≠ route53.ChangeActionDelete → action ≠ route53.ChangeActionUpsert →
  ∀ (pruned out : list cnameRecord) (st st' : state),
    pruneBatch_loop action records pruned st = (Returned out, st') → out = pruned.
Proof.
  intros Hd Hu. induction records as [|u rest IH]; intros pruned out st st' Hrun.
  - now injection Hrun as <- _.
  - cbn [pruneBatch_loop] in Hrun. unfold bind at 1 in Hrun.
    destruct (pruneRecord_cases action u pruned st)
      as [[_ Hrec] | [(_ & _ & qs & Hrec) | (_ & _ & qs & kept & Hrec & Hkept)]];
      rewrite Hrec in Hrun; [| discriminate |].
    + now apply IH in Hrun.
    + destruct Hkept as [[_ Hpol] | [-> _]].
      * apply policy_known_action in Hpol as [? | ?]; contradiction.
      * rewrite app_nil_r in Hrun. now apply IH in Hrun.
Qed.

(** X16.  An action other than UPSERT and DELETE reaches nothing.  For a
    batch whose first change carries such an action, prune keeps no
    record, and [applyBatch] calls no mutator, leaves the zone as it
    was and counts no applied update, although its own test would send
    any batch that is not a DELETE to [UpsertCnames]. *)
Theorem X16_unknown_action_reaches_nothing `{Env} (first : cnameChange)
    (rest : list cnameChange) (st : state) :
  Action first ≠ route53.ChangeActionDelete →
  Action first ≠ route53.ChangeActionUpsert →
  (∀ records st0 pruned st1,
      pruneBatch (Action first) records st0 = (Returned pruned, st1) → pruned = [])
  ∧ mutatorCalls (snd (applyBatch (first :: rest) st)) = mutatorCalls st
  ∧ world (snd (applyBatch (first :: rest) st)) = world st
  ∧ metricUpdatesApplied (snd (applyBatch (first :: rest) st)) = metricUpdatesApplied st.
Proof.
  intros Hd Hu.
  assert (Hnone : ∀ records st0 pruned st1,
             pruneBatch (Action first) records st0 = (Returned pruned, st1) → pruned = []).
  { intros records st0 pruned st1 Hrun. unfold pruneBatch, bind in Hrun.
    destruct (pruneBatch_loop (Action first) records [] st0) as [[kept|] st2] eqn:Eloop;
      [|discriminate].
    apply (pruneBatch_loop_unknown _ _ Hd Hu) in Eloop as ->.
    rewrite uniqueRecords_run in Hrun. now injection Hrun as <- _. }
  split; [exact Hnone|].
  remember (applyBatch (first :: rest) st) as run eqn:Hrun.
  unfold applyBatch in Hrun. unfold bind at 1 in Hrun.
  change (enter_applyBatch (first :: rest) st)
    with (Returned tt, entered (first :: rest) st) in Hrun.
  cbv iota in Hrun. unfold bind at 1 in Hrun.
  destruct (pruneBatch_frame (Action first) (List.map Record_ (first :: rest))
              (entered (first :: rest) st)) as (n & qs & Hframe).
  destruct (pruneBatch (Action first) (List.map Record_ (first :: rest))
              (entered (first :: rest) st)) as [[pruned|] st1] eqn:Eprune;
    cbn [snd] in Hframe; subst st1.
  - apply Hnone in Eprune as ->. subst run. simpl. auto.
  - subst run. simpl. auto.
Qed.

Lemma X16_witness_create_action :
  mutatorCalls (snd (@applyBatch exampleEnv
                       [mkChange "CREATE" (mkRecord "bar.example.com" "public")]
                       exampleState)) = []
  ∧ world (snd (@applyBatch exampleEnv
                  [mkChange "CREATE" (mkRecord "bar.example.com" "public")]
                  exampleState)) = exampleWorld.
Proof.
  destruct (@X16_unknown_action_reaches_nothing exampleEnv
              (mkChange "CREATE" (mkRecord "bar.example.com" "public")) [] exampleState)
    as (_ & Hcalls & Hworld & _); [discriminate | discriminate |].
  split; [exact Hcalls | exact Hworld].
Defined.

(** ** Applying a batch, continued *)

Lemma appliedAll_run `{Env} (pruned : list cnameRecord) (op : string) :
  ∀ st,
    appliedAll pruned op st
    = (Returned tt,
       mkState (world st) (metricUpdatesRejected st)
               (metricUpdatesApplied st ++ List.map (fun p => (Hostname p, op)) pruned)
               (queried st) (flushed st) (mutatorCalls st)).
Proof.
  induction pruned as [|p rest IH]; intros st.
  - destruct st. simpl. unfold ret. now rewrite app_nil_r.
  - cbn [appliedAll]. unfold bind, metricUpdatesApplied_Inc. rewrite IH.
    cbn. now rewrite <- app_assoc.
Qed.

(** What [applyBatch] does once prune has returned. *)
Lemma applyBatch_pruned `{Env} (first : cnameChange) (rest : list cnameChange)
    (st st1 : state) (pruned : list cnameRecord) :
  pruneBatch (Action first) (List.map Record_ (first :: rest)) (entered (first :: rest) st)
  = (Returned pruned, st1) →
  applyBatch (first :: rest) st
  = (Returned tt,
     if (length pruned =? 0)%nat || dryRun then st1
     else afterMutator (Action first) pruned st1).
Proof.
  intros Hprune. unfold applyBatch. unfold bind at 1.
  change (enter_applyBatch (first :: rest) st)
    with (Returned tt, entered (first :: rest) st).
  cbv iota. unfold bind at 1. rewrite Hprune.
  destruct (length pruned =? 0)%nat; [reflexivity|].
  unfold afterMutator, mutatorFor, mutatorCallFor, appliedFor, opLabel.
  destruct dryRun; cbn [negb orb];
    destruct (String.eqb (Action first) route53.ChangeActionDelete); try reflexivity.
  - unfold bind, r_DeleteCnames.
    destruct (DeleteCnames pruned (world st1)) as [[e|] w]; cbn [fst snd].
    + unfold ret. now rewrite app_nil_r.
    + now rewrite appliedAll_run.
  - unfold bind, r_UpsertCnames.
    destruct (UpsertCnames pruned (world st1)) as [[e|] w]; cbn [fst snd].
    + unfold ret. now rewrite app_nil_r.
    + now rewrite appliedAll_run.
Qed.

Lemma applyBatch_panicked `{Env} (first : cnameChange) (rest : list cnameChange)
    (st st1 : state) :
  pruneBatch (Action first) (List.map Record_ (first :: rest)) (entered (first :: rest) st)
  = (Panicked, st1) →
  applyBatch (first :: rest) st = (Panicked, st1).
Proof.
  intros Hprune. unfold applyBatch. unfold bind at 1.
  change (enter_applyBatch (first :: rest) st)
    with (Returned tt, entered (first :: rest) st).
  cbv iota. unfold bind at 1. now rewrite Hprune.
Qed.

(** X17.  Once prune has returned, [applyBatch] returns normally in
    every case.  With an empty pruned batch, or in a dry run, the zone
    and the applied-updates counter stay as they were.  Otherwise the
    zone is what the mutator made of it ([DeleteCnames] for a DELETE
    batch, [UpsertCnames] for any other); if the mutator reported an
    error, it is swallowed and nothing is counted; if it succeeded, one
    applied update is counted per pruned record, in order, labelled
    delete or upsert. *)
Theorem X17_applyBatch_outcome `{Env} (first : cnameChange) (rest : list cnameChange)
    (st st1 : state) (pruned : list cnameRecord) :
  pruneBatch (Action first) (List.map Record_ (first :: rest)) (entered (first :: rest) st)
  = (Returned pruned, st1) →
  fst (applyBatch (first :: rest) st) = Returned tt
  ∧ (if (length pruned =? 0)%nat || dryRun
     then world (snd (applyBatch (first :: rest) st)) = world st
          ∧ metricUpdatesApplied (snd (applyBatch (first :: rest) st))
            = metricUpdatesApplied st
     else world (snd (applyBatch (first :: rest) st))
          = snd (mutatorFor (Action first) pruned (world st))
          ∧ metricUpdatesApplied (snd (applyBatch (first :: rest) st))
            = metricUpdatesApplied st
              ++ match fst (mutatorFor (Action first) pruned (world st)) with
                 | None => appliedFor (Action first) pruned
                 | Some _ => []
                 end).
Proof.
  intros Hprune. rewrite (applyBatch_pruned first rest st st1 pruned Hprune).
  split; [reflexivity|].
  destruct (pruneBatch_frame (Action first) (List.map Record_ (first :: rest))
              (entered (first :: rest) st)) as (n & qs & Hframe).
  rewrite Hprune in Hframe. cbn [snd] in Hframe. subst st1.
  destruct ((length pruned =? 0)%nat || dryRun); cbn [snd]; split; reflexivity.
Qed.

Lemma X17_witness_upsert_applied :
  metricUpdatesApplied
    (snd (@applyBatch exampleEnv
            [mkChange "UPSERT" (mkRecord "bar.example.com" "public")] exampleState))
  = [("bar.example.com", "upsert")].
Proof.
  assert (Hprune : @pruneBatch exampleEnv "UPSERT" [mkRecord "bar.example.com" "public"]
                     (@entered exampleEnv
                        [mkChange "UPSERT" (mkRecord "bar.example.com" "public")]
                        exampleState)
                   = (Returned [mkRecord "bar.example.com" "public"],
                      @touched exampleEnv 0 [("bar.example.com.", "ns1:53")]
                        (@entered exampleEnv
                           [mkChange "UPSERT" (mkRecord "bar.example.com" "public")]
                           exampleState)))
    by (vm_compute; reflexivity).
  destruct (@X17_applyBatch_outcome exampleEnv
              (mkChange "UPSERT" (mkRecord "bar.example.com" "public")) [] exampleState
              _ _ Hprune) as [_ [_ Happlied]].
  exact Happlied.
Defined.

(** ** The reconciler loop, continued *)

Lemma applyBatch_dry `{Env} (changes : list cnameChange) (st : state) :
  dryRun = true →
  world (snd (applyBatch changes st)) = world st
  ∧ mutatorCalls (snd (applyBatch changes st)) = mutatorCalls st
  ∧ metricUpdatesApplied (snd (applyBatch changes st)) = metricUpdatesApplied st.
Proof.
  intros Hdry. destruct changes as [|first rest]; [repeat split|].
  destruct (pruneBatch_frame (Action first) (List.map Record_ (first :: rest))
              (entered (first :: rest) st)) as (n & qs & Hframe).
  destruct (pruneBatch (Action first) (List.map Record_ (first :: rest))
              (entered (first :: rest) st)) as [[pruned|] st1] eqn:Eprune;
    cbn [snd] in Hframe; subst st1.
  - rewrite (applyBatch_pruned first rest st _ pruned Eprune), Hdry, orb_true_r.
    repeat split.
  - rewrite (applyBatch_panicked first rest st _ Eprune). repeat split.
Qed.

(** X18.  In a dry run the reconciler loop is harmless: over any
    sequence of arrivals, idle turns and stop, it calls no mutator,
    leaves the zone as it was and counts no applied update. *)
Theorem X18_dry_run_changes_nothing `{Env} (selects : list selected) (st : state) :
  dryRun = true →
  world (snd (processUpdateQueue selects st)) = world st
  ∧ mutatorCalls (snd (processUpdateQueue selects st)) = mutatorCalls st
  ∧ metricUpdatesApplied (snd (processUpdateQueue selects st)) = metricUpdatesApplied st.
Proof.
  intros Hdry. unfold processUpdateQueue. generalize (@nil cnameChange) as ret_.
  revert st. induction selects as [|[t| |] rest IH]; intros st ret_.
  - repeat split.
  - cbn [processUpdateQueue_loop]. destruct (actionBoundary ret_ t); [|apply IH].
    rewrite bind_snd. destruct (applyBatch_dry ret_ st Hdry) as (Hw & Hc & Ha).
    destruct (fst (applyBatch ret_ st)); [|auto].
    destruct (IH (snd (applyBatch ret_ st)) ([] ++ [t])) as (Hw' & Hc' & Ha').
    rewrite Hw', Hc', Ha'. auto.
  - cbn [processUpdateQueue_loop]. destruct (0 <? length ret_)%nat; [|repeat split].
    rewrite bind_snd. destruct (applyBatch_dry ret_ st Hdry) as (Hw & Hc & Ha).
    destruct (fst (applyBatch ret_ st)); auto.
  - cbn [processUpdateQueue_loop]. destruct (0 <? length ret_)%nat; [|apply IH].
    rewrite bind_snd. destruct (applyBatch_dry ret_ st Hdry) as (Hw & Hc & Ha).
    destruct (fst (applyBatch ret_ st)); [|auto].
    destruct (IH (snd (applyBatch ret_ st)) []) as (Hw' & Hc' & Ha').
    rewrite Hw', Hc', Ha'. auto.
Qed.

Lemma X18_witness_dry_run :
  world (snd (@processUpdateQueue dryRunEnv exampleSelects (mock.start dryRunEnv exampleWorld)))
  = exampleWorld
  ∧ mutatorCalls (snd (@processUpdateQueue dryRunEnv exampleSelects
                         (mock.start dryRunEnv exampleWorld))) = [].
Proof.
  destruct (@X18_dry_run_changes_nothing dryRunEnv exampleSelects
              (mock.start dryRunEnv exampleWorld) eq_refl) as (Hw & Hc & _).
  split; [exact Hw | exact Hc].
Defined.

Lemma resolveCname_returns `{Env} (name : string) (st : state) :
  answersWellTyped →
  ∃ t err, fst (resolveCname name ListNameservers st) = Returned (t, err).
Proof.
  intros Hwt. unfold resolveCname.
  destruct (first_answer_split name (world st) ListNameservers)
    as [Hall | (pre & s & post & rr & others & Hns & Hpre & Hs)].
  - pose proof (resolveCname_loop_skip name ListNameservers [] EmptyString None st Hall)
      as Hskip.
    rewrite app_nil_r in Hskip. rewrite Hskip. cbn. eauto.
  - rewrite Hns.
    rewrite (resolveCname_loop_skip name pre (s :: post) EmptyString None st Hpre).
    destruct rr as [target | rrtype].
    + rewrite (resolveCname_loop_answer name s post _ _ (asked name pre st) target others Hs).
      cbn. eauto.
    + exfalso. apply (Hwt name s (world st) rrtype others); [|assumption].
      rewrite Hns. apply elem_of_app. right. left.
Qed.

Lemma queries_return `{Env} (w : World) (records : list cnameRecord) :
  answersWellTyped → queriesReturn w records.
Proof. intros Hwt u _ _. unfold lookupCname. now apply resolveCname_returns. Qed.

Lemma applyBatch_returns `{Env} (first : cnameChange) (rest : list cnameChange)
    (st : state) :
  answersWellTyped → fst (applyBatch (first :: rest) st) = Returned tt.
Proof.
  intros Hwt.
  destruct (pruneBatch_returns (Action first) (List.map Record_ (first :: rest))
              (entered (first :: rest) st))
    as (pruned & rej & qs & Hprune & _); [now apply queries_return|].
  now rewrite (applyBatch_pruned first rest st _ pruned Hprune).
Qed.

Lemma nonempty_length {A : Type} (l : list A) : (0 <? length l)%nat = true → l ≠ [].
Proof. destruct l; [discriminate | intros _; discriminate]. Qed.

(** X19.  If no nameserver of the zone ever heads an answer with a
    record that is not a CNAME, the reconciler loop never panics: over
    any sequence of arrivals, idle turns and stop it keeps running or
    returns.  In particular it never calls [applyBatch] on an empty
    buffer, whose first element that function reads unguarded. *)
Theorem X19_loop_never_panics `{Env} (selects : list selected) (st : state) :
  answersWellTyped →
  ∃ r, fst (processUpdateQueue selects st) = Returned r.
Proof.
  intros Hwt. unfold processUpdateQueue. generalize (@nil cnameChange) as ret_.
  revert st. induction selects as [|[t| |] rest IH]; intros st ret_.
  - cbn. eauto.
  - cbn [processUpdateQueue_loop]. destruct (actionBoundary ret_ t) eqn:Eb; [|apply IH].
    apply actionBoundary_nonempty in Eb. destruct ret_ as [|first buf]; [contradiction|].
    unfold bind. pose proof (applyBatch_returns first buf st Hwt) as Hret.
    destruct (applyBatch (first :: buf) st) as [[[]|] st1]; [apply IH | discriminate].
  - cbn [processUpdateQueue_loop]. destruct (0 <? length ret_)%nat eqn:El; [|cbn; eauto].
    apply nonempty_length in El. destruct ret_ as [|first buf]; [contradiction|].
    unfold bind. pose proof (applyBatch_returns first buf st Hwt) as Hret.
    destruct (applyBatch (first :: buf) st) as [[[]|] st1]; [cbn; eauto | discriminate].
  - cbn [processUpdateQueue_loop]. destruct (0 <? length ret_)%nat eqn:El; [|apply IH].
    apply nonempty_length in El. destruct ret_ as [|first buf]; [contradiction|].
    unfold bind. pose proof (applyBatch_returns first buf st Hwt) as Hret.
    destruct (applyBatch (first :: buf) st) as [[[]|] st1]; [apply IH | discriminate].
Qed.

Lemma X19_witness_example_zone :
  ∃ r, fst (@processUpdateQueue exampleEnv exampleSelects exampleState) = Returned r.
Proof.
  apply (@X19_loop_never_panics exampleEnv).
  intros name nameserver w rrtype others Hns.
  apply list_elem_of_singleton in Hns. subst nameserver.
  unfold Exchange, exampleEnv, mock.env, mock.exchange.
  change (String.eqb "ns1:53" "down:53") with false.
  change (String.eqb "ns1:53" "odd:53") with false. cbv iota.
  destruct (mock.zoneData w !! strings.Trim name "."); discriminate.
Defined.

Lemma applyBatch_flushed `{Env} (changes : list cnameChange) (st : state) :
  flushed (snd (applyBatch changes st)) = flushed st ++ [changes].
Proof. apply applyBatch_effect. Qed.

(** What the loop has flushed, against what it held and received. *)
Lemma processUpdateQueue_loop_conserves `{Env} (selects : list selected) :
  ∀ (ret_ : list cnameChange) (st : state),
    ∃ batches,
      flushed (snd (processUpdateQueue_loop selects ret_ st)) = flushed st ++ batches
      ∧ match fst (processUpdateQueue_loop selects ret_ st) with
        | Returned r =>
            concat batches ++ default [] r = ret_ ++ receivedUntilStop selects
            ∧ (r = None ↔ Stop ∈ selects)
        | Panicked => concat batches `prefix_of` ret_ ++ receivedUntilStop selects
        end.
Proof.
  assert (Hflush : ∀ (ret_ : list cnameChange) (tail : list cnameChange) (st : state)
                     (k : unit -> M (option (list cnameChange)))
                     (P : option (list cnameChange) -> Prop),
             (∀ st1, ∃ batches,
                 flushed (snd (k tt st1)) = flushed st1 ++ batches
                 ∧ match fst (k tt st1) with
                   | Returned r => concat batches ++ default [] r = tail ∧ P r
                   | Panicked => concat batches `prefix_of` tail
                   end) →
             ∃ batches,
               flushed (snd (bind (applyBatch ret_) k st)) = flushed st ++ batches
               ∧ match fst (bind (applyBatch ret_) k st) with
                 | Returned r => concat batches ++ default [] r = ret_ ++ tail ∧ P r
                 | Panicked => concat batches `prefix_of` ret_ ++ tail
                 end).
  { intros ret_ tail st k P Hk. unfold bind.
    pose proof (applyBatch_flushed ret_ st) as Hf.
    destruct (applyBatch ret_ st) as [[[]|] st1]; cbn [snd] in Hf.
    - destruct (Hk st1) as (batches & Hfl & Hres).
      exists (ret_ :: batches). rewrite Hfl, Hf, <- app_assoc. split; [reflexivity|].
      cbn [concat]. destruct (fst (k tt st1)) as [r|].
      + destruct Hres as [Hcat HP]. split; [|assumption].
        now rewrite <- app_assoc, Hcat.
      + now apply prefix_app.
    - exists [ret_]. cbn [fst snd concat]. split; [assumption|].
      rewrite app_nil_r. now apply prefix_app_r. }
  induction selects as [|[t| |] rest IH]; intros ret_ st.
  - exists []. cbn. rewrite !app_nil_r. repeat split; [discriminate|].
    intros Hin. inversion Hin.
  - cbn [processUpdateQueue_loop receivedUntilStop].
    assert (Hstop : ∀ r : option (list cnameChange),
               (r = None ↔ Stop ∈ rest) → (r = None ↔ Stop ∈ Receive t :: rest)).
    { intros r Hr. rewrite Hr, elem_of_cons. split; [now right|].
      intros [Habs | Hin]; [discriminate | assumption]. }
    destruct (actionBoundary ret_ t).
    + apply (Hflush ret_ (t :: receivedUntilStop rest) st _
               (fun r => r = None ↔ Stop ∈ Receive t :: rest)).
      intros st1. destruct (IH ([] ++ [t]) st1) as (batches & Hfl & Hres).
      exists batches. split; [assumption|].
      destruct (fst (processUpdateQueue_loop rest ([] ++ [t]) st1)) as [r|];
        [|assumption].
      destruct Hres as [Hcat Hr]. split; [assumption | now apply Hstop].
    + destruct (IH (ret_ ++ [t]) st) as (batches & Hfl & Hres).
      exists batches. split; [assumption|].
      rewrite <- app_assoc in Hres. cbn [app] in Hres.
      destruct (fst (processUpdateQueue_loop rest (ret_ ++ [t]) st)) as [r|];
        [|assumption].
      destruct Hres as [Hcat Hr]. split; [assumption | now apply Hstop].
  - cbn [processUpdateQueue_loop receivedUntilStop].
    destruct (0 <? length ret_)%nat eqn:El.
    + apply (Hflush ret_ [] st (fun _ => ret None)
               (fun r => r = None ↔ Stop ∈ Stop :: rest)).
      intros st1. exists []. cbn. rewrite app_nil_r. repeat split. intros _. left.
    + destruct ret_ as [|first buf]; [|discriminate].
      exists []. cbn. rewrite app_nil_r. repeat split. intros _. left.
  - cbn [processUpdateQueue_loop receivedUntilStop].
    assert (Hstop : ∀ r : option (list cnameChange),
               (r = None ↔ Stop ∈ rest) → (r = None ↔ Stop ∈ Idle :: rest)).
    { intros r Hr. rewrite Hr, elem_of_cons. split; [now right|].
      intros [Habs | Hin]; [discriminate | assumption]. }
    destruct (0 <? length ret_)%nat eqn:El.
    + apply (Hflush ret_ (receivedUntilStop rest) st _
               (fun r => r = None ↔ Stop ∈ Idle :: rest)).
      intros st1. destruct (IH [] st1) as (batches & Hfl & Hres).
      exists batches. split; [assumption|].
      destruct (fst (processUpdateQueue_loop rest [] st1)) as [r|]; [|assumption].
      destruct Hres as [Hcat Hr]. split; [assumption | now apply Hstop].
    + destruct (IH ret_ st) as (batches & Hfl & Hres).
      exists batches. split; [assumption|].
      destruct (fst (processUpdateQueue_loop rest ret_ st)) as [r|]; [|assumption].
      destruct Hres as [Hcat Hr]. split; [assumption | now apply Hstop].
Qed.

(** X20.  The reconciler loop loses, duplicates and reorders nothing.
    Over any sequence of arrivals, idle turns and stop: when it has not
    panicked, the batches handed to [applyBatch], laid end to end and
    followed by the buffer still held, are exactly the changes taken
    from the queue before the stop, in arrival order; the loop has
    returned exactly when a stop was among the events, and then holds
    nothing back.  If it panicked, the batches handed over are a prefix
    of the changes taken. *)
Theorem X20_queue_conservation `{Env} (selects : list selected) (st : state) :
  ∃ batches,
    flushed (snd (processUpdateQueue selects st)) = flushed st ++ batches
    ∧ match fst (processUpdateQueue selects st) with
      | Returned (Some buffer) =>
          concat batches ++ buffer = receivedUntilStop selects ∧ Stop ∉ selects
      | Returned None =>
          concat batches = receivedUntilStop selects ∧ Stop ∈ selects
      | Panicked => concat batches `prefix_of` receivedUntilStop selects
      end.
Proof.
  unfold processUpdateQueue.
  destruct (processUpdateQueue_loop_conserves selects [] st) as (batches & Hfl & Hres).
  exists batches. split; [assumption|].
  destruct (fst (processUpdateQueue_loop selects [] st)) as [[buffer|]|].
  - destruct Hres as [Hcat Hstop]. split; [assumption|].
    intros Hin. apply Hstop in Hin. discriminate.
  - destruct Hres as [Hcat Hstop]. cbn in Hcat. rewrite app_nil_r in Hcat.
    split; [assumption | now apply Hstop].
  - assumption.
Qed.

Lemma deleteUniform_prefix (b1 b2 : list cnameChange) :
  deleteUniform (b1 ++ b2) → deleteUniform b1.
Proof. intros [Hall | Hall]; apply Forall_app in Hall as [H1 _]; [now left | now right]. Qed.

Lemma actionBoundary_uniform (buf : list cnameChange) (t : cnameChange) :
  deleteUniform (buf ++ [t]) → actionBoundary buf t = false.
Proof.
  destruct buf as [|first buf]; [reflexivity|]. unfold actionBoundary.
  intros [Hall | Hall]; apply Forall_app in Hall as [Hbuf Ht];
    apply Forall_cons in Hbuf as [Hfirst _]; apply (proj1 (Forall_singleton _ _)) in Ht;
    cbn beta in Hfirst, Ht.
  - rewrite Hfirst, Ht. reflexivity.
  - apply (proj2 (String.eqb_neq _ _)) in Hfirst. apply (proj2 (String.eqb_neq _ _)) in Ht.
    rewrite Hfirst, Ht. reflexivity.
Qed.

Lemma processUpdateQueue_loop_receive `{Env} (changes : list cnameChange) :
  ∀ (buf : list cnameChange) (tail : list selected) (st : state),
    deleteUniform (buf ++ changes) →
    processUpdateQueue_loop (List.map Receive changes ++ tail) buf st
    = processUpdateQueue_loop tail (buf ++ changes) st.
Proof.
  induction changes as [|t rest IH]; intros buf tail st Huni.
  - cbn. now rewrite app_nil_r.
  - cbn [List.map app processUpdateQueue_loop].
    assert (Hbuf : deleteUniform ((buf ++ [t]) ++ rest)) by now rewrite <- app_assoc.
    rewrite (actionBoundary_uniform buf t) by now apply deleteUniform_prefix in Hbuf.
    rewrite IH by assumption. now rewrite <- app_assoc.
Qed.

(** X21.  Changes of one kind arriving in a row are applied together.
    When the changes taken from the queue since the last flush are all
    DELETE, or all something else, then at the next idle turn, or at
    stop, the loop hands them to [applyBatch] as one batch, in arrival
    order, and goes on with an empty buffer. *)
Theorem X21_same_kind_arrivals_form_one_batch `{Env} (changes : list cnameChange)
    (tail : list selected) (st : state) :
  changes ≠ [] →
  deleteUniform changes →
  processUpdateQueue (List.map Receive changes ++ Idle :: tail) st
  = bind (applyBatch changes) (fun _ => processUpdateQueue_loop tail []) st
  ∧ processUpdateQueue (List.map Receive changes ++ Stop :: tail) st
    = bind (applyBatch changes) (fun _ => ret None) st.
Proof.
  intros Hne Huni. unfold processUpdateQueue.
  rewrite !processUpdateQueue_loop_receive by assumption.
  cbn [app processUpdateQueue_loop].
  destruct changes as [|first rest]; [contradiction|]. split; reflexivity.
Qed.

Lemma X21_witness_two_upserts :
  flushed (snd (@processUpdateQueue exampleEnv
                  [Receive (mkChange "UPSERT" (mkRecord "a.example.com" "public"));
                   Receive (mkChange "UPSERT" (mkRecord "b.example.com" "public"));
                   Idle] exampleState))
  = [[mkChange "UPSERT" (mkRecord "a.example.com" "public");
      mkChange "UPSERT" (mkRecord "b.example.com" "public")]].
Proof.
  destruct (@X21_same_kind_arrivals_form_one_batch exampleEnv
              [mkChange "UPSERT" (mkRecord "a.example.com" "public");
               mkChange "UPSERT" (mkRecord "b.example.com" "public")] [] exampleState)
    as [Hidle _].
  - discriminate.
  - right. repeat constructor; discriminate.
  - cbn [List.map app] in Hidle. rewrite Hidle. vm_compute. reflexivity.
Defined.

(** ** From an event to the zone *)

Lemma getHostnames_loop_NoDup (rules : list IngressRule) :
  ∀ hostnames, NoDup hostnames → NoDup (getHostnames_loop rules hostnames).
Proof.
  induction rules as [|rule rest IH]; intros hostnames Hnodup; [assumption|].
  cbn [getHostnames_loop].
  destruct (stringInSlice (Host rule) hostnames) eqn:Ein; apply IH; [assumption|].
  apply NoDup_app. split; [assumption|]. split; [|apply NoDup_singleton].
  intros h Hh Hh'. apply list_elem_of_singleton in Hh'. subst h.
  apply stringInSlice_elem in Hh. congruence.
Qed.

Lemma queueUpdates_records (action : string) (hostnames : list string) (target : string) :
  List.map Record_ (queueUpdates action hostnames target) = recordsFor hostnames target.
Proof. induction hostnames as [|h rest IH]; [reflexivity|]. simpl. now rewrite IH. Qed.

Lemma recordsFor_hostnames (hostnames : list string) (target : string) :
  List.map Hostname (recordsFor hostnames target) = hostnames.
Proof. induction hostnames as [|h rest IH]; [reflexivity|]. simpl. now rewrite IH. Qed.

Lemma recordsFor_elem (hostnames : list string) (target : string) (u : cnameRecord) :
  u ∈ recordsFor hostnames target ↔ ∃ h, h ∈ hostnames ∧ u = mkRecord h target.
Proof.
  unfold recordsFor. rewrite list_elem_of_In, in_map_iff. split.
  - intros (h & <- & Hh). exists h. split; [now apply list_elem_of_In | reflexivity].
  - intros (h & Hh & ->). exists h. split; [reflexivity | now apply list_elem_of_In].
Qed.

Lemma policy_lookup_returns `{Env} (action : string) (w : World) (u : cnameRecord) :
  policy action w u → ∃ t err, lookupCname w (Hostname u) = Returned (t, err).
Proof.
  intros [[_ (_ & t & err & Hl & _)] | [_ (t & err & Hl & _)]]; eauto.
Qed.

(** A batch of distinct hostnames whose records all pass the filter
    goes through prune whole. *)
Lemma pruneBatch_keeps_all `{Env} (action : string) (records : list cnameRecord)
    (st : state) :
  NoDup (List.map Hostname records) →
  (∀ u, u ∈ records → passesFilter action (world st) u) →
  ∃ qs, pruneBatch action records st = (Returned records, touched 0 qs st).
Proof.
  intros Hnodup Hpass.
  assert (Hq : queriesReturn (world st) records).
  { intros u Hu _. destruct (Hpass u Hu) as [_ Hpol].
    now apply policy_lookup_returns in Hpol. }
  destruct (pruneBatch_loop_returns action records [] st Hq)
    as (kept & qs & Hloop & Hkept & Hkin).
  assert (kept = records) as ->.
  { apply sublist_covering; [assumption | now apply NoDup_hostnames|].
    intros u Hu. apply Hkin. auto. }
  rewrite outOfScope_none in Hloop by (intros u Hu; now destruct (Hpass u Hu)).
  exists qs. unfold pruneBatch, bind. rewrite Hloop. cbn [app length].
  rewrite uniqueRecords_run, uniqueRecords_loop_distinct by assumption.
  cbn [fst snd length]. now rewrite rejectedMore_0.
Qed.

(** The changes of one [queueUpdates] call, taken from the queue and
    followed by an idle turn, all passing the filter. *)
Lemma flush_all_pass `{Env} (action : string) (hostnames : list string) (target : string)
    (st : state) :
  dryRun = false →
  hostnames ≠ [] →
  NoDup hostnames →
  (∀ h, h ∈ hostnames → passesFilter action (world st) (mkRecord h target)) →
  ∃ qs,
    processUpdateQueue
      (List.map Receive (queueUpdates action hostnames target) ++ [Idle]) st
    = (Returned (Some []),
       afterMutator action (recordsFor hostnames target)
                    (touched 0 qs (entered (queueUpdates action hostnames target) st))).
Proof.
  intros Hdry Hne Hnodup Hpass.
  assert (Huni : deleteUniform ([] ++ queueUpdates action hostnames target)).
  { pose proof (queueUpdates_actions action hostnames target) as Hact.
    destruct (String.eqb action route53.ChangeActionDelete) eqn:Ea.
    - apply String.eqb_eq in Ea. left. eapply Forall_impl; [exact Hact|].
      intros c Hc. cbn beta in Hc. congruence.
    - apply String.eqb_neq in Ea. right. eapply Forall_impl; [exact Hact|].
      intros c Hc. cbn beta in Hc. congruence. }
  unfold processUpdateQueue. rewrite processUpdateQueue_loop_receive by assumption.
  cbn [app processUpdateQueue_loop].
  destruct hostnames as [|h0 hs]; [contradiction|].
  set (first := mkChange action (mkRecord h0 target)).
  set (rest := queueUpdates action hs target).
  change (queueUpdates action (h0 :: hs) target) with (first :: rest).
  assert (Hrecords : List.map Record_ (first :: rest) = recordsFor (h0 :: hs) target)
    by apply (queueUpdates_records action (h0 :: hs) target).
  destruct (pruneBatch_keeps_all action (recordsFor (h0 :: hs) target)
              (entered (first :: rest) st)) as [qs Hprune].
  { now rewrite recordsFor_hostnames. }
  { intros u Hu. apply recordsFor_elem in Hu as (h & Hh & ->). now apply Hpass. }
  rewrite <- Hrecords in Hprune at 1.
  exists qs. cbn [length Nat.ltb Nat.leb]. unfold bind.
  rewrite (applyBatch_pruned first rest st _ _ Hprune), Hdry. reflexivity.
Qed.

(** X22.  From an event to the zone.  Outside a dry run, take an
    ingress with a configured target and at least one hostname.  If
    every record derived from it passes the prune filter for UPSERT,
    then handling its ADDED event and letting the reconciler take the
    changes and reach an idle turn makes exactly one mutator call:
    [UpsertCnames] on the records of all its hostnames, in order, each
    pointing to the target; the zone is what that call made of it.
    Likewise, if they all pass the filter for DELETE, its DELETED event
    leads to exactly one [DeleteCnames] call on all its records. *)
Theorem X22_event_reaches_zone `{Env} (r : registrator) (ingress : Ingress) (st : state) :
  let hostnames := getHostnamesFromIngress ingress in
  let target := getTargetForIngress r ingress in
  dryRun = false →
  target ≠ EmptyString →
  hostnames ≠ [] →
  ((∀ h, h ∈ hostnames →
         passesFilter route53.ChangeActionUpsert (world st) (mkRecord h target)) →
   mutatorCalls (snd (processUpdateQueue
                        (delivered (handler r watch.Added None (Some ingress))) st))
   = mutatorCalls st ++ [CallUpsertCnames (recordsFor hostnames target)]
   ∧ world (snd (processUpdateQueue
                   (delivered (handler r watch.Added None (Some ingress))) st))
     = snd (UpsertCnames (recordsFor hostnames target) (world st)))
  ∧ ((∀ h, h ∈ hostnames →
           passesFilter route53.ChangeActionDelete (world st) (mkRecord h target)) →
     mutatorCalls (snd (processUpdateQueue
                          (delivered (handler r watch.Deleted (Some ingress) None)) st))
     = mutatorCalls st ++ [CallDeleteCnames (recordsFor hostnames target)]
     ∧ world (snd (processUpdateQueue
                     (delivered (handler r watch.Deleted (Some ingress) None)) st))
       = snd (DeleteCnames (recordsFor hostnames target) (world st))).
Proof.
  intros hostnames target Hdry Htarget Hhosts.
  assert (Hnodup : NoDup hostnames) by (apply getHostnames_loop_NoDup; constructor).
  assert (Hlen : (length hostnames =? 0)%nat = false).
  { destruct hostnames; [contradiction | reflexivity]. }
  apply String.eqb_neq in Htarget.
  split; intros Hpass.
  - assert (Hsent : handler r watch.Added None (Some ingress)
                    = Returned (queueUpdates route53.ChangeActionUpsert hostnames target)).
    { unfold handler. change (String.eqb watch.Added watch.Added) with true. cbv iota.
      fold hostnames target. now rewrite Htarget, Hlen. }
    rewrite Hsent. cbn [delivered].
    destruct (flush_all_pass route53.ChangeActionUpsert hostnames target st
                Hdry Hhosts Hnodup Hpass) as [qs ->].
    split; reflexivity.
  - assert (Hsent : handler r watch.Deleted (Some ingress) None
                    = Returned (queueUpdates route53.ChangeActionDelete hostnames target)).
    { unfold handler. change (String.eqb watch.Deleted watch.Added) with false.
      change (String.eqb watch.Deleted watch.Modified) with false.
      change (String.eqb watch.Deleted watch.Deleted) with true. cbv iota.
      fold hostnames target. now rewrite Htarget, Hlen. }
    rewrite Hsent. cbn [delivered].
    destruct (flush_all_pass route53.ChangeActionDelete hostnames target st
                Hdry Hhosts Hnodup Hpass) as [qs ->].
    split; reflexivity.
Qed.

Lemma X22_witness_ingressA_added :
  mutatorCalls (snd (@processUpdateQueue exampleEnv
                       (delivered (@handler exampleEnv exampleRegistrator watch.Added
                                            None (Some ingressA)))
                       (mock.start exampleEnv emptyWorld)))
  = [CallUpsertCnames [mkRecord "foo1.example.com" "private";
                       mkRecord "foo2.example.com" "private"]].
Proof.
  destruct (@X22_event_reaches_zone exampleEnv exampleRegistrator ingressA
              (mock.start exampleEnv emptyWorld)) as [Hadded _].
  - reflexivity.
  - discriminate.
  - discriminate.
  - destruct Hadded as [Hcalls _]; [|exact Hcalls].
    intros h Hh.
    assert (Hcase : h = "foo1.example.com" ∨ h = "foo2.example.com").
    { vm_compute in Hh. apply elem_of_cons in Hh as [-> | Hh]; [now left|].
      apply list_elem_of_singleton in Hh. now right. }
    destruct Hcase as [-> | ->].
    + split; [vm_compute; reflexivity|]. right. split; [reflexivity|].
      exists EmptyString, (Some errDNSEmptyAnswer).
      split; [vm_compute; reflexivity | left; discriminate].
    + split; [vm_compute; reflexivity|]. right. split; [reflexivity|].
      exists EmptyString, (Some errDNSEmptyAnswer).
      split; [vm_compute; reflexivity | left; discriminate].
Defined.

Lemma handler_modified_split `{Env} (r : registrator) (oldIngress newIngress : Ingress)
    (changes : list cnameChange) :
  handler r watch.Modified (Some oldIngress) (Some newIngress) = Returned changes →
  ∃ upserts deletes,
    changes = upserts ++ deletes
    ∧ Forall (fun c => Action c = route53.ChangeActionUpsert) upserts
    ∧ Forall (fun c => Action c = route53.ChangeActionDelete) deletes.
Proof.
  intros Hrun. unfold handler in Hrun.
  change (String.eqb watch.Modified watch.Added) with false in Hrun.
  change (String.eqb watch.Modified watch.Modified) with true in Hrun. cbv iota in Hrun.
  match type of Hrun with (if ?b then _ else _) = _ => destruct b end;
    injection Hrun as <-.
  - exists [], []. repeat split; constructor.
  - eexists _, _. split; [reflexivity|]. split; apply Forall_forall; intros c Hc;
      apply guarded_queueUpdates_elem in Hc as (_ & h & Hh & ->); reflexivity.
Qed.

(** An idle turn flushes the buffer, if there is one. *)
Lemma flush_at_idle `{Env} (buf : list cnameChange) (st : state) :
  answersWellTyped →
  fst (processUpdateQueue_loop [Idle] buf st) = Returned (Some [])
  ∧ flushed (snd (processUpdateQueue_loop [Idle] buf st)) = flushed st ++ batchOf buf.
Proof.
  intros Hwt. destruct buf as [|first rest].
  - cbn. now rewrite app_nil_r.
  - cbn [processUpdateQueue_loop length Nat.ltb Nat.leb batchOf]. unfold bind.
    pose proof (applyBatch_returns first rest st Hwt) as Hret.
    pose proof (applyBatch_flushed (first :: rest) st) as Hfl.
    destruct (applyBatch (first :: rest) st) as [[[]|] st1]; [|discriminate].
    cbn in *. auto.
Qed.

(** UPSERTs followed by DELETEs, then an idle turn. *)
Lemma flush_two_kinds `{Env} (upserts deletes : list cnameChange) (st : state) :
  answersWellTyped →
  Forall (fun c => Action c = route53.ChangeActionUpsert) upserts →
  Forall (fun c => Action c = route53.ChangeActionDelete) deletes →
  fst (processUpdateQueue (List.map Receive (upserts ++ deletes) ++ [Idle]) st)
  = Returned (Some [])
  ∧ flushed (snd (processUpdateQueue (List.map Receive (upserts ++ deletes) ++ [Idle]) st))
    = flushed st ++ batchOf upserts ++ batchOf deletes.
Proof.
  intros Hwt Hups Hdels. unfold processUpdateQueue.
  assert (Hu : deleteUniform ([] ++ upserts)).
  { right. eapply Forall_impl; [exact Hups|]. intros c Hc. cbn beta in Hc.
    rewrite Hc. intros Habs. symmetry in Habs. now apply actions_differ in Habs. }
  assert (Hd : ∀ buf, Forall (fun c => Action c = route53.ChangeActionDelete) buf →
                      deleteUniform (buf ++ deletes)).
  { intros buf Hbuf. left. apply Forall_app. auto. }
  rewrite List.map_app, <- app_assoc, processUpdateQueue_loop_receive by assumption.
  cbn [app]. destruct deletes as [|d ds].
  - cbn [List.map app batchOf]. rewrite app_nil_r. now apply flush_at_idle.
  - destruct upserts as [|u us].
    + rewrite processUpdateQueue_loop_receive by (apply Hd; constructor).
      cbn [app batchOf]. now apply flush_at_idle.
    + cbn [List.map app processUpdateQueue_loop].
      apply Forall_cons in Hups as [Hu0 _]. pose proof Hdels as Hdels'.
      apply Forall_cons in Hdels' as [Hd0 _]. cbn beta in Hu0, Hd0.
      rewrite actionBoundary_differ;
        [| now left | now right
         | rewrite Hu0, Hd0; apply actions_differ].
      unfold bind. pose proof (applyBatch_returns u us st Hwt) as Hret.
      pose proof (applyBatch_flushed (u :: us) st) as Hfl.
      destruct (applyBatch (u :: us) st) as [[[]|] st1]; [|discriminate].
      cbn [snd] in Hfl. cbv beta iota.
      rewrite processUpdateQueue_loop_receive
        by (left; exact Hdels).
      destruct (flush_at_idle ([d] ++ ds) st1 Hwt) as [Hres Hflushed].
      split; [assumption|]. rewrite Hflushed, Hfl, <- app_assoc. reflexivity.
Qed.

(** X26.  On a MODIFIED event the new records are written before the
    old ones are removed.  When no nameserver sends a malformed answer,
    the changes the handler enqueues for the event, taken by the
    reconciler and followed by an idle turn, are handed to [applyBatch]
    as at most two batches: first all the UPSERTs (if any), flushed when
    the first DELETE arrives, then all the DELETEs (if any); the loop is
    left with an empty buffer. *)
Theorem X26_modified_upserts_applied_first `{Env} (r : registrator)
    (oldIngress newIngress : Ingress) (changes : list cnameChange) (st : state) :
  answersWellTyped →
  handler r watch.Modified (Some oldIngress) (Some newIngress) = Returned changes →
  ∃ upserts deletes,
    changes = upserts ++ deletes
    ∧ Forall (fun c => Action c = route53.ChangeActionUpsert) upserts
    ∧ Forall (fun c => Action c = route53.ChangeActionDelete) deletes
    ∧ fst (processUpdateQueue (delivered (Returned changes)) st) = Returned (Some [])
    ∧ flushed (snd (processUpdateQueue (delivered (Returned changes)) st))
      = flushed st ++ batchOf upserts ++ batchOf deletes.
Proof.
  intros Hwt Hrun.
  destruct (handler_modified_split r oldIngress newIngress changes Hrun)
    as (upserts & deletes & -> & Hups & Hdels).
  exists upserts, deletes. split; [reflexivity|]. split; [assumption|].
  split; [assumption|]. cbn [delivered]. now apply flush_two_kinds.
Qed.

Lemma X26_witness_one_host_replaced :
  fst (@processUpdateQueue exampleEnv
         (delivered (@handler exampleEnv exampleRegistrator watch.Modified
                              (Some ingressA) (Some ingressASwapped)))
         exampleState)
  = Returned (Some []).
Proof.
  assert (Hwt : @answersWellTyped exampleEnv).
  { intros name nameserver w rrtype others Hns.
    apply list_elem_of_singleton in Hns. subst nameserver.
    unfold Exchange, exampleEnv, mock.env, mock.exchange.
    change (String.eqb "ns1:53" "down:53") with false.
    change (String.eqb "ns1:53" "odd:53") with false. cbv iota.
    destruct (mock.zoneData w !! strings.Trim name "."); discriminate. }
  destruct (@X26_modified_upserts_applied_first exampleEnv exampleRegistrator
              ingressA ingressASwapped _ exampleState Hwt eq_refl)
    as (upserts & deletes & _ & _ & _ & Hres & _).
  exact Hres.
Defined.

(** ** Deduplication, exactly *)

Lemma firstPerHostname_snoc (l : list cnameRecord) (r : cnameRecord) :
  ∀ seen,
    firstPerHostname seen (l ++ [r])
    = firstPerHostname seen l
      ++ (if stringInSlice (Hostname r) seen || recordHostnameInSlice (Hostname r) l
          then [] else [r]).
Proof.
  induction l as [|x l IH]; intros seen.
  - cbn [app firstPerHostname recordHostnameInSlice]. rewrite orb_false_r.
    now destruct (stringInSlice (Hostname r) seen).
  - cbn [app firstPerHostname recordHostnameInSlice].
    destruct (stringInSlice (Hostname x) seen) eqn:Ex.
    + rewrite IH. f_equal.
      destruct (String.eqb (Hostname r) (Hostname x)) eqn:E; [|reflexivity].
      apply String.eqb_eq in E. rewrite E, Ex. reflexivity.
    + rewrite IH. cbn [app stringInSlice]. f_equal. f_equal.
      destruct (String.eqb (Hostname r) (Hostname x)); [|reflexivity].
      now rewrite orb_true_r.
Qed.

Lemma firstPerHostname_names (l : list cnameRecord) (h : string) :
  ∀ seen,
    recordHostnameInSlice h (firstPerHostname seen l)
    = negb (stringInSlice h seen) && recordHostnameInSlice h l.
Proof.
  induction l as [|x l IH]; intros seen.
  - cbn. now rewrite andb_false_r.
  - cbn [firstPerHostname recordHostnameInSlice].
    destruct (stringInSlice (Hostname x) seen) eqn:Ex.
    + rewrite IH. destruct (String.eqb h (Hostname x)) eqn:E; [|reflexivity].
      apply String.eqb_eq in E. rewrite E, Ex. reflexivity.
    + cbn [recordHostnameInSlice]. rewrite IH. cbn [stringInSlice].
      destruct (String.eqb h (Hostname x)) eqn:E; [|reflexivity].
      apply String.eqb_eq in E. rewrite E, Ex. reflexivity.
Qed.

(** The kept and the rejected names together are the names met. *)
Lemma partition_names (agree : cnameRecord -> bool) (l : list cnameRecord) (h : string) :
  stringInSlice h (List.map Hostname (List.filter (fun r => negb (agree r)) l))
  || recordHostnameInSlice h (List.filter agree l)
  = recordHostnameInSlice h l.
Proof.
  induction l as [|x l IH]; [reflexivity|].
  cbn [List.filter recordHostnameInSlice]. destruct (agree x); cbn [negb].
  - cbn [recordHostnameInSlice]. destruct (String.eqb h (Hostname x)); [|assumption].
    apply orb_true_r.
  - cbn [List.map stringInSlice]. destruct (String.eqb h (Hostname x)); [|assumption].
    reflexivity.
Qed.

Lemma targetsAgree_sameTargets (records : list cnameRecord) (r : cnameRecord) :
  r ∈ records →
  targetsAgree records r = true ↔ sameTargets (Hostname r) records.
Proof.
  intros Hr. unfold targetsAgree. rewrite forallb_forall. split.
  - intros Hall r1 r2 Hr1 Hr2 H1 H2.
    assert (Hone : ∀ r', r' ∈ records → Hostname r' = Hostname r → Target r = Target r').
    { intros r' Hr' Hname. apply list_elem_of_In, Hall in Hr'.
      rewrite Hname, String.eqb_refl in Hr'. cbn in Hr'. now apply String.eqb_eq. }
    rewrite <- (Hone r1 Hr1 H1). now apply Hone.
  - intros Hsame r2 Hr2. apply list_elem_of_In in Hr2.
    destruct (String.eqb (Hostname r) (Hostname r2)) eqn:E; [|reflexivity].
    apply String.eqb_eq in E. cbn. apply String.eqb_eq. now apply Hsame.
Qed.

Lemma uniqueRecords_loop_exact_from (records todo : list cnameRecord) :
  ∀ done,
    records = done ++ todo →
    uniqueRecords_loop records todo (length done)
      (List.filter (targetsAgree records) (firstPerHostname [] done))
      (List.map Hostname
         (List.filter (fun r => negb (targetsAgree records r)) (firstPerHostname [] done)))
    = (survivors records, rejectedHostnames records).
Proof.
  induction todo as [|r1 rest IH]; intros done Hrec.
  - rewrite app_nil_r in Hrec. subst done. reflexivity.
  - cbn [uniqueRecords_loop].
    rewrite partition_names, firstPerHostname_names. cbn [stringInSlice negb andb].
    assert (Hnext : records = (done ++ [r1]) ++ rest) by now rewrite <- app_assoc.
    specialize (IH (done ++ [r1]) Hnext).
    rewrite length_app, Nat.add_1_r, firstPerHostname_snoc in IH.
    cbn [stringInSlice orb] in IH.
    destruct (recordHostnameInSlice (Hostname r1) done) eqn:Eseen.
    + now rewrite app_nil_r in IH.
    + assert (Hagree : recordTargetsAllMatch (Target r1)
                         (duplicatesOf (length done) r1 records 0)
                       = targetsAgree records r1).
      { apply eq_true_iff_eq. rewrite targetsAgree_sameTargets.
        - rewrite Hrec. apply allMatch_sameTargets.
        - rewrite Hrec. apply elem_of_app. right. left. }
      rewrite Hagree. rewrite !List.filter_app, List.map_app in IH.
      cbn [List.filter List.map] in IH.
      destruct (targetsAgree records r1); cbn [negb List.map] in IH.
      * now rewrite app_nil_r in IH.
      * now rewrite app_nil_r in IH.
Qed.

Lemma uniqueRecords_loop_exact (records : list cnameRecord) :
  uniqueRecords_loop records records 0 [] [] = (survivors records, rejectedHostnames records).
Proof. now apply (uniqueRecords_loop_exact_from records records []). Qed.

(** X27.  What [uniqueRecords] returns, exactly.  The survivors are,
    for each hostname whose records in the batch all name one target,
    the first record of that hostname, in batch order; every other
    record is dropped.  [metricUpdatesRejected] grows by the number of
    distinct hostnames whose records disagree.  In particular the
    survivors are a sublist of the batch with at most one record per
    hostname, and a hostname of the batch has a survivor exactly when
    all its records agree. *)
Theorem X27_uniqueRecords_exact `{Env} (records : list cnameRecord) (st : state) :
  uniqueRecords records st
  = (Returned (survivors records),
     rejectedMore (length (rejectedHostnames records)) st)
  ∧ survivors records `sublist_of` records
  ∧ NoDup (List.map Hostname (survivors records))
  ∧ (∀ h, h ∈ List.map Hostname (survivors records)
          ↔ h ∈ List.map Hostname records ∧ sameTargets h records)
  ∧ NoDup (rejectedHostnames records)
  ∧ (∀ h, h ∈ rejectedHostnames records
          ↔ h ∈ List.map Hostname records ∧ ¬ sameTargets h records).
Proof.
  pose proof (uniqueRecords_loop_spec records) as Hinv.
  rewrite uniqueRecords_run, uniqueRecords_loop_exact in *. cbn [fst snd] in *.
  split; [reflexivity|].
  split; [apply Hinv|]. split; [apply Hinv|].
  split; [now apply uniqueInv_survivor_names with (rej := rejectedHostnames records)|].
  split; [apply Hinv|].
  now apply uniqueInv_rejected_names with (uniq := survivors records).
Qed.

Lemma X27_witness_repeated_record_keeps_its_place :
  @uniqueRecords exampleEnv
    [mkRecord "a.example.com" "public"; mkRecord "b.example.com" "public";
     mkRecord "a.example.com" "public"; mkRecord "c.example.com" "public";
     mkRecord "c.example.com" "private"]
    exampleState
  = (Returned [mkRecord "a.example.com" "public"; mkRecord "b.example.com" "public"],
     @rejectedMore exampleEnv 1 exampleState).
Proof.
  destruct (@X27_uniqueRecords_exact exampleEnv
              [mkRecord "a.example.com" "public"; mkRecord "b.example.com" "public";
               mkRecord "a.example.com" "public"; mkRecord "c.example.com" "public";
               mkRecord "c.example.com" "private"]
              exampleState) as [Hrun _].
  exact Hrun.
Defined.

(** * The earlier registrator *)

Lemma legacy_upsertAll_run `{legacy.Env} (hostnames : list string) (target : string) :
  ∀ st, fst (legacy.upsertAll hostnames target st) = Returned tt
        ∧ legacy.mutatorCalls (snd (legacy.upsertAll hostnames target st))
          = legacy.mutatorCalls st ++ upsertCalls hostnames target.
Proof.
  induction hostnames as [|h rest IH]; intros st.
  - cbn. now rewrite app_nil_r.
  - cbn [legacy.upsertAll]. unfold legacy.bind, legacy.r_UpsertCname.
    match goal with
    | |- context [legacy.upsertAll rest target ?s] => destruct (IH s) as [Hret Hcalls]
    end.
    rewrite Hret, Hcalls. cbn. now rewrite <- app_assoc.
Qed.

Lemma legacy_deleteAll_run `{legacy.Env} (hostnames : list string) :
  ∀ st, fst (legacy.deleteAll hostnames st) = Returned tt
        ∧ legacy.mutatorCalls (snd (legacy.deleteAll hostnames st))
          = legacy.mutatorCalls st ++ deleteCalls hostnames.
Proof.
  induction hostnames as [|h rest IH]; intros st.
  - cbn. now rewrite app_nil_r.
  - cbn [legacy.deleteAll]. unfold legacy.bind, legacy.r_DeleteCname.
    match goal with
    | |- context [legacy.deleteAll rest ?s] => destruct (IH s) as [Hret Hcalls]
    end.
    rewrite Hret, Hcalls. cbn. now rewrite <- app_assoc.
Qed.

Lemma legacy_constructed `{legacy.Env} (opts : legacy.registratorOptions)
    (r : legacy.registrator) :
  legacy.newRegistratorWithOptions opts = inr r →
  legacy.PrivateHostname opts ≠ EmptyString
  ∧ legacy.PublicHostname opts ≠ EmptyString
  ∧ legacy.PrivateHostname (legacy.options r) = legacy.PrivateHostname opts
  ∧ legacy.PublicHostname (legacy.options r) = legacy.PublicHostname opts
  ∧ (if String.eqb (legacy.PublicResourceSelector opts) ""
     then legacy.publicSelector r = legacy.Nothing
     else legacy.Parse (legacy.PublicResourceSelector opts)
          = Ok (legacy.publicSelector r)).
Proof.
  unfold legacy.newRegistratorWithOptions. intros Hnew.
  destruct (String.eqb (legacy.PrivateHostname opts) "") eqn:Epriv; [discriminate|].
  destruct (String.eqb (legacy.PublicHostname opts) "") eqn:Epub; [discriminate|].
  apply String.eqb_neq in Epriv, Epub. cbn [orb] in Hnew.
  destruct (String.eqb (legacy.PublicResourceSelector opts) "") eqn:Esel.
  - destruct (legacy.KubernetesConfig opts) as [c|];
      [|destruct legacy.InClusterConfig as [c|msg]; [|discriminate]];
      injection Hnew as <-; cbn; auto.
  - destruct (legacy.Parse (legacy.PublicResourceSelector opts)) as [s|msg];
      [|discriminate].
    destruct (legacy.KubernetesConfig opts) as [c|];
      [|destruct legacy.InClusterConfig as [c|msg]; [|discriminate]];
      injection Hnew as <-; cbn; auto.
Qed.

(** X23.  The earlier version always finds a target.  For a registrator
    it constructed, [getTargetForIngress] returns the public hostname
    when the public selector matches the ingress's labels and the
    private hostname otherwise; both were required to be non-empty, so
    the target is never empty.  With no public selector configured, and
    [labels.Nothing] matching nothing, every ingress goes to the private
    hostname. *)
Theorem X23_legacy_target_never_empty `{legacy.Env} (opts : legacy.registratorOptions)
    (r : legacy.registrator) (ingress : Ingress) :
  legacy.newRegistratorWithOptions opts = inr r →
  legacy.getTargetForIngress r ingress ≠ EmptyString
  ∧ legacy.getTargetForIngress r ingress
    = (if legacy.Matches (legacy.publicSelector r) (Labels ingress)
       then legacy.PublicHostname opts else legacy.PrivateHostname opts)
  ∧ (legacy.PublicResourceSelector opts = EmptyString →
     (∀ labels, legacy.Matches legacy.Nothing labels = false) →
     legacy.getTargetForIngress r ingress = legacy.PrivateHostname opts).
Proof.
  intros Hnew.
  destruct (legacy_constructed opts r Hnew) as (Hpriv & Hpub & Epriv & Epub & Hsel).
  unfold legacy.getTargetForIngress. rewrite Epriv, Epub.
  split; [|split; [reflexivity|]].
  - now destruct (legacy.Matches (legacy.publicSelector r) (Labels ingress)).
  - intros Hnone Hnothing. rewrite Hnone in Hsel. cbn in Hsel.
    now rewrite Hsel, Hnothing.
Qed.

Lemma X23_witness_no_selector :
  @legacy.getTargetForIngress legacy.mockEnv legacyPrivateOnly ingressFooPublic
  = "private.example.net".
Proof.
  destruct (@X23_legacy_target_never_empty legacy.mockEnv legacyPrivateOnlyOptions
              legacyPrivateOnly ingressFooPublic eq_refl) as (_ & _ & Hprivate).
  apply Hprivate; [reflexivity | intros labels; reflexivity].
Defined.

(** X24.  The earlier handler calls the zone once per hostname and
    never stops on an error.  For non-nil ingresses it always returns,
    and whatever the mutators answer, the calls it makes are, in order:
    on ADDED an upsert for every hostname of the ingress; on MODIFIED an
    upsert for every hostname of the new ingress, then a delete for
    every hostname only the old ingress had; on DELETED a delete for
    every hostname.  So an unchanged ingress seen again as MODIFIED has
    all its records upserted again.  Any other event type does nothing. *)
Theorem X24_legacy_handler_calls `{legacy.Env} (r : legacy.registrator)
    (oldIngress newIngress : Ingress) (other : option Ingress) (st : legacy.state) :
  (fst (legacy.handler r watch.Added other (Some newIngress) st) = Returned tt
   ∧ legacy.mutatorCalls (snd (legacy.handler r watch.Added other (Some newIngress) st))
     = legacy.mutatorCalls st
       ++ upsertCalls (getHostnamesFromIngress newIngress)
                      (legacy.getTargetForIngress r newIngress))
  ∧ (fst (legacy.handler r watch.Modified (Some oldIngress) (Some newIngress) st)
     = Returned tt
     ∧ legacy.mutatorCalls
         (snd (legacy.handler r watch.Modified (Some oldIngress) (Some newIngress) st))
       = legacy.mutatorCalls st
         ++ upsertCalls (getHostnamesFromIngress newIngress)
                        (legacy.getTargetForIngress r newIngress)
         ++ deleteCalls (diffStringSlices (getHostnamesFromIngress oldIngress)
                                          (getHostnamesFromIngress newIngress)))
  ∧ (fst (legacy.handler r watch.Deleted (Some oldIngress) other st) = Returned tt
     ∧ legacy.mutatorCalls (snd (legacy.handler r watch.Deleted (Some oldIngress) other st))
       = legacy.mutatorCalls st ++ deleteCalls (getHostnamesFromIngress oldIngress))
  ∧ legacy.mutatorCalls
      (snd (legacy.handler r watch.Modified (Some newIngress) (Some newIngress) st))
    = legacy.mutatorCalls st
      ++ upsertCalls (getHostnamesFromIngress newIngress)
                     (legacy.getTargetForIngress r newIngress)
  ∧ (∀ eventType,
        eventType ≠ watch.Added → eventType ≠ watch.Modified →
        eventType ≠ watch.Deleted →
        legacy.handler r eventType (Some oldIngress) (Some newIngress) st
        = (Returned tt, st)).
Proof.
  assert (Hmod : ∀ o n,
             fst (legacy.handler r watch.Modified (Some o) (Some n) st) = Returned tt
             ∧ legacy.mutatorCalls (snd (legacy.handler r watch.Modified (Some o) (Some n) st))
               = legacy.mutatorCalls st
                 ++ upsertCalls (getHostnamesFromIngress n)
                                (legacy.getTargetForIngress r n)
                 ++ deleteCalls (diffStringSlices (getHostnamesFromIngress o)
                                                  (getHostnamesFromIngress n))).
  { intros o n. unfold legacy.handler.
    change (String.eqb watch.Modified watch.Added) with false.
    change (String.eqb watch.Modified watch.Modified) with true. cbv iota.
    unfold legacy.bind.
    destruct (legacy_upsertAll_run (getHostnamesFromIngress n)
                (legacy.getTargetForIngress r n) st) as [Hret Hcalls].
    destruct (legacy.upsertAll (getHostnamesFromIngress n)
                (legacy.getTargetForIngress r n) st) as [[[]|] st1];
      cbn [fst snd] in Hret, Hcalls; [|discriminate].
    destruct (legacy_deleteAll_run
                (diffStringSlices (getHostnamesFromIngress o) (getHostnamesFromIngress n))
                st1) as [Hret' Hcalls'].
    split; [assumption|]. now rewrite Hcalls', Hcalls, <- app_assoc. }
  split; [|split; [|split; [|split]]].
  - unfold legacy.handler. change (String.eqb watch.Added watch.Added) with true.
    cbv iota. apply legacy_upsertAll_run.
  - apply Hmod.
  - unfold legacy.handler. change (String.eqb watch.Deleted watch.Added) with false.
    change (String.eqb watch.Deleted watch.Modified) with false.
    change (String.eqb watch.Deleted watch.Deleted) with true.
    cbv iota. apply legacy_deleteAll_run.
  - destruct (Hmod newIngress newIngress) as [_ Hcalls].
    rewrite Hcalls, diffStringSlices_self. cbn. now rewrite app_nil_r.
  - intros eventType Ha Hm Hd. unfold legacy.handler.
    apply String.eqb_neq in Ha, Hm, Hd. now rewrite Ha, Hm, Hd.
Qed.

Lemma X24_witness_unknown_event :
  @legacy.handler legacy.mockEnv legacyRegistrator "ERROR" (Some ingressA) (Some ingressA)
                  (@legacy.mkState legacy.mockEnv ∅ [])
  = (Returned tt, @legacy.mkState legacy.mockEnv ∅ []).
Proof.
  destruct (@X24_legacy_handler_calls legacy.mockEnv legacyRegistrator ingressA ingressA
              None (@legacy.mkState legacy.mockEnv ∅ [])) as (_ & _ & _ & _ & Hother).
  apply Hother; discriminate.
Defined.

(** X25.  The earlier [Start] never reports success.  Its last
    statement calls [Start] again, so however many activations are
    followed it has not returned nil: it returns the error of a set-up
    step that failed, panics on nil session options, or is still
    running.  When every set-up call succeeds it never returns at all. *)
Theorem X25_legacy_Start_never_returns_nil `{legacy.Env} (r : legacy.registrator) :
  (∀ fuel n, legacy.Start fuel r n ≠ Some (Returned None))
  ∧ (legacy.AWSSessionOptions (legacy.options r) ≠ None →
     setupSucceeds r →
     ∀ fuel n, legacy.Start fuel r n = None).
Proof.
  split.
  - induction fuel as [|fuel IH]; intros n; [discriminate|].
    cbn [legacy.Start].
    destruct (legacy.AWSSessionOptions (legacy.options r)) as [o|]; [|discriminate].
    destruct (legacy.NewSessionWithOptions n o) as [sess|msg]; [|discriminate].
    destruct (legacy.newRoute53Zone n "zoneName" sess) as [zone|msg]; [|discriminate].
    destruct (legacy.NewForConfig n (legacy.KubernetesConfig (legacy.options r)))
      as [client|msg]; [apply IH | discriminate].
  - intros Haws Hsetup. induction fuel as [|fuel IH]; intros n; [reflexivity|].
    cbn [legacy.Start].
    destruct (legacy.AWSSessionOptions (legacy.options r)) as [o|]; [|contradiction].
    destruct (Hsetup n o) as (sess & zone & client & -> & -> & ->). apply IH.
Qed.

Lemma X25_witness_setup_succeeds :
  @legacy.Start legacy.mockEnv 1000 legacyRegistrator 0 = None.
Proof.
  destruct (@X25_legacy_Start_never_returns_nil legacy.mockEnv legacyRegistrator)
    as [_ Hruns].
  apply Hruns; [discriminate|].
  intros n o. exists tt, tt, tt. repeat split.
Defined.
